(** * gridsome/lib/build.js: the build orchestrator

  A shallow embedding of [lib/build.js]: the staged build pipeline, the
  chunked dispatch of the render and image queues to their workers, the
  progress line of the image stage and the removal of unused images.

  The asynchronous code is embedded as a computation that yields the list
  of observable calls it makes (its trace) together with the way its promise
  settles.  Everything the orchestrator only calls (file system, workers,
  compiler, plugins, the scheduler that decides which pending worker call
  settles next) is gathered in one record of oracles, [World]. *)

From Stdlib Require Import String Ascii DecimalString Decimal.
From Stdlib Require Import Arith Bool Lia PeanoNat List.
Import ListNotations.
Local Open Scope string_scope.
Local Open Scope list_scope.
Local Open Scope nat_scope.

Set Implicit Arguments.

(** ** Library functions the orchestrator uses

    [chunk] of lodash and [basename] of Node's [path] are dependencies of
    the repository; they are embedded after their own sources. So is [pMap]
    of p-map, further down, around the callback that [processImages] gives
    it. *)

Module Lodash.

(** [baseSlice(array, start, end)], for [start <= end]; [end] is clamped to
    the length of the array. *)
Definition baseSlice {A} (array : list A) (start end_ : nat) : list A :=
  firstn (end_ - start) (skipn start array).

(** The loop of [chunk]:
    [while (index < length) result[resIndex++] = baseSlice(array, index, (index += size))]. *)
Fixpoint chunk_loop {A} (fuel : nat) (array : list A) (size index : nat)
  : list (list A) :=
  match fuel with
  | 0 => []
  | S fuel' =>
      if index <? length array
      then baseSlice array index (index + size)
             :: chunk_loop fuel' array size (index + size)
      else []
  end.

(** [_.chunk(array, size)]: no chunk at all for an empty array or a size
    below one. The loop runs at most [length] times. *)
Definition chunk {A} (array : list A) (size : nat) : list (list A) :=
  if (length array =? 0) || (size <? 1) then []
  else chunk_loop (length array) array size 0.

End Lodash.

Module Path.

Definition slash : ascii := "/"%char.

Definition is_slash (c : ascii) : bool := Ascii.eqb c slash.

Fixpoint dropWhile {A} (p : A -> bool) (l : list A) : list A :=
  match l with
  | [] => []
  | x :: l' => if p x then dropWhile p l' else l
  end.

Fixpoint takeWhile {A} (p : A -> bool) (l : list A) : list A :=
  match l with
  | [] => []
  | x :: l' => if p x then x :: takeWhile p l' else []
  end.

(** [path.basename(p)] (POSIX, no extension argument): scanning from the
    end, the trailing separators are skipped, and the component that ends
    there extends back to the nearest separator. *)
Definition basename (p : string) : string :=
  let r := rev (list_ascii_of_string p) in
  let component := takeWhile (fun c => negb (is_slash c)) (dropWhile is_slash r) in
  string_of_list_ascii (rev component).

End Path.

(** [Array.prototype.includes] on an array of strings. *)
Definition includes (l : list string) (v : string) : bool :=
existsb (String.eqb v) l.

(** [Math.round(a / b)] for naturals [a] and [b > 0]: the nearest integer,
  a half rounded up. *)
Definition Math_round_div (a b : nat) : nat := (2 * a + b) / (2 * b).

(** A number in a template string. *)
Definition show (n : nat) : string := NilZero.string_of_uint (Nat.to_uint n).


(** ** Data *)

(** A JavaScript error value, identified by its message. *)
Definition error : Type := string.

(** The way a promise settles. *)
Inductive result (A : Type) : Type :=
| Resolved (a : A)
| Rejected (e : error).

Arguments Resolved {A} a.
Arguments Rejected {A} e.

(** An entry of [app.assets.files.queue] or [app.assets.images.queue], with
    the fields the orchestrator reads. *)
Record AssetJob : Type := {
  filePath : string;
  destPath : string
}.

Record ImagesConfig : Type := {
  removeUnused : bool;
  imagesOptions : string
}.

(** [app.config], the options [lib/build.js] consumes. *)
Record Config : Type := {
  projectContext : string;
  outputDir : string;
  imagesDir : string;
  staticDir : string;
  manifestsDir : string;
  emptyOutputDir : bool;
  cacheBusting : bool;
  images : ImagesConfig;
  htmlTemplate : string;
  clientManifestPath : string;
  serverBundlePath : string;
  prefetch : string;
  preload : string
}.

Record App : Type := {
  config : Config
}.

(** What [app.compiler.run()] resolves to. *)
Record Stats : Type := {
  hash : string
}.

Definition html_writer : string := "html-writer".
Definition image_processor : string := "image-processor".

Section Orchestrator.

(** An entry of the render queue; the orchestrator never looks inside. *)
Variable Page : Type.

(** The argument of [worker.render]. *)
Record RenderPayload : Type := {
  render_hash : string;
  render_pages : list Page;
  render_htmlTemplate : string;
  render_clientManifestPath : string;
  render_serverBundlePath : string;
  render_prefetch : string;
  render_preload : string
}.

(** The argument of [worker.process]. *)
Record ProcessPayload : Type := {
  process_queue : list AssetJob;
  process_context : string;
  process_imagesConfig : ImagesConfig
}.

(** The observable steps of a run, in the order they happen. [Settled]
    records that the promise of the [job]-th call made to a worker settled
    (jobs are numbered in dispatch order, from zero). *)
Inductive event : Type :=
| SetEnv (name value : string)
| CreateApp (context args : string)
| PluginsRun (hook : string)
| FsEmptyDir (dir : string)
| CompilerRun
| CreateRenderQueue
| RedirectsCall
| ExecuteQueries (hashString : string)
| CreateWorker (name : string)
| WorkerRender (job : nat) (payload : RenderPayload)
| WorkerProcess (job : nat) (payload : ProcessPayload)
| Settled (worker : string) (job : nat) (outcome : result unit)
| WorkerEnd (worker : string)
| FsCopy (src dest : string) (dereference : bool)
| FsExistsSync (p : string)
| FsReaddir (dir : string)
| FsRemove (p : string)
| WriteLine (line : string)
| Log (line : string)
| Info (line : string)
| LogAllWarnings.

(** ** The collaborators

    Everything [lib/build.js] calls but does not define. A call that returns a
    promise is given by the way that promise settles. [settles_next] is the
    scheduler: of the worker calls in flight (listed in dispatch order) the
    one at position [settles_next inflight mod length inflight] settles
    first. [assets_files] and [assets_images] are the two asset queues as
    they stand when their stage reads them; [executeQueries_oracle] yields the
    render queue as the queries leave it. *)
Record World : Type := {
  createApp_oracle : string -> string -> result App;
  plugins_run : string -> result unit;
  fs_emptyDir : string -> result unit;
  fs_copy : string -> string -> result unit;
  fs_existsSync : string -> bool;
  fs_readdir : string -> result (list string);
  fs_remove : string -> result unit;
  path_join : string -> string -> string;
  stdout_isTTY : bool;
  compiler_run : result Stats;
  createRenderQueue_oracle : result (list Page);
  redirects_call : result (list string);
  executeQueries_oracle : list Page -> string -> result (list Page);
  worker_render : nat -> result unit;
  worker_process : nat -> result unit;
  settles_next : list nat -> nat;
  cpus_logical : nat;
  assets_files : list AssetJob;
  assets_images : list AssetJob;
  timer : string -> string
}.

(** ** Asynchronous computations: a trace and the way the promise settles *)

Definition Async (A : Type) : Type := (list event * result A)%type.

Definition trace {A} (m : Async A) : list event := fst m.
Definition outcome {A} (m : Async A) : result A := snd m.

Definition ret {A} (a : A) : Async A := ([], Resolved a).

(** [await m; k]: the continuation runs only once [m] has resolved. *)
Definition bind {A B} (m : Async A) (k : A -> Async B) : Async B :=
  match outcome m with
  | Resolved a => (trace m ++ trace (k a), outcome (k a))
  | Rejected e => (trace m, Rejected e)
  end.

(** A call with no result of interest that cannot fail. *)
Definition emit (e : event) : Async unit := ([e], Resolved tt).

(** A call to a collaborator. *)
Definition perform {A} (e : event) (r : result A) : Async A := ([e], r).

Notation "x <- m ;; k" := (bind m (fun x => k))
  (at level 61, m at next level, right associativity).
Notation "m ;; k" := (bind m (fun _ => k))
  (at level 61, right associativity).

(** [for (const x of l) { await body(x) }] *)
Fixpoint for_of {A} (l : list A) (body : A -> Async unit) : Async unit :=
  match l with
  | [] => ret tt
  | x :: l' => body x ;; for_of l' body
  end.

(** [if (c) { await m }] *)
Definition when (c : bool) (m : Async unit) : Async unit :=
  if c then m else ret tt.

(** ** The stages *)

Variable w : World.

(** [runWebpack(app)] *)
Definition runWebpack : Async Stats :=
  when (negb (stdout_isTTY w)) (emit (Log "Compiling assets...")) ;;
  stats <- perform CompilerRun (compiler_run w) ;;
  emit (Log ("Compile assets - " ++ timer w "compile" ++ "s")) ;;
  ret stats.

(** The [index]-th element leaves the list of calls in flight. *)
Definition remove_at (index : nat) (l : list nat) : list nat :=
  firstn index l ++ skipn (S index) l.

(** The call in flight that settles next. *)
Definition next_settled (inflight : list nat) : nat * list nat :=
  let index := settles_next w inflight mod length inflight in
  (nth index inflight 0, remove_at index inflight).

(** The calls to [worker.render], made one after the other while
    [chunk(renderQueue, 350).map(...)] runs each callback up to its [await]. *)
Definition dispatch_renders (chunks : list (list Page)) (app : App) (hashString : string)
  : list event :=
  map (fun job_pages : nat * list Page =>
         WorkerRender (fst job_pages)
           {| render_hash := hashString;
              render_pages := snd job_pages;
              render_htmlTemplate := htmlTemplate (config app);
              render_clientManifestPath := clientManifestPath (config app);
              render_serverBundlePath := serverBundlePath (config app);
              render_prefetch := prefetch (config app);
              render_preload := preload (config app) |})
      (combine (seq 0 (length chunks)) chunks).

(** [Promise.all] over the callbacks of [renderHTML]: the calls in flight
    settle in the order the scheduler picks. A callback whose call rejects
    runs its [catch] block, [worker.end(); throw err]; [Promise.all] rejects
    with the first rejection and resolves once every callback has. [rejected]
    is the rejection of [Promise.all] so far. *)
Fixpoint settle_renders (fuel : nat) (inflight : list nat) (rejected : option error)
  : list event * option error :=
  match fuel with
  | 0 => ([], rejected)
  | S fuel' =>
      match inflight with
      | [] => ([], rejected)
      | _ :: _ =>
          let (job, rest) := next_settled inflight in
          match worker_render w job with
          | Resolved _ =>
              let (tr, r) := settle_renders fuel' rest rejected in
              (Settled html_writer job (Resolved tt) :: tr, r)
          | Rejected err =>
              let first := match rejected with Some e => Some e | None => Some err end in
              let (tr, r) := settle_renders fuel' rest first in
              (Settled html_writer job (Rejected err) :: WorkerEnd html_writer :: tr, r)
          end
      end
  end.

Definition promise_all_renders (chunks : list (list Page)) : Async unit :=
  let (tr, r) := settle_renders (length chunks) (seq 0 (length chunks)) None in
  (tr, match r with Some err => Rejected err | None => Resolved tt end).

(** [renderHTML(renderQueue, app, hash)] *)
Definition renderHTML (renderQueue : list Page) (app : App) (hashString : string)
  : Async unit :=
  emit (CreateWorker html_writer) ;;
  let chunks := Lodash.chunk renderQueue 350 in
  (dispatch_renders chunks app hashString, Resolved tt) ;;
  promise_all_renders chunks ;;
  emit (WorkerEnd html_writer) ;;
  emit (Log ("Render HTML (" ++ show (length renderQueue) ++ " files) - "
             ++ timer w "render" ++ "s")).

(** [processFiles(files)] *)
Definition processFiles (files_queue : list AssetJob) : Async unit :=
  let totalFiles := length files_queue in
  for_of files_queue
    (fun file => perform (FsCopy (filePath file) (destPath file) false)
                   (fs_copy w (filePath file) (destPath file))) ;;
  emit (Log ("Process files (" ++ show totalFiles ++ " files) - "
             ++ timer w "files" ++ "s")).

(** The progress line of the image stage. *)
Definition progress_line (totalAssets percent : nat) : string :=
  "Processing images (" ++ show totalAssets ++ " images) - " ++ show percent ++ "%".

Definition process_call (config : Config) (chunks : list (list AssetJob)) (job : nat)
  : event :=
  WorkerProcess job
    {| process_queue := nth job chunks [];
       process_context := projectContext config;
       process_imagesConfig := images config |}.

(** A fan-out whose promise may settle while calls are still in flight:
    what happens until it settles, how it settles, and what the calls
    left in flight still do afterwards. *)
Record Fanout : Type := {
  before : list event;
  settles : result unit;
  after : list event
}.

(** The image callbacks still in flight once [pMap] has rejected: one that
    resolves still writes its progress line, and its call to [next()] returns
    at once ([isRejected]); a further rejection is ignored. *)
Fixpoint stragglers (fuel : nat) (totalAssets totalJobs : nat)
  (inflight : list nat) (progress : nat) : list event :=
  match fuel with
  | 0 => []
  | S fuel' =>
      match inflight with
      | [] => []
      | _ :: _ =>
          let (job, rest) := next_settled inflight in
          match worker_process w job with
          | Resolved _ =>
              Settled image_processor job (Resolved tt)
                :: WriteLine (progress_line totalAssets
                                (Math_round_div (S progress * 100) totalJobs))
                :: stragglers fuel' totalAssets totalJobs rest (S progress)
          | Rejected err =>
              Settled image_processor job (Rejected err)
                :: stragglers fuel' totalAssets totalJobs rest progress
          end
      end
  end.

(** The loop of [pMap] around the callback of [processImages]. [next] is the
    index of the first chunk not yet handed to the callback, [inflight] the
    calls to [worker.process] that have not settled, [progress] the counter of
    the callback. When a call resolves the callback writes the progress line,
    and [next()] starts the following chunk if there is one; when a call
    rejects [pMap] rejects with that error. [pMap] resolves when nothing is
    left in flight. Each pass of the loop settles one call and lets
    everything that reacts to it run before the next call settles;
    [fan_run], further down, runs the same jobs one at a time, in any order
    the microtask queue allows. *)
Fixpoint pMap_loop (fuel : nat) (config : Config) (chunks : list (list AssetJob))
  (totalAssets totalJobs : nat) (next : nat) (inflight : list nat) (progress : nat)
  : Fanout :=
  match fuel with
  | 0 => {| before := []; settles := Resolved tt; after := [] |}
  | S fuel' =>
      match inflight with
      | [] => {| before := []; settles := Resolved tt; after := [] |}
      | _ :: _ =>
          let (job, rest) := next_settled inflight in
          match worker_process w job with
          | Resolved _ =>
              let line := WriteLine (progress_line totalAssets
                                       (Math_round_div (S progress * 100) totalJobs)) in
              let started := if next <? length chunks then [next] else [] in
              let f := pMap_loop fuel' config chunks totalAssets totalJobs
                         (next + length started) (rest ++ started) (S progress) in
              {| before := Settled image_processor job (Resolved tt) :: line
                             :: map (process_call config chunks) started ++ before f;
                 settles := settles f;
                 after := after f |}
          | Rejected err =>
              {| before := [Settled image_processor job (Rejected err)];
                 settles := Rejected err;
                 after := stragglers fuel' totalAssets totalJobs rest progress |}
          end
      end
  end.

(** [pMap(chunks, callback, { concurrency })]: a concurrency below one is
    refused; otherwise the first [concurrency] chunks are started and the
    loop takes over. Every pass of the loop settles one call, so the loop
    makes at most [length chunks] passes. *)
Definition pMap (config : Config) (chunks : list (list AssetJob))
  (totalAssets totalJobs : nat) (concurrency : nat) : Fanout :=
  if concurrency <? 1 then
    {| before := [];
       settles := Rejected "Expected `concurrency` to be a number from 1 and up";
       after := [] |}
  else
    let started := seq 0 (Nat.min concurrency (length chunks)) in
    let f := pMap_loop (length chunks) config chunks totalAssets totalJobs
               (length started) started 0 in
    {| before := map (process_call config chunks) started ++ before f;
       settles := settles f;
       after := after f |}.

(** The last step of [processImages]: remove the images that existed before
    this build started and are not in use. *)
Definition removeUnusedImages (images_queue : list AssetJob) (config : Config)
  (existingImages : list string) : Async unit :=
  if removeUnused (images config) && negb (length existingImages =? 0) then
    let newImages := map (fun c => Path.basename (destPath c)) images_queue in
    let extraImages := filter (fun value => negb (includes newImages value)) existingImages in
    if negb (length extraImages =? 0) then
      for_of extraImages
        (fun filename =>
           perform (FsRemove (path_join w (imagesDir config) filename))
             (fs_remove w (path_join w (imagesDir config) filename))) ;;
      emit (Info ("- Removed " ++ show (length extraImages)
                  ++ " images that where no longer in use"))
    else ret tt
  else ret tt.

(** The line written when the image worker has ended. *)
Definition images_done_line (totalAssets : nat) : string :=
  "Process images (" ++ show totalAssets ++ " images) - "
    ++ timer w "images" ++ "s" ++ String "010"%char "".

(** [processImages(images, config)]. The [try] block is the fan-out; its
    [catch] block ends the worker and throws the error again, while the
    callbacks still in flight run on. *)
Definition processImages (images_queue : list AssetJob) (config : Config) : Async unit :=
  let chunks := Lodash.chunk images_queue 25 in
  emit (CreateWorker image_processor) ;;
  let totalAssets := length images_queue in
  let totalJobs := length chunks in
  existingImages <-
    (if negb (emptyOutputDir config)
     then perform (FsReaddir (imagesDir config)) (fs_readdir w (imagesDir config))
     else ret []) ;;
  emit (WriteLine (progress_line totalAssets 0)) ;;
  (let f := pMap config chunks totalAssets totalJobs (cpus_logical w) in
   match settles f with
   | Resolved _ => (before f ++ after f, Resolved tt)
   | Rejected err => (before f ++ WorkerEnd image_processor :: after f, Rejected err)
   end) ;;
  emit (WorkerEnd image_processor) ;;
  emit (WriteLine (images_done_line totalAssets)) ;;
  removeUnusedImages images_queue config existingImages.

(** ** The pipeline: [module.exports = async (context, args) => ...] *)

Definition build (context args : string) : Async App :=
  emit (SetEnv "NODE_ENV" "production") ;;
  emit (SetEnv "GRIDSOME_MODE" "static") ;;
  app <- perform (CreateApp context args) (createApp_oracle w context args) ;;
  let config := config app in
  perform (PluginsRun "beforeBuild") (plugins_run w "beforeBuild") ;;
  when (emptyOutputDir config)
    (perform (FsEmptyDir (outputDir config)) (fs_emptyDir w (outputDir config))) ;;
  stats <- runWebpack ;;
  let hashString := if cacheBusting config then hash stats else "gridsome" in
  queue <- perform CreateRenderQueue (createRenderQueue_oracle w) ;;
  redirects <- perform RedirectsCall (redirects_call w) ;;
  queue <- perform (ExecuteQueries hashString) (executeQueries_oracle w queue hashString) ;;
  renderHTML queue app hashString ;;
  processFiles (assets_files w) ;;
  processImages (assets_images w) config ;;
  exists_ <- perform (FsExistsSync (staticDir config))
               (Resolved (fs_existsSync w (staticDir config))) ;;
  when exists_
    (perform (FsCopy (staticDir config) (outputDir config) true)
       (fs_copy w (staticDir config) (outputDir config))) ;;
  perform (PluginsRun "afterBuild") (plugins_run w "afterBuild") ;;
  perform (FsRemove (manifestsDir config)) (fs_remove w (manifestsDir config)) ;;
  emit (Log "") ;;
  emit LogAllWarnings ;;
  emit (Log ("  Done in " ++ timer w "build" ++ "s")) ;;
  emit (Log "") ;;
  ret app.

End Orchestrator.

Arguments SetEnv {Page}.
Arguments CreateApp {Page}.
Arguments PluginsRun {Page}.
Arguments FsEmptyDir {Page}.
Arguments CompilerRun {Page}.
Arguments CreateRenderQueue {Page}.
Arguments RedirectsCall {Page}.
Arguments ExecuteQueries {Page}.
Arguments CreateWorker {Page}.
Arguments WorkerRender {Page}.
Arguments WorkerProcess {Page}.
Arguments Settled {Page}.
Arguments WorkerEnd {Page}.
Arguments FsCopy {Page}.
Arguments FsExistsSync {Page}.
Arguments FsReaddir {Page}.
Arguments FsRemove {Page}.
Arguments WriteLine {Page}.
Arguments Log {Page}.
Arguments Info {Page}.
Arguments LogAllWarnings {Page}.
Arguments ret {Page A} a.
Arguments process_call {Page} config chunks job.
Arguments next_settled : simpl never.
Arguments runWebpack : simpl never.
Arguments renderHTML : simpl never.
Arguments processFiles : simpl never.
Arguments processImages : simpl never.
Arguments dispatch_renders : simpl never.
Arguments pMap : simpl never.
Arguments removeUnusedImages : simpl never.
Arguments images_done_line : simpl never.
Arguments Math_round_div : simpl never.
Arguments progress_line : simpl never.
Arguments Lodash.chunk : simpl never.
Arguments emit {Page} e.
Arguments when {Page} c m.

Notation "x <- m ;; k" := (bind m (fun x => k))
  (at level 61, m at next level, right associativity).
Notation "m ;; k" := (bind m (fun _ => k))
  (at level 61, right associativity).

(** ** Vocabulary of the statements *)

(** The same chunks as [Lodash.chunk_loop], computed on what remains of the
    array. *)
Fixpoint chunks_of {A} (fuel : nat) (size : nat) (l : list A) : list (list A) :=
  match fuel with
  | 0 => []
  | S fuel' =>
      match l with
      | [] => []
      | _ :: _ => firstn size l :: chunks_of fuel' size (skipn size l)
      end
  end.

(** [ceil(a / b)] *)
Definition ceil_div (a b : nat) : nat := (a + b - 1) / b.

Definition is_WorkerEnd {Page} (e : event Page) : bool :=
  match e with WorkerEnd _ => true | _ => false end.

Definition is_WorkerRender {Page} (e : event Page) : bool :=
  match e with WorkerRender _ _ => true | _ => false end.

Definition is_WorkerProcess {Page} (e : event Page) : bool :=
  match e with WorkerProcess _ _ => true | _ => false end.

Definition is_FsReaddir {Page} (e : event Page) : bool :=
  match e with FsReaddir _ => true | _ => false end.

Definition is_FsRemove {Page} (e : event Page) : bool :=
  match e with FsRemove _ => true | _ => false end.

Definition is_WriteLine {Page} (e : event Page) : bool :=
  match e with WriteLine _ => true | _ => false end.

(** A worker call that rejects. *)
Definition is_rejection {Page} (e : event Page) : bool :=
  match e with Settled _ _ (Rejected _) => true | _ => false end.

(** A worker call that settles, either way. *)
Definition is_Settled {Page} (e : event Page) : bool :=
  match e with Settled _ _ _ => true | _ => false end.

(** A worker call that resolves. *)
Definition is_completion {Page} (e : event Page) : bool :=
  match e with Settled _ _ (Resolved _) => true | _ => false end.

(** The events of the image fan-out are calls to [worker.process], their
    settlements and progress lines; the calls left in flight after a
    rejection only settle and write. *)
Definition is_fanout_event {Page} (e : event Page) : bool :=
  match e with
  | WorkerProcess _ _ | Settled _ _ _ | WriteLine _ => true
  | _ => false
  end.

Definition is_straggler_event {Page} (e : event Page) : bool :=
  match e with
  | Settled _ _ _ | WriteLine _ => true
  | _ => false
  end.

(** No event of the trace satisfies [p]. *)
Definition none {A} (p : A -> bool) (l : list A) : Prop :=
  Forall (fun x => p x = false) l.

Definition count {A} (p : A -> bool) (l : list A) : nat := length (filter p l).

(** The paths handed to [fs.remove], in order. *)
Fixpoint removed {Page} (tr : list (event Page)) : list string :=
  match tr with
  | [] => []
  | FsRemove p :: tr' => p :: removed tr'
  | _ :: tr' => removed tr'
  end.

(** The [job]-th call to [worker.render] rejects. *)
Definition render_rejects {Page} (w : World Page) (job : nat) : bool :=
  match worker_render w job with Rejected _ => true | Resolved _ => false end.

(** The awaited steps of [build], in the order of the source. *)
Inductive stage : Type :=
| SetUp | BeforeBuild | EmptyOutputDir | Compile | RenderQueue | Queries
| RenderHTML | CopyFiles | ProcessImages | CopyStatic | AfterBuild
| RemoveManifests | Report.

Definition stage_order : list stage :=
  [SetUp; BeforeBuild; EmptyOutputDir; Compile; RenderQueue; Queries;
   RenderHTML; CopyFiles; ProcessImages; CopyStatic; AfterBuild;
   RemoveManifests; Report].

(** A computation run for its effects only. *)
Definition void {Page A} (m : Async Page A) : Async Page unit :=
  (trace m, match outcome m with Resolved _ => Resolved tt | Rejected e => Rejected e end).

(** The value a promise resolves to ([d] stands in for a promise that
    rejects, whose value nothing ever reads). *)
Definition value_or {A} (d : A) (r : result A) : A :=
  match r with Resolved a => a | Rejected _ => d end.

Definition no_config : Config :=
  {| projectContext := ""; outputDir := ""; imagesDir := ""; staticDir := "";
     manifestsDir := ""; emptyOutputDir := false; cacheBusting := false;
     images := {| removeUnused := false; imagesOptions := "" |};
     htmlTemplate := ""; clientManifestPath := ""; serverBundlePath := "";
     prefetch := ""; preload := "" |}.

(** The steps of [build] one by one, each on the values the steps before it
    produce. *)
Definition stages {Page} (w : World Page) (context args : string)
  : list (stage * Async Page unit) :=
  let app := value_or {| config := no_config |} (createApp_oracle w context args) in
  let config := config app in
  let stats := value_or {| hash := "" |} (outcome (runWebpack w)) in
  let hashString := if cacheBusting config then hash stats else "gridsome" in
  let queue := value_or [] (createRenderQueue_oracle w) in
  let queue' := value_or [] (executeQueries_oracle w queue hashString) in
  [ (SetUp, emit (SetEnv "NODE_ENV" "production") ;;
            emit (SetEnv "GRIDSOME_MODE" "static") ;;
            void (perform (CreateApp context args) (createApp_oracle w context args)));
    (BeforeBuild, perform (PluginsRun "beforeBuild") (plugins_run w "beforeBuild"));
    (EmptyOutputDir,
      when (emptyOutputDir config)
        (perform (FsEmptyDir (outputDir config)) (fs_emptyDir w (outputDir config))));
    (Compile, void (runWebpack w));
    (RenderQueue, perform CreateRenderQueue (createRenderQueue_oracle w) ;;
                  void (perform RedirectsCall (redirects_call w)));
    (Queries, void (perform (ExecuteQueries hashString)
                      (executeQueries_oracle w queue hashString)));
    (RenderHTML, renderHTML w queue' app hashString);
    (CopyFiles, processFiles w (assets_files w));
    (ProcessImages, processImages w (assets_images w) config);
    (CopyStatic,
      exists_ <- perform (FsExistsSync (staticDir config))
                   (Resolved (fs_existsSync w (staticDir config))) ;;
      when exists_
        (perform (FsCopy (staticDir config) (outputDir config) true)
           (fs_copy w (staticDir config) (outputDir config))));
    (AfterBuild, perform (PluginsRun "afterBuild") (plugins_run w "afterBuild"));
    (RemoveManifests,
      perform (FsRemove (manifestsDir config)) (fs_remove w (manifestsDir config)));
    (Report, emit (Log "") ;; emit LogAllWarnings ;;
             emit (Log ("  Done in " ++ timer w "build" ++ "s")) ;;
             emit (Log "")) ].

(** The steps run one after the other, each awaited. *)
Fixpoint run_stages {Page} (l : list (stage * Async Page unit)) : Async Page unit :=
  match l with
  | [] => ret tt
  | s :: l' => snd s ;; run_stages l'
  end.

(** A concrete world for the examples: every collaborator succeeds, the
    calls in flight settle in dispatch order, four logical processors. *)
Definition calm_world (pages : list nat) (files images : list AssetJob)
  (existing : list string) (cfg : Config) : World nat :=
  {| createApp_oracle := fun _ _ => Resolved {| config := cfg |};
     plugins_run := fun _ => Resolved tt;
     fs_emptyDir := fun _ => Resolved tt;
     fs_copy := fun _ _ => Resolved tt;
     fs_existsSync := fun _ => true;
     fs_readdir := fun _ => Resolved existing;
     fs_remove := fun _ => Resolved tt;
     path_join := fun dir name => (dir ++ "/" ++ name)%string;
     stdout_isTTY := true;
     compiler_run := Resolved {| hash := "0f3a9c" |};
     createRenderQueue_oracle := Resolved pages;
     redirects_call := Resolved [];
     executeQueries_oracle := fun queue _ => Resolved queue;
     worker_render := fun _ => Resolved tt;
     worker_process := fun _ => Resolved tt;
     settles_next := fun _ => 0;
     cpus_logical := 4;
     assets_files := files;
     assets_images := images;
     timer := fun _ => "0.1" |}.

Definition demo_config (emptyDir busting unused : bool) : Config :=
  {| projectContext := "/site"; outputDir := "/site/dist";
     imagesDir := "/site/dist/assets/static"; staticDir := "/site/static";
     manifestsDir := "/site/dist/assets/manifest"; emptyOutputDir := emptyDir;
     cacheBusting := busting;
     images := {| removeUnused := unused; imagesOptions := "" |};
     htmlTemplate := "/site/src/index.html";
     clientManifestPath := "/site/dist/assets/manifest/client.json";
     serverBundlePath := "/site/dist/assets/manifest/server.json";
     prefetch := ""; preload := "" |}.

Definition image (dest : string) : AssetJob :=
  {| filePath := "/site/src/pic.png"; destPath := dest |}.

(** The same world, except that the worker calls numbered in [failing]
    reject. *)
Definition flaky_world (failing : list nat) (pages : list nat)
  (files images : list AssetJob) (existing : list string) (cfg : Config) : World nat :=
  let calm := calm_world pages files images existing cfg in
  let call (job : nat) : result unit :=
    if existsb (Nat.eqb job) failing then Rejected "worker call failed" else Resolved tt in
  {| createApp_oracle := createApp_oracle calm;
     plugins_run := plugins_run calm;
     fs_emptyDir := fs_emptyDir calm;
     fs_copy := fs_copy calm;
     fs_existsSync := fs_existsSync calm;
     fs_readdir := fs_readdir calm;
     fs_remove := fs_remove calm;
     path_join := path_join calm;
     stdout_isTTY := stdout_isTTY calm;
     compiler_run := compiler_run calm;
     createRenderQueue_oracle := createRenderQueue_oracle calm;
     redirects_call := redirects_call calm;
     executeQueries_oracle := executeQueries_oracle calm;
     worker_render := call;
     worker_process := call;
     settles_next := settles_next calm;
     cpus_logical := cpus_logical calm;
     assets_files := assets_files calm;
     assets_images := assets_images calm;
     timer := timer calm |}.

(** A queue of [n] images. *)
Definition images_queue_of (n : nat) : list AssetJob :=
  map (fun i => image ("/site/dist/assets/static/" ++ show i ++ ".png")) (seq 0 n).

(** The progress line written when the [n]-th call has resolved. *)
Definition progress_after (totalAssets totalJobs n : nat) : string :=
  progress_line totalAssets (Math_round_div (n * 100) totalJobs).

(** In [tr], whenever a worker call resolves, the very next event is the
    progress line of the number of calls resolved so far, [n] of them having
    resolved before [tr]. *)
Definition reports_progress {Page} (totalAssets totalJobs n : nat)
  (tr : list (event Page)) : Prop :=
  forall pre worker job post,
    tr = pre ++ Settled worker job (Resolved tt) :: post ->
    exists post',
      post = WriteLine (progress_after totalAssets totalJobs
                          (S (n + count is_completion pre))) :: post'.

(** ** Vocabulary of the further properties *)

(** The kinds of events each stage can produce. *)
Definition is_webpack_event {Page} (e : event Page) : bool :=
  match e with CompilerRun | Log _ => true | _ => false end.

Definition is_render_event {Page} (e : event Page) : bool :=
  match e with
  | CreateWorker _ | WorkerRender _ _ | Settled _ _ _ | WorkerEnd _ | Log _ => true
  | _ => false
  end.

Definition is_files_event {Page} (e : event Page) : bool :=
  match e with FsCopy _ _ _ | Log _ => true | _ => false end.

Definition is_images_event {Page} (e : event Page) : bool :=
  match e with
  | CreateWorker _ | FsReaddir _ | WriteLine _ | WorkerProcess _ _ | Settled _ _ _
  | WorkerEnd _ | FsRemove _ | Info _ => true
  | _ => false
  end.

(** The call [processFiles] makes for one entry of the queue. *)
Definition copy_call {Page} (file : AssetJob) : event Page :=
  FsCopy (filePath file) (destPath file) false.

(** The line [renderHTML] logs at the end. *)
Definition render_done_line {Page} (w : World Page) (total : nat) : string :=
  "Render HTML (" ++ show total ++ " files) - " ++ timer w "render" ++ "s".

(** The line [processFiles] logs at the end. *)
Definition files_done_line {Page} (w : World Page) (total : nat) : string :=
  "Process files (" ++ show total ++ " files) - " ++ timer w "files" ++ "s".

(** The line the removal of unused images reports with. *)
Definition removed_line (n : nat) : string :=
  "- Removed " ++ show n ++ " images that where no longer in use".

(** The names the queue writes, and the pre-existing names it does not. *)
Definition newImages_of (queue : list AssetJob) : list string :=
  map (fun c => Path.basename (destPath c)) queue.

Definition extraImages_of (queue : list AssetJob) (existing : list string) : list string :=
  filter (fun value => negb (includes (newImages_of queue) value)) existing.

(** A file name: not empty, no separator in it. *)
Definition is_file_name (name : string) : bool :=
  negb (String.eqb name "")
  && forallb (fun c => negb (Path.is_slash c)) (list_ascii_of_string name).

(** At every point of [tr] the worker calls made and not yet settled are at
    most [limit], [made] calls having been made and [settled] of them having
    settled before [tr]. *)
Definition in_flight_bounded {Page} (made settled limit : nat)
  (tr : list (event Page)) : Prop :=
  forall pre post,
    tr = pre ++ post ->
    made + count is_WorkerProcess pre <= settled + count is_Settled pre + limit.

(** A world in which the copy of one source file rejects. *)
Definition broken_copy_world (broken : string) (files : list AssetJob) : World nat :=
  let calm := calm_world [] files [] [] (demo_config false true true) in
  {| createApp_oracle := createApp_oracle calm;
     plugins_run := plugins_run calm;
     fs_emptyDir := fs_emptyDir calm;
     fs_copy := fun src _ =>
       if String.eqb src broken then Rejected "ENOENT" else Resolved tt;
     fs_existsSync := fs_existsSync calm;
     fs_readdir := fs_readdir calm;
     fs_remove := fs_remove calm;
     path_join := path_join calm;
     stdout_isTTY := stdout_isTTY calm;
     compiler_run := compiler_run calm;
     createRenderQueue_oracle := createRenderQueue_oracle calm;
     redirects_call := redirects_call calm;
     executeQueries_oracle := executeQueries_oracle calm;
     worker_render := worker_render calm;
     worker_process := worker_process calm;
     settles_next := settles_next calm;
     cpus_logical := cpus_logical calm;
     assets_files := files;
     assets_images := assets_images calm;
     timer := timer calm |}.

Definition file (src dest : string) : AssetJob :=
  {| filePath := src; destPath := dest |}.

(** A world in which the removal of one path rejects. *)
Definition broken_remove_world (broken : string) (images : list AssetJob)
  (existing : list string) (cfg : Config) : World nat :=
  let calm := calm_world [] [] images existing cfg in
  {| createApp_oracle := createApp_oracle calm;
     plugins_run := plugins_run calm;
     fs_emptyDir := fs_emptyDir calm;
     fs_copy := fs_copy calm;
     fs_existsSync := fs_existsSync calm;
     fs_readdir := fs_readdir calm;
     fs_remove := fun p =>
       if String.eqb p broken then Rejected "EACCES" else Resolved tt;
     path_join := path_join calm;
     stdout_isTTY := stdout_isTTY calm;
     compiler_run := compiler_run calm;
     createRenderQueue_oracle := createRenderQueue_oracle calm;
     redirects_call := redirects_call calm;
     executeQueries_oracle := executeQueries_oracle calm;
     worker_render := worker_render calm;
     worker_process := worker_process calm;
     settles_next := settles_next calm;
     cpus_logical := cpus_logical calm;
     assets_files := assets_files calm;
     assets_images := images;
     timer := timer calm |}.

Definition is_CompilerRun {Page} (e : event Page) : bool :=
  match e with CompilerRun => true | _ => false end.

(** The hash [build] settles on, for an app and what the compiler resolved
    to. *)
Definition hashString_of (app : App) (stats : Stats) : string :=
  if cacheBusting (config app) then hash stats else "gridsome".

(** ** The image fan-out at the grain of the microtask queue

    [pMap_loop] lets everything that reacts to a settled call run before the
    next call settles. The engine promises less. When a call to
    [worker.process] settles, the callback of [processImages] resumes: it
    writes its progress line, or throws. The handler [pMap] attached to the
    promise of the callback runs some microtasks later; the chunk its
    [next()] takes reaches the callback, and so [worker.process], yet a
    microtask later; and the [catch] block of [processImages] runs a
    microtask after [pMap] has rejected. Calls that settle close together
    resume before any of this has run. The definitions below keep the four
    kinds of job apart and let a schedule choose, step by step, which one
    runs next. *)

Section Microtasks.
Variable Page : Type.
Variable w : World Page.

(** What can run next:
    - [Resume]: a call in flight settles (the scheduler of the world picks
      it) and its callback resumes after [await worker.process(...)];
    - [React]: the handler of [pMap] runs for the oldest settled callback,
      value handler [resolvingCount--; next()] or error handler
      [isRejected = true; reject(error)];
    - [Start]: the oldest chunk taken by [next()] is given to the callback,
      which calls [worker.process];
    - [Catch]: the [catch] block of [processImages], [worker.end(); throw err]. *)
Inductive move : Type := Resume | React | Start | Catch.

(** The state of the fan-out. [fan_index] is [currentIndex] of [pMap], the
    first chunk [next()] has not taken; [fan_due] the chunks taken and not
    yet given to the callback; [fan_inflight] the calls that have not
    settled; [fan_settled] how the callbacks settled whose handler has not
    run, oldest first; [fan_progress] the counter of the callback;
    [fan_rejected] is [isRejected], with the error [pMap] rejected with;
    [fan_catch] tells that [pMap] has rejected and the [catch] block has not
    run yet. *)
Record Fan : Type := {
  fan_index : nat;
  fan_due : list nat;
  fan_inflight : list nat;
  fan_settled : list (result unit);
  fan_progress : nat;
  fan_rejected : option error;
  fan_catch : bool
}.

Definition is_empty {A} (l : list A) : bool :=
  match l with [] => true | _ :: _ => false end.

(** A kind of job can run when one is pending. The handlers run in the
    order the callbacks settled, and the chunks reach the callback in the
    order [next()] took them. The [catch] block waits for the chunks
    [next()] took before [pMap] rejected: their jobs were queued before its
    own. *)
Definition enabled (st : Fan) (m : move) : bool :=
  match m with
  | Resume => negb (is_empty (fan_inflight st))
  | React => negb (is_empty (fan_settled st))
  | Start => negb (is_empty (fan_due st))
  | Catch => fan_catch st && is_empty (fan_due st)
  end.

(** The schedule [ticks] names the kind of job that runs at each step; when
    no job of that kind is pending, the first kind that has one is taken, in
    the order [Start], [React], [Catch], [Resume]. *)
Definition choose (ticks : nat -> move) (n : nat) (st : Fan) : option move :=
  if enabled st (ticks n) then Some (ticks n)
  else find (enabled st) [Start; React; Catch; Resume].

Section Step.
Variable config : Config.
Variable chunks : list (list AssetJob).
Variables totalAssets totalJobs : nat.

(** The callback resumes: [writeLine(... ++progress ...)] when the call
    resolved, the error thrown on when it rejected. *)
Definition resume (st : Fan) : list (event Page) * Fan :=
  let (job, rest) := next_settled w (fan_inflight st) in
  match worker_process w job with
  | Resolved _ =>
      ([Settled image_processor job (Resolved tt);
        WriteLine (progress_line totalAssets
                     (Math_round_div (S (fan_progress st) * 100) totalJobs))],
       {| fan_index := fan_index st;
          fan_due := fan_due st;
          fan_inflight := rest;
          fan_settled := fan_settled st ++ [Resolved tt];
          fan_progress := S (fan_progress st);
          fan_rejected := fan_rejected st;
          fan_catch := fan_catch st |})
  | Rejected err =>
      ([Settled image_processor job (Rejected err)],
       {| fan_index := fan_index st;
          fan_due := fan_due st;
          fan_inflight := rest;
          fan_settled := fan_settled st ++ [Rejected err];
          fan_progress := fan_progress st;
          fan_rejected := fan_rejected st;
          fan_catch := fan_catch st |})
  end.

(** The handler of [pMap]. [next()] returns at once when [isRejected] is
    set, and takes a chunk when one is left; the first rejection rejects
    [pMap], a later one finds it rejected already. *)
Definition react (st : Fan) : list (event Page) * Fan :=
  match fan_settled st with
  | [] => ([], st)
  | Resolved _ :: later =>
      match fan_rejected st with
      | None =>
          if fan_index st <? length chunks then
            ([], {| fan_index := S (fan_index st);
                    fan_due := fan_due st ++ [fan_index st];
                    fan_inflight := fan_inflight st;
                    fan_settled := later;
                    fan_progress := fan_progress st;
                    fan_rejected := None;
                    fan_catch := fan_catch st |})
          else
            ([], {| fan_index := fan_index st;
                    fan_due := fan_due st;
                    fan_inflight := fan_inflight st;
                    fan_settled := later;
                    fan_progress := fan_progress st;
                    fan_rejected := None;
                    fan_catch := fan_catch st |})
      | Some first =>
          ([], {| fan_index := fan_index st;
                  fan_due := fan_due st;
                  fan_inflight := fan_inflight st;
                  fan_settled := later;
                  fan_progress := fan_progress st;
                  fan_rejected := Some first;
                  fan_catch := fan_catch st |})
      end
  | Rejected err :: later =>
      match fan_rejected st with
      | None =>
          ([], {| fan_index := fan_index st;
                  fan_due := fan_due st;
                  fan_inflight := fan_inflight st;
                  fan_settled := later;
                  fan_progress := fan_progress st;
                  fan_rejected := Some err;
                  fan_catch := true |})
      | Some first =>
          ([], {| fan_index := fan_index st;
                  fan_due := fan_due st;
                  fan_inflight := fan_inflight st;
                  fan_settled := later;
                  fan_progress := fan_progress st;
                  fan_rejected := Some first;
                  fan_catch := fan_catch st |})
      end
  end.

(** The callback is called with a chunk and calls [worker.process]. *)
Definition start (st : Fan) : list (event Page) * Fan :=
  match fan_due st with
  | [] => ([], st)
  | job :: later =>
      ([process_call config chunks job],
       {| fan_index := fan_index st;
          fan_due := later;
          fan_inflight := fan_inflight st ++ [job];
          fan_settled := fan_settled st;
          fan_progress := fan_progress st;
          fan_rejected := fan_rejected st;
          fan_catch := fan_catch st |})
  end.

(** [catch (err) { worker.end(); throw err }] *)
Definition catch (st : Fan) : list (event Page) * Fan :=
  ([WorkerEnd image_processor],
   {| fan_index := fan_index st;
      fan_due := fan_due st;
      fan_inflight := fan_inflight st;
      fan_settled := fan_settled st;
      fan_progress := fan_progress st;
      fan_rejected := fan_rejected st;
      fan_catch := false |}).

Definition fan_step (st : Fan) (m : move) : list (event Page) * Fan :=
  match m with
  | Resume => resume st
  | React => react st
  | Start => start st
  | Catch => catch st
  end.

(** The fan-out runs until no job is left; [n] counts the steps taken. *)
Fixpoint fan_run (ticks : nat -> move) (fuel n : nat) (st : Fan)
  : list (event Page) * Fan :=
  match fuel with
  | 0 => ([], st)
  | S fuel' =>
      match choose ticks n st with
      | None => ([], st)
      | Some m =>
          let (ev, st1) := fan_step st m in
          let (tr, st2) := fan_run ticks fuel' (S n) st1 in
          (ev ++ tr, st2)
      end
  end.

(** Every step uses up some of this, and [5 * length chunks] of it is there
    at the start. *)
Definition fan_measure (st : Fan) : nat :=
  5 * (length chunks - fan_index st) + 4 * length (fan_due st)
  + 3 * length (fan_inflight st) + 2 * length (fan_settled st)
  + Nat.b2n (fan_catch st).

(** The fan-out when the calls for the first chunks have been made. *)
Definition fan_first (started : list nat) : Fan :=
  {| fan_index := length started;
     fan_due := [];
     fan_inflight := started;
     fan_settled := [];
     fan_progress := 0;
     fan_rejected := None;
     fan_catch := false |}.

(** The [try] statement of [processImages]: [pMap] refuses a concurrency
    below one; otherwise it takes the first [concurrency] chunks, which
    reach the callback one after the other before any call can settle, and
    the jobs run as the schedule has it. The statement resolves when [pMap]
    does, with nothing left to run, and rejects, the worker ended, with the
    error [pMap] rejected with. *)
Definition try_pMap (ticks : nat -> move) (concurrency : nat) : Async Page unit :=
  if concurrency <? 1 then
    ([WorkerEnd image_processor],
     Rejected "Expected `concurrency` to be a number from 1 and up")
  else
    let started := seq 0 (Nat.min concurrency (length chunks)) in
    let (tr, st) := fan_run ticks (5 * length chunks) 0 (fan_first started) in
    (map (process_call config chunks) started ++ tr,
     match fan_rejected st with
     | Some err => Rejected err
     | None => Resolved tt
     end).

End Step.

(** [processImages(images, config)], its fan-out run by the schedule
    [ticks]. *)
Definition processImages_ticks (ticks : nat -> move) (images_queue : list AssetJob)
  (config : Config) : Async Page unit :=
  let chunks := Lodash.chunk images_queue 25 in
  emit (CreateWorker image_processor) ;;
  let totalAssets := length images_queue in
  let totalJobs := length chunks in
  existingImages <-
    (if negb (emptyOutputDir config)
     then perform (FsReaddir (imagesDir config)) (fs_readdir w (imagesDir config))
     else ret []) ;;
  emit (WriteLine (progress_line totalAssets 0)) ;;
  try_pMap config chunks totalAssets totalJobs ticks (cpus_logical w) ;;
  emit (WorkerEnd image_processor) ;;
  emit (WriteLine (images_done_line w totalAssets)) ;;
  removeUnusedImages w images_queue config existingImages.

End Microtasks.

Arguments resume : simpl never.
Arguments processImages_ticks : simpl never.

(** Every reaction runs before the next call settles: the schedule
    [pMap_loop] follows. *)
Definition promptly : nat -> move := fun _ => Start.

(** The first two calls settle before anything reacts to either; from then
    on every reaction runs as soon as it can. *)
Definition two_at_once : nat -> move :=
  fun n => match n with 0 | 1 => Resume | 2 | 3 => React | _ => Start end.

(** A world in which the call for the first chunk rejects, and of the calls
    in flight the second settles first. *)
Definition second_first_world (images : list AssetJob) (cfg : Config) : World nat :=
  let flaky := flaky_world [0] [] [] images [] cfg in
  {| createApp_oracle := createApp_oracle flaky;
     plugins_run := plugins_run flaky;
     fs_emptyDir := fs_emptyDir flaky;
     fs_copy := fs_copy flaky;
     fs_existsSync := fs_existsSync flaky;
     fs_readdir := fs_readdir flaky;
     fs_remove := fs_remove flaky;
     path_join := path_join flaky;
     stdout_isTTY := stdout_isTTY flaky;
     compiler_run := compiler_run flaky;
     createRenderQueue_oracle := createRenderQueue_oracle flaky;
     redirects_call := redirects_call flaky;
     executeQueries_oracle := executeQueries_oracle flaky;
     worker_render := worker_render flaky;
     worker_process := worker_process flaky;
     settles_next := fun _ => 1;
     cpus_logical := 2;
     assets_files := assets_files flaky;
     assets_images := images;
     timer := timer flaky |}.

Arguments react {Page} chunks st.
Arguments start {Page} config chunks st.
Arguments catch {Page} st.

(** The stages a failing fan-out goes through. While all is well no callback
    has thrown; then a rejection waits for its handler, the callbacks that
    resolved before it ([oks]) being served first; then [pMap] has rejected
    with [err] and the [catch] block is due; then the [catch] block has run. *)
Definition all_well (st : Fan) : Prop :=
  fan_rejected st = None /\ fan_catch st = false /\
  Forall (fun r => r = Resolved tt) (fan_settled st).

Definition rejection_pending (err : error) (oks later : list (result unit)) (st : Fan)
  : Prop :=
  fan_rejected st = None /\ fan_catch st = false /\
  fan_settled st = oks ++ Rejected err :: later /\
  Forall (fun r => r = Resolved tt) oks.

Definition catch_due (err : error) (st : Fan) : Prop :=
  fan_rejected st = Some err /\ fan_catch st = true.

Definition after_catch (st : Fan) : Prop :=
  fan_rejected st <> None /\ fan_catch st = false /\ fan_due st = [].

(** * Properties *)

(** ** Chunking *)

Section Chunk.
Import Lodash.
Context {A : Type}.

Lemma chunk_loop_chunks_of (array : list A) size :
  forall fuel index,
    chunk_loop fuel array size index = chunks_of fuel size (skipn index array).
Proof.
  induction fuel as [|fuel IH]; intros index; simpl; [reflexivity|].
  destruct (Nat.ltb_spec index (length array)) as [Hlt|Hge].
  - assert (Hne : skipn index array <> []).
    { intros E. apply (f_equal (@length A)) in E.
      rewrite length_skipn in E. simpl in E. lia. }
    destruct (skipn index array) as [|x rest] eqn:E; [congruence|].
    rewrite <- E. unfold baseSlice.
    replace (index + size - index) with size by lia.
    rewrite IH. f_equal. f_equal.
    rewrite skipn_skipn. f_equal. lia.
  - rewrite skipn_all2 by lia. reflexivity.
Qed.

Lemma chunks_of_concat size (Hs : 1 <= size) :
  forall fuel (l : list A), length l <= fuel -> concat (chunks_of fuel size l) = l.
Proof.
  induction fuel as [|fuel IH]; intros l Hl.
  - destruct l; simpl in *; [reflexivity|lia].
  - destruct l as [|x l']; [reflexivity|].
    cbn [chunks_of concat].
    rewrite IH.
    + apply firstn_skipn.
    + rewrite length_skipn. cbn [length] in *. lia.
Qed.

Lemma chunks_of_length size (Hs : 1 <= size) :
  forall fuel (l : list A), length l <= fuel ->
    length (chunks_of fuel size l) = (length l + size - 1) / size.
Proof.
  induction fuel as [|fuel IH]; intros l Hl.
  - destruct l; simpl in *; [|lia].
    symmetry. apply Nat.div_small. lia.
  - destruct l as [|x l']; [simpl; symmetry; apply Nat.div_small; lia|].
    set (l := x :: l') in *.
    assert (HL : 1 <= length l) by (subst l; simpl; lia).
    cbn [chunks_of]. subst l. cbn iota. set (l := x :: l') in *.
    change (length (?c :: ?r)) with (S (length r)).
    rewrite IH by (rewrite length_skipn; lia).
    rewrite length_skipn.
    set (L := length l) in *.
    destruct (Nat.le_gt_cases L size) as [Hle|Hgt].
    + replace (L - size) with 0 by lia.
      replace (0 + size - 1) with (size - 1) by lia.
      rewrite Nat.div_small by lia.
      replace (L + size - 1) with ((L - 1) + 1 * size) by lia.
      rewrite Nat.div_add by lia.
      rewrite Nat.div_small by lia. reflexivity.
    + replace (L + size - 1) with ((L - size + size - 1) + 1 * size) by lia.
      rewrite Nat.div_add by lia. lia.
Qed.

(** Every chunk but the last has the fixed size; the last one holds what
    is left: [length l mod size] items, or [size] when that is zero. *)
Lemma chunks_of_sizes size (Hs : 1 <= size) :
  forall fuel (l : list A), length l <= fuel ->
    forall i c, nth_error (chunks_of fuel size l) i = Some c ->
      length c =
        if S i <? length (chunks_of fuel size l) then size
        else if length l mod size =? 0 then size else length l mod size.
Proof.
  induction fuel as [|fuel IH]; intros l Hl i c Hi.
  - destruct i; discriminate.
  - destruct l as [|x l']; [destruct i; discriminate|].
    cbn [chunks_of] in *.
    set (l := x :: l') in *.
    assert (HL : 1 <= length l) by (subst l; simpl; lia).
    assert (Hrest : length (skipn size l) <= fuel)
      by (rewrite length_skipn; subst l; cbn [length] in *; lia).
    destruct i as [|i]; simpl in Hi.
    + injection Hi as <-. rewrite length_firstn.
      cbn [length].
      destruct (Nat.ltb_spec 1 (S (length (chunks_of fuel size (skipn size l)))))
        as [Hmore|Hlast].
      * assert (Hne : skipn size l <> []).
        { intros E. rewrite E in Hmore. destruct fuel; simpl in Hmore; lia. }
        assert (size < length l).
        { destruct (Nat.le_gt_cases (length l) size) as [Hle|]; [|assumption].
          exfalso. apply Hne. apply skipn_all2. assumption. }
        lia.
      * assert (Hnil : length (skipn size l) = 0).
        { destruct fuel; [simpl in Hrest; lia|].
          destruct (skipn size l); [reflexivity|simpl in Hlast; lia]. }
        rewrite length_skipn in Hnil.
        destruct (Nat.eq_dec (length l) size) as [E|NE].
        -- rewrite E, Nat.Div0.mod_same, Nat.eqb_refl. lia.
        -- rewrite Nat.mod_small by lia.
           destruct (Nat.eqb_spec (length l) 0); lia.
    + specialize (IH _ Hrest _ _ Hi). rewrite IH.
      cbn [length].
      change (S (S i) <? S ?n) with (S i <? n).
      destruct (S i <? length (chunks_of fuel size (skipn size l))); [reflexivity|].
      rewrite length_skipn.
      assert (Hlt : size < length l).
      { destruct (Nat.le_gt_cases (length l) size) as [Hle|]; [|assumption].
        exfalso. rewrite skipn_all2 in Hi by assumption.
        destruct fuel; destruct i; discriminate. }
      assert (E : length l mod size = (length l - size) mod size).
      { replace (length l) with ((length l - size) + 1 * size) at 1 by lia.
        apply Nat.Div0.mod_add. }
      rewrite E. reflexivity.
Qed.


Lemma chunk_chunks_of (array : list A) size :
  1 <= size -> chunk array size = chunks_of (length array) size array.
Proof.
  intros Hs. unfold chunk.
  destruct (Nat.eqb_spec (length array) 0) as [E|NE]; simpl.
  - rewrite E. reflexivity.
  - destruct (Nat.ltb_spec size 1); [lia|].
    rewrite chunk_loop_chunks_of. reflexivity.
Qed.

(** What [chunk] does for any size of one and up. *)
Lemma chunk_spec (array : list A) size :
  1 <= size ->
  length (chunk array size) = ceil_div (length array) size /\
  concat (chunk array size) = array /\
  forall i c, nth_error (chunk array size) i = Some c ->
    length c =
      if S i <? ceil_div (length array) size then size
      else if length array mod size =? 0 then size else length array mod size.
Proof.
  intros Hs. rewrite chunk_chunks_of by assumption.
  assert (Hlen : length (chunks_of (length array) size array)
                 = (length array + size - 1) / size)
    by (apply chunks_of_length; [assumption|apply le_n]).
  repeat split.
  - exact Hlen.
  - apply chunks_of_concat; [assumption|apply le_n].
  - intros i c Hi. unfold ceil_div. rewrite <- Hlen.
    apply chunks_of_sizes; [assumption|apply le_n|assumption].
Qed.

End Chunk.

Lemma map_snd_combine_seq {A} (l : list A) :
  forall start, map snd (combine (seq start (length l)) l) = l.
Proof.
  induction l as [|x l IH]; intros start; [reflexivity|].
  cbn [length seq combine map snd]. f_equal. apply IH.
Qed.

(** The calls of the render stage carry the chunks, in order, so that the
    pages they carry, taken together, are the render queue. *)
Lemma dispatch_renders_pages {Page} (renderQueue : list Page) app hashString :
  let pages_of (e : event Page) :=
    match e with WorkerRender _ payload => render_pages payload | _ => [] end in
  let calls := dispatch_renders (Lodash.chunk renderQueue 350) app hashString in
  map pages_of calls = Lodash.chunk renderQueue 350 /\
  concat (map pages_of calls) = renderQueue.
Proof.
  intros pages_of calls.
  assert (H : map pages_of calls = Lodash.chunk renderQueue 350).
  { subst calls. unfold dispatch_renders. rewrite map_map.
    apply map_snd_combine_seq. }
  split; [exact H|]. rewrite H. apply chunk_spec. lia.
Qed.

(** [Math_round_div a b] is the integer nearest to [a / b], the upper one of
    two that are equally near. *)
Lemma Math_round_div_nearest a b :
  0 < b ->
  2 * b * Math_round_div a b <= 2 * a + b < 2 * b * Math_round_div a b + 2 * b.
Proof.
  intros Hb. unfold Math_round_div.
  pose proof (Nat.div_mod_eq (2 * a + b) (2 * b)) as E.
  pose proof (Nat.mod_upper_bound (2 * a + b) (2 * b)) as Hlt.
  lia.
Qed.

(** C2. Chunking a queue of length [L] by 350 (render stage) or by 25 (image
    stage) gives [ceil(L / size)] chunks; every chunk has the fixed size but
    possibly the last, which has [L mod size] items when that is not zero
    and the fixed size otherwise; the chunks concatenated in order are the
    queue. *)
Theorem chunk_partitions_queue :
  forall (A : Type) (queue : list A) (size : nat),
    In size [350; 25] ->
    length (Lodash.chunk queue size) = ceil_div (length queue) size /\
    concat (Lodash.chunk queue size) = queue /\
    forall i c, nth_error (Lodash.chunk queue size) i = Some c ->
      length c =
        if S i <? ceil_div (length queue) size then size
        else if length queue mod size =? 0 then size else length queue mod size.
Proof.
  intros A queue size Hsize. apply chunk_spec.
  simpl in Hsize. destruct Hsize as [<-|[<-|[]]]; lia.
Qed.

Lemma chunk_partitions_queue_witness :
  length (Lodash.chunk (seq 0 720) 350) = 3 /\
  concat (Lodash.chunk (seq 0 720) 350) = seq 0 720 /\
  (forall c, nth_error (Lodash.chunk (seq 0 720) 350) 2 = Some c -> length c = 20).
Proof.
  pose proof (@chunk_partitions_queue nat (seq 0 720) 350 (or_introl eq_refl))
    as [Hlen [Hcat Hsizes]].
  split; [|split].
  - rewrite Hlen. vm_compute. reflexivity.
  - exact Hcat.
  - intros c Hc. rewrite (Hsizes 2 c Hc). vm_compute. reflexivity.
Defined.

(** ** Traces *)

Section Traces.
Context {Page : Type}.
Implicit Types (tr : list (event Page)) (w : World Page).

Lemma trace_bind {A B} (m : Async Page A) (k : A -> Async Page B) :
  trace (bind m k) =
    match outcome m with
    | Resolved a => trace m ++ trace (k a)
    | Rejected _ => trace m
    end.
Proof. unfold bind. destruct (outcome m); reflexivity. Qed.

Lemma outcome_bind {A B} (m : Async Page A) (k : A -> Async Page B) :
  outcome (bind m k) =
    match outcome m with
    | Resolved a => outcome (k a)
    | Rejected e => Rejected e
    end.
Proof. unfold bind. destruct (outcome m); reflexivity. Qed.

Lemma removed_app tr1 tr2 : removed (tr1 ++ tr2) = removed tr1 ++ removed tr2.
Proof.
  induction tr1 as [|e tr1 IH]; [reflexivity|].
  destruct e; simpl; rewrite IH; reflexivity.
Qed.

Lemma in_removed tr p : In (FsRemove p) tr <-> In p (removed tr).
Proof.
  induction tr as [|e tr IH]; [simpl; tauto|].
  destruct e; simpl; rewrite <- IH;
    try (split; [intros [H|H]; [discriminate|exact H] | intros H; right; exact H]).
  split; (intros [H|H]; [left; congruence | right; exact H]).
Qed.

Lemma count_app {A} (p : A -> bool) (l1 l2 : list A) :
  count p (l1 ++ l2) = count p l1 + count p l2.
Proof. unfold count. rewrite filter_app, length_app. reflexivity. Qed.

(** A loop of calls, each awaited: the calls made are an initial segment of
    the list; all of them are made when the loop resolves, and the loop
    resolves when all of them do. *)
Lemma for_of_perform {A} (l : list A) (call : A -> event Page) (r : A -> result unit) :
  let run := for_of l (fun x => perform (call x) (r x)) in
  (exists k, trace run = map call (firstn k l)) /\
  (outcome run = Resolved tt -> trace run = map call l) /\
  ((forall x, In x l -> r x = Resolved tt) -> outcome run = Resolved tt).
Proof.
  induction l as [|x l IH]; simpl.
  - repeat split; try reflexivity. exists 0. reflexivity.
  - destruct IH as [[k Hk] [Hall Hres]].
    unfold bind, perform at 1 3 5. simpl.
    destruct (r x) as [[]|e] eqn:Ex; simpl.
    + repeat split.
      * exists (S k). simpl. f_equal. exact Hk.
      * intros H. f_equal. apply Hall. exact H.
      * intros H. apply Hres. intros y Hy. apply H. right. exact Hy.
    + repeat split.
      * exists 1. reflexivity.
      * discriminate.
      * intros H. specialize (H x (or_introl eq_refl)). congruence.
Qed.

Lemma removed_map_FsRemove (paths : list string) :
  removed (map (@FsRemove Page) paths) = paths.
Proof. induction paths as [|p l IH]; simpl; [reflexivity|f_equal; exact IH]. Qed.

Lemma firstn_In_incl {A} (l : list A) k x : In x (firstn k l) -> In x l.
Proof.
  intros H. rewrite <- (firstn_skipn k l). apply in_or_app. left. exact H.
Qed.

Lemma includes_In (l : list string) v : includes l v = true <-> In v l.
Proof.
  unfold includes. rewrite existsb_exists. split.
  - intros [x [Hx E]]. apply String.eqb_eq in E. subst. exact Hx.
  - intros H. exists v. split; [exact H|apply String.eqb_refl].
Qed.

(** ** Removal of the unused images *)

(** The step as a whole, once it is enabled and there is something to
    compare with. *)
Lemma removeUnusedImages_spec w queue config existing :
  removeUnused (images config) = true -> existing <> [] ->
  let dir := imagesDir config in
  let newImages := map (fun c => Path.basename (destPath c)) queue in
  let extraImages := filter (fun v => negb (includes newImages v)) existing in
  let run := removeUnusedImages w queue config existing in
  (exists k, removed (trace run) = map (path_join w dir) (firstn k extraImages)) /\
  (outcome run = Resolved tt -> removed (trace run) = map (path_join w dir) extraImages) /\
  ((forall f, In f extraImages -> fs_remove w (path_join w dir f) = Resolved tt) ->
   outcome run = Resolved tt).
Proof.
  intros Hunused Hexisting dir newImages extraImages run.
  subst run. unfold removeUnusedImages. rewrite Hunused.
  destruct existing as [|x0 existing']; [congruence|].
  set (existing := x0 :: existing') in *.
  change (true && negb (length existing =? 0)) with true. cbv iota.
  fold newImages. fold extraImages. fold dir.
  destruct extraImages as [|f0 extra'] eqn:Eextra.
  - simpl. repeat split; try reflexivity. exists 0. reflexivity.
  - change (negb (length (f0 :: extra') =? 0)) with true. cbv iota.
    rewrite <- Eextra.
    destruct (for_of_perform extraImages
                (fun f => @FsRemove Page (path_join w dir f))
                (fun f => fs_remove w (path_join w dir f))) as [[k Hk] [Hall Hres]].
    set (loop := for_of extraImages _) in *.
    rewrite trace_bind, outcome_bind.
    destruct (outcome loop) as [[]|e] eqn:Eloop.
    + rewrite removed_app. simpl. rewrite app_nil_r.
      rewrite (Hall eq_refl), <- map_map, removed_map_FsRemove.
      repeat split; try reflexivity.
      exists (length extraImages). rewrite firstn_all. reflexivity.
    + repeat split.
      * exists k. rewrite Hk, <- map_map, removed_map_FsRemove. reflexivity.
      * discriminate.
      * intros H. specialize (Hres H). congruence.
Qed.

End Traces.

(** C1. When the reconciliation runs (removal enabled, something existed
    before the build), the names it classifies as extra are exactly the
    pre-existing names that are the base name of no destination path in the
    image queue; every path handed to [fs.remove] is one of those, so a file
    whose name is the base name of a queued destination is never removed;
    and when the step resolves, the paths removed are exactly the extra
    names, each joined to the images directory. *)
Theorem reconciliation_removes_exactly_the_unused :
  forall (Page : Type) (w : World Page) (queue : list AssetJob) (config : Config)
         (existing : list string),
    removeUnused (images config) = true ->
    existing <> [] ->
    let dir := imagesDir config in
    let newImages := map (fun c => Path.basename (destPath c)) queue in
    let extraImages := filter (fun v => negb (includes newImages v)) existing in
    let run := removeUnusedImages w queue config existing in
    (forall f, In f extraImages <-> In f existing /\ ~ In f newImages) /\
    (forall p, In (FsRemove p) (trace run) ->
       exists f, p = path_join w dir f /\ In f existing /\ ~ In f newImages) /\
    (outcome run = Resolved tt ->
       removed (trace run) = map (path_join w dir) extraImages) /\
    ((forall f, In f extraImages -> fs_remove w (path_join w dir f) = Resolved tt) ->
       outcome run = Resolved tt).
Proof.
  intros Page0 w queue config existing Hunused Hexisting dir newImages extraImages run.
  assert (Hextra : forall f, In f extraImages <-> In f existing /\ ~ In f newImages).
  { intros f. subst extraImages. rewrite filter_In, negb_true_iff.
    split; intros [Hin Hnew]; (split; [exact Hin|]).
    - intros H. apply includes_In in H. congruence.
    - destruct (includes newImages f) eqn:E; [|reflexivity].
      apply includes_In in E. contradiction. }
  destruct (@removeUnusedImages_spec Page0 w queue config existing Hunused Hexisting)
    as [[k Hk] [Hall Hres]].
  fold dir newImages extraImages run in Hk, Hall, Hres.
  split; [exact Hextra|split; [|split; assumption]].
  intros p Hp. apply in_removed in Hp. rewrite Hk in Hp.
  apply in_map_iff in Hp. destruct Hp as [f [<- Hf]].
  exists f. split; [reflexivity|]. apply Hextra.
  revert Hf. apply firstn_In_incl.
Qed.

(** The example of the specification: [a.png], [b.png] and [c.png] existed,
    the queue writes [a.png] and [d.png] (the latter under another root);
    [b.png] and [c.png] go, and nothing else. *)
Lemma reconciliation_removes_exactly_the_unused_witness :
  let cfg := demo_config false true true in
  let queue := [image "/site/dist/assets/static/a.png"; image "/elsewhere/d.png"] in
  let existing := ["a.png"; "b.png"; "c.png"] in
  let world := calm_world [] [] queue existing cfg in
  removeUnused (images cfg) = true /\
  existing <> [] /\
  removed (trace (removeUnusedImages world queue cfg existing))
    = ["/site/dist/assets/static/b.png"; "/site/dist/assets/static/c.png"].
Proof.
  intros cfg queue existing world.
  assert (Hu : removeUnused (images cfg) = true) by reflexivity.
  assert (He : existing <> []) by discriminate.
  split; [exact Hu|split; [exact He|]].
  destruct (@reconciliation_removes_exactly_the_unused nat world queue cfg existing Hu He)
    as [_ [_ [Hall Hres]]].
  rewrite Hall.
  - reflexivity.
  - apply Hres. intros f _. reflexivity.
Defined.

(** ** The image fan-out *)

Section ImageFanout.
Context {Page : Type}.
Variable w : World Page.
Implicit Types (tr pre post : list (event Page)) (inflight : list nat).

Lemma none_app {A} (p : A -> bool) (l1 l2 : list A) :
  none p (l1 ++ l2) <-> none p l1 /\ none p l2.
Proof. apply Forall_app. Qed.

Lemma none_of_kind (kind p : event Page -> bool) tr :
  (forall e, kind e = true -> p e = false) ->
  Forall (fun e => kind e = true) tr -> none p tr.
Proof. intros H. apply Forall_impl. exact H. Qed.

Lemma none_In {A} (p : A -> bool) (l : list A) x :
  none p l -> In x l -> p x = false.
Proof. intros H. apply (proj1 (Forall_forall _ l) H). Qed.

Lemma none_count {A} (p : A -> bool) (l : list A) : none p l -> count p l = 0.
Proof.
  unfold count. induction 1 as [|x l Hx _ IH]; simpl; [reflexivity|].
  rewrite Hx. exact IH.
Qed.

(** The first event that satisfies [p] cuts a trace in one way only. *)
Lemma first_split_unique {A} (p : A -> bool) :
  forall (a a' : list A) x x' b b',
    a ++ x :: b = a' ++ x' :: b' ->
    p x = true -> p x' = true -> none p a -> none p a' ->
    a = a' /\ x = x' /\ b = b'.
Proof.
  induction a as [|y a IH]; intros a' x x' b b' E Hx Hx' Ha Ha'.
  - destruct a' as [|y' a']; simpl in E.
    + injection E as -> ->. auto.
    + injection E as -> _. inversion Ha'; subst. congruence.
  - destruct a' as [|y' a']; simpl in E.
    + injection E as -> _. inversion Ha; subst. congruence.
    + injection E as -> E. inversion Ha; inversion Ha'; subst.
      destruct (IH _ _ _ _ _ E Hx Hx') as [-> [-> ->]]; auto.
Qed.

Lemma next_settled_shorter inflight :
  inflight <> [] ->
  length (snd (next_settled w inflight)) = pred (length inflight).
Proof.
  intros Hne. unfold next_settled, remove_at. cbn [snd].
  assert (Hlen : length inflight <> 0) by (destruct inflight; simpl; congruence).
  pose proof (Nat.mod_upper_bound (settles_next w inflight) _ Hlen) as Hlt.
  rewrite length_app, length_firstn, length_skipn. lia.
Qed.

(** *** Kinds of events *)

Lemma stragglers_events fuel totalAssets totalJobs :
  forall inflight progress,
    Forall (fun e => is_straggler_event e = true)
      (stragglers w fuel totalAssets totalJobs inflight progress).
Proof.
  induction fuel as [|fuel IH]; intros inflight progress; cbn [stragglers];
    [constructor|].
  destruct inflight as [|j inflight']; [constructor|].
  destruct (next_settled w (j :: inflight')) as [job rest].
  destruct (worker_process w job); repeat constructor; apply IH.
Qed.

Lemma process_calls_events config chunks (started : list nat) :
  Forall (fun e : event Page => is_fanout_event e = true)
    (map (process_call config chunks) started).
Proof. induction started; simpl; constructor; auto. Qed.

Lemma pMap_loop_events fuel config chunks totalAssets totalJobs :
  forall next inflight progress,
    let f := pMap_loop w fuel config chunks totalAssets totalJobs next inflight progress in
    Forall (fun e => is_fanout_event e = true) (before f) /\
    Forall (fun e => is_straggler_event e = true) (after f).
Proof.
  induction fuel as [|fuel IH]; intros next inflight progress; cbn [pMap_loop];
    [split; constructor|].
  destruct inflight as [|j inflight']; [split; constructor|].
  destruct (next_settled w (j :: inflight')) as [job rest].
  destruct (worker_process w job) as [u|err]; cbn [before after settles].
  - match goal with |- context [pMap_loop w fuel ?c ?ch ?a ?b ?n ?i ?p] =>
      destruct (IH n i p) as [Hb Ha] end.
    split; [|exact Ha].
    constructor; [reflexivity|]. constructor; [reflexivity|].
    apply Forall_app. split; [apply process_calls_events|exact Hb].
  - split; [repeat constructor|apply stragglers_events].
Qed.

(** *** How the fan-out settles *)

Lemma pMap_loop_settles fuel config chunks totalAssets totalJobs :
  forall next inflight progress,
    let f := pMap_loop w fuel config chunks totalAssets totalJobs next inflight progress in
    match settles f with
    | Resolved _ => after f = [] /\ none is_rejection (before f)
    | Rejected err =>
        exists b job,
          before f = b ++ [Settled image_processor job (Rejected err)] /\
          none is_rejection b
    end.
Proof.
  induction fuel as [|fuel IH]; intros next inflight progress; cbn [pMap_loop];
    [split; [reflexivity|constructor]|].
  destruct inflight as [|j inflight']; [split; [reflexivity|constructor]|].
  destruct (next_settled w (j :: inflight')) as [job rest].
  destruct (worker_process w job) as [u|err]; cbn [before after settles].
  - match goal with |- context [pMap_loop w fuel ?c ?ch ?a ?b ?n ?i ?p] =>
      specialize (IH n i p); set (f := pMap_loop w fuel c ch a b n i p) in * end.
    cbv zeta in IH.
    assert (Hstarted : forall started : list nat,
               none (@is_rejection Page) (map (process_call config chunks) started)).
    { intros started. induction started; simpl; constructor; auto. }
    destruct (settles f) as [u'|err].
    + destruct IH as [Ha Hb]. split; [exact Ha|].
      constructor; [reflexivity|]. constructor; [reflexivity|].
      apply none_app. split; [apply Hstarted|exact Hb].
    + destruct IH as [b [job' [Eb Hb]]].
      eexists (_ :: _ :: _ ++ b), job'. split.
      * rewrite Eb. simpl. rewrite <- app_assoc. reflexivity.
      * constructor; [reflexivity|]. constructor; [reflexivity|].
        apply none_app. split; [apply Hstarted|exact Hb].
  - exists [], job. split; [reflexivity|constructor].
Qed.

End ImageFanout.

(** ** The progress line *)

Section Progress.
Context {Page : Type}.
Variable w : World Page.
Variables totalAssets totalJobs : nat.
Implicit Types (tr pre post : list (event Page)).

Lemma reports_progress_none n tr :
  none is_completion tr -> reports_progress totalAssets totalJobs n tr.
Proof.
  intros Hnone pre worker job post E. exfalso.
  assert (Hin : In (Settled worker job (Resolved tt)) tr)
    by (rewrite E; apply in_elt).
  eapply none_In in Hin; [|exact Hnone]. discriminate.
Qed.

Lemma reports_progress_skip n e tr :
  is_completion e = false ->
  reports_progress totalAssets totalJobs n tr ->
  reports_progress totalAssets totalJobs n (e :: tr).
Proof.
  intros He Htr pre worker job post E.
  destruct pre as [|e' pre']; simpl in E.
  - injection E as -> _. discriminate.
  - injection E as <- E. destruct (Htr _ _ _ _ E) as [post' ->].
    exists post'. unfold count. simpl. rewrite He. reflexivity.
Qed.

Lemma reports_progress_step n worker job tr :
  reports_progress totalAssets totalJobs (S n) tr ->
  reports_progress totalAssets totalJobs n
    (Settled worker job (Resolved tt)
       :: WriteLine (progress_after totalAssets totalJobs (S n)) :: tr).
Proof.
  intros Htr pre worker' job' post E.
  destruct pre as [|e pre']; simpl in E.
  - injection E as _ _ <-. exists tr. unfold count. simpl.
    rewrite Nat.add_0_r. reflexivity.
  - injection E as <- E. destruct pre' as [|e' pre'']; simpl in E.
    + discriminate.
    + injection E as <- E. destruct (Htr _ _ _ _ E) as [post' ->].
      exists post'. unfold count. simpl.
      rewrite Nat.add_succ_r. reflexivity.
Qed.

Lemma reports_progress_app n tr1 tr2 :
  reports_progress totalAssets totalJobs n tr1 ->
  reports_progress totalAssets totalJobs (n + count is_completion tr1) tr2 ->
  reports_progress totalAssets totalJobs n (tr1 ++ tr2).
Proof.
  intros H1 H2 pre worker job post E.
  apply app_eq_app in E. destruct E as [l [[E1 E2]|[E1 E2]]].
  - destruct l as [|c l'].
    + simpl in E2. rewrite app_nil_r in E1. subst tr1.
      destruct (H2 [] _ _ _ (eq_sym E2)) as [post' ->].
      exists post'. unfold count at 1. simpl. rewrite Nat.add_0_r. reflexivity.
    + simpl in E2. injection E2 as <- ->.
      destruct (H1 _ _ _ _ E1) as [post' ->].
      exists (post' ++ tr2). reflexivity.
  - destruct (H2 _ _ _ _ E2) as [post' ->].
    exists post'. rewrite E1, count_app, Nat.add_assoc. reflexivity.
Qed.

Lemma stragglers_progress fuel :
  forall inflight progress,
    reports_progress totalAssets totalJobs progress
      (stragglers w fuel totalAssets totalJobs inflight progress).
Proof.
  induction fuel as [|fuel IH]; intros inflight progress; cbn [stragglers];
    [apply reports_progress_none; constructor|].
  destruct inflight as [|j inflight']; [apply reports_progress_none; constructor|].
  destruct (next_settled w (j :: inflight')) as [job rest].
  destruct (worker_process w job) as [u|err].
  - apply reports_progress_step. apply IH.
  - apply reports_progress_skip; [reflexivity|apply IH].
Qed.

Lemma process_calls_no_completion config chunks (started : list nat) :
  none (@is_completion Page) (map (process_call config chunks) started).
Proof. induction started; simpl; constructor; auto. Qed.

Lemma pMap_loop_progress fuel config chunks :
  forall next inflight progress,
    let f := pMap_loop w fuel config chunks totalAssets totalJobs next inflight progress in
    reports_progress totalAssets totalJobs progress (before f) /\
    reports_progress totalAssets totalJobs
      (progress + count is_completion (before f)) (after f).
Proof.
  induction fuel as [|fuel IH]; intros next inflight progress; cbn [pMap_loop];
    [split; apply reports_progress_none; constructor|].
  destruct inflight as [|j inflight'];
    [split; apply reports_progress_none; constructor|].
  destruct (next_settled w (j :: inflight')) as [job rest].
  destruct (worker_process w job) as [u|err]; cbn [before after settles].
  - match goal with |- context [pMap_loop w fuel ?c ?ch ?a ?b ?n ?i ?p] =>
      destruct (IH n i p) as [Hb Ha];
      set (f := pMap_loop w fuel c ch a b n i p) in * end.
    set (started := if next <? length chunks then [next] else []) in *.
    pose proof (process_calls_no_completion config chunks started) as Hs.
    split.
    + apply reports_progress_step. apply reports_progress_app.
      * apply reports_progress_none. exact Hs.
      * rewrite (none_count Hs), Nat.add_0_r. exact Hb.
    + unfold count in *. cbn [filter is_completion length].
      fold (count is_completion (map (process_call config chunks) started ++ before f)).
      rewrite count_app, (none_count Hs).
      replace (progress + S (0 + count is_completion (before f)))
        with (S progress + count is_completion (before f)) by lia.
      exact Ha.
  - split.
    + apply reports_progress_skip; [reflexivity|].
      apply reports_progress_none. constructor.
    + unfold count. simpl. rewrite Nat.add_0_r. apply stragglers_progress.
Qed.

End Progress.

(** ** The image stage *)

Section ImageStage.
Context {Page : Type}.
Variable w : World Page.
Implicit Types (tr pre post : list (event Page)).

Lemma pMap_events config chunks totalAssets totalJobs concurrency :
  let f := pMap w config chunks totalAssets totalJobs concurrency in
  Forall (fun e => is_fanout_event e = true) (before f) /\
  Forall (fun e => is_straggler_event e = true) (after f).
Proof.
  unfold pMap. destruct (concurrency <? 1); cbn [before after];
    [split; constructor|].
  match goal with |- context [pMap_loop w ?fu ?c ?ch ?a ?b ?n ?i ?p] =>
    destruct (pMap_loop_events w fu c ch a b n i p) as [Hb Ha] end.
  split; [|exact Ha].
  apply Forall_app. split; [apply process_calls_events|exact Hb].
Qed.

Lemma pMap_settles config chunks totalAssets totalJobs concurrency :
  let f := pMap w config chunks totalAssets totalJobs concurrency in
  match settles f with
  | Resolved _ => after f = [] /\ none is_rejection (before f)
  | Rejected err =>
      (concurrency < 1 /\ before f = [] /\ after f = []) \/
      exists b job,
        before f = b ++ [Settled image_processor job (Rejected err)] /\
        none is_rejection b
  end.
Proof.
  unfold pMap. destruct (Nat.ltb_spec concurrency 1) as [Hlt|Hge];
    cbn [before after settles]; [left; auto|].
  set (started := seq 0 (Nat.min concurrency (length chunks))).
  assert (Hs : none (@is_rejection Page) (map (process_call config chunks) started))
    by (induction started; simpl; constructor; auto).
  match goal with |- context [pMap_loop w ?fu ?c ?ch ?a ?b ?n ?i ?p] =>
    pose proof (pMap_loop_settles w fu c ch a b n i p) as H;
    set (f := pMap_loop w fu c ch a b n i p) in * end.
  cbv zeta in H. destruct (settles f) as [u|err].
  - destruct H as [Ha Hb]. split; [exact Ha|].
    apply none_app. split; assumption.
  - right. destruct H as [b [job [Eb Hb]]].
    exists (map (process_call config chunks) started ++ b), job. split.
    + rewrite Eb, app_assoc. reflexivity.
    + apply none_app. split; assumption.
Qed.

Lemma pMap_progress config chunks totalAssets totalJobs concurrency :
  let f := pMap w config chunks totalAssets totalJobs concurrency in
  reports_progress totalAssets totalJobs 0 (before f) /\
  reports_progress totalAssets totalJobs (count is_completion (before f)) (after f).
Proof.
  unfold pMap. destruct (concurrency <? 1); cbn [before after];
    [split; apply reports_progress_none; constructor|].
  set (started := seq 0 (Nat.min concurrency (length chunks))).
  pose proof (@process_calls_no_completion Page config chunks started) as Hs.
  match goal with |- context [pMap_loop w ?fu ?c ?ch ?a ?b ?n ?i ?p] =>
    destruct (pMap_loop_progress w a b fu c ch n i p) as [Hb Ha];
    set (f := pMap_loop w fu c ch a b n i p) in * end.
  split.
  - apply reports_progress_app; [apply reports_progress_none; exact Hs|].
    rewrite (none_count Hs). exact Hb.
  - rewrite count_app, (none_count Hs). exact Ha.
Qed.

(** The three ways a run of [processImages] can go: the read of the images
    directory rejects; the fan-out rejects; or the fan-out resolves and the
    removal of unused images decides. *)
Lemma processImages_cases queue config :
  let dir := imagesDir config in
  let chunks := Lodash.chunk queue 25 in
  let f := pMap w config chunks (length queue) (length chunks) (cpus_logical w) in
  let create := CreateWorker (Page:=Page) image_processor in
  let zero := WriteLine (Page:=Page) (progress_line (length queue) 0) in
  (exists err,
      emptyOutputDir config = false /\ fs_readdir w dir = Rejected err /\
      processImages w queue config = ([create; FsReaddir dir], Rejected err)) \/
  (exists existing head,
      ((emptyOutputDir config = true /\ existing = [] /\ head = [create; zero]) \/
       (emptyOutputDir config = false /\ fs_readdir w dir = Resolved existing /\
        head = [create; FsReaddir dir; zero])) /\
      processImages w queue config =
        match settles f with
        | Rejected err =>
            (head ++ before f ++ WorkerEnd image_processor :: after f, Rejected err)
        | Resolved _ =>
            (head ++ before f ++ after f
               ++ WorkerEnd image_processor
               :: WriteLine (images_done_line w (length queue))
               :: trace (removeUnusedImages w queue config existing),
             outcome (removeUnusedImages w queue config existing))
        end).
Proof.
  intros dir chunks f create zero.
  unfold processImages. fold dir chunks f.
  destruct (emptyOutputDir config) eqn:Eempty; cbn [negb].
  - right. exists [], [create; zero]. split; [left; auto|].
    unfold bind, emit, perform, ret, trace, outcome. cbn [fst snd].
    destruct (settles f) as [u|err]; cbn [fst snd]; [|reflexivity].
    destruct (removeUnusedImages w queue config []) as [tr r].
    cbn [fst snd app]. rewrite <- !app_assoc. reflexivity.
  - destruct (fs_readdir w dir) as [existing|err] eqn:Eread.
    + right. exists existing, [create; FsReaddir dir; zero].
      split; [right; auto|].
      unfold bind, emit, perform, ret, trace, outcome. cbn [fst snd].
      destruct (settles f) as [u|err]; cbn [fst snd]; [|reflexivity].
      destruct (removeUnusedImages w queue config existing) as [tr r].
      cbn [fst snd app]. rewrite <- !app_assoc. reflexivity.
    + left. exists err. split; [reflexivity|split; [reflexivity|]].
      reflexivity.
Qed.

End ImageStage.

Section ImageStageEvents.
Context {Page : Type}.
Variable w : World Page.

Lemma removeUnusedImages_nothing_existing queue config :
  removeUnusedImages w queue config [] = ret tt.
Proof.
  unfold removeUnusedImages. destruct (removeUnused (images config)); reflexivity.
Qed.

Lemma in_for_of_perform {A} (l : list A) (call : A -> event Page) (r : A -> result unit) e :
  In e (trace (for_of l (fun x => perform (call x) (r x)))) ->
  exists x, In x l /\ e = call x.
Proof.
  destruct (for_of_perform l call r) as [[k Hk] _]. rewrite Hk.
  intros H. apply in_map_iff in H. destruct H as [x [<- Hx]].
  exists x. split; [revert Hx; apply firstn_In_incl|reflexivity].
Qed.

(** The removal step only removes and reports. *)
Lemma removeUnusedImages_events queue config existing :
  Forall (fun e => match e with FsRemove _ | Info _ => True | _ => False end)
    (trace (removeUnusedImages w queue config existing)).
Proof.
  unfold removeUnusedImages.
  destruct (removeUnused (images config) && negb (length existing =? 0));
    [|constructor].
  match goal with |- context [negb (length ?l =? 0)] =>
    destruct (negb (length l =? 0)); [set (extra := l)|constructor] end.
  rewrite trace_bind.
  assert (Hloop : Forall (fun e : event Page =>
                            match e with FsRemove _ | Info _ => True | _ => False end)
                    (trace (for_of extra (fun filename =>
                       perform (FsRemove (path_join w (imagesDir config) filename))
                         (fs_remove w (path_join w (imagesDir config) filename)))))).
  { apply Forall_forall. intros e He.
    apply in_for_of_perform in He. destruct He as [x [_ ->]]. exact I. }
  destruct (outcome _); [|exact Hloop].
  apply Forall_app. split; [exact Hloop|repeat constructor].
Qed.

Lemma fanout_event_kind (e : event Page) :
  is_fanout_event e = true ->
  is_FsReaddir e = false /\ is_FsRemove e = false /\ is_WorkerEnd e = false.
Proof. destruct e; simpl; intros H; try discriminate; auto. Qed.

Lemma straggler_event_kind (e : event Page) :
  is_straggler_event e = true ->
  is_FsReaddir e = false /\ is_FsRemove e = false /\ is_WorkerEnd e = false /\
  is_WorkerProcess e = false.
Proof. destruct e; simpl; intros H; try discriminate; auto. Qed.

End ImageStageEvents.

(** C4. With [emptyOutputDir] set, the image stage never reads the images
    directory and removes no file, whatever [removeUnused] and the image
    queue are. *)
Theorem emptied_output_dir_skips_read_and_removal :
  forall (Page : Type) (w : World Page) (queue : list AssetJob) (config : Config),
    emptyOutputDir config = true ->
    none is_FsReaddir (trace (processImages w queue config)) /\
    none is_FsRemove (trace (processImages w queue config)).
Proof.
  intros Page w queue config Hempty.
  destruct (processImages_cases w queue config)
    as [[err [E _]]|[existing [head [Hhead Hrun]]]]; [congruence|].
  destruct Hhead as [[_ [-> ->]]|[E _]]; [|congruence].
  rewrite Hrun. clear Hrun.
  set (f := pMap _ _ _ _ _ _) in *.
  destruct (pMap_events w config (Lodash.chunk queue 25) (length queue)
              (length (Lodash.chunk queue 25)) (cpus_logical w)) as [Hb Ha].
  fold f in Hb, Ha.
  assert (Hb1 : none is_FsReaddir (before f) /\ none is_FsRemove (before f)).
  { split; (eapply none_of_kind; [|exact Hb]); intros e He;
      apply fanout_event_kind in He; tauto. }
  assert (Ha1 : none is_FsReaddir (after f) /\ none is_FsRemove (after f)).
  { split; (eapply none_of_kind; [|exact Ha]); intros e He;
      apply straggler_event_kind in He; tauto. }
  destruct Hb1 as [Hb1 Hb2], Ha1 as [Ha1 Ha2].
  destruct (settles f) as [u|err]; unfold trace; cbn [fst].
  - rewrite removeUnusedImages_nothing_existing. cbn [ret fst].
    split; repeat (apply none_app; split); auto; repeat constructor.
  - split; repeat (apply none_app; split); auto; repeat constructor; auto.
Qed.

Lemma emptied_output_dir_skips_read_and_removal_witness :
  let cfg := demo_config true true true in
  let queue := images_queue_of 30 in
  let world := calm_world [] [] queue ["old.png"] cfg in
  emptyOutputDir cfg = true /\
  none is_FsReaddir (trace (processImages world queue cfg)) /\
  none is_FsRemove (trace (processImages world queue cfg)).
Proof.
  intros cfg queue world. split; [reflexivity|].
  apply (@emptied_output_dir_skips_read_and_removal nat world queue cfg).
  reflexivity.
Defined.

(** C10. With [emptyOutputDir] unset, the image stage reads the images
    directory right after creating its worker, before any chunk is
    dispatched, whether or not [removeUnused] is set; when the read rejects,
    the stage rejects with that error and nothing has been dispatched. *)
Theorem images_dir_is_read_before_dispatch :
  forall (Page : Type) (w : World Page) (queue : list AssetJob) (config : Config),
    emptyOutputDir config = false ->
    (exists rest,
        trace (processImages w queue config)
          = CreateWorker image_processor :: FsReaddir (imagesDir config) :: rest) /\
    (forall err,
        fs_readdir w (imagesDir config) = Rejected err ->
        processImages w queue config
          = ([CreateWorker image_processor; FsReaddir (imagesDir config)], Rejected err)).
Proof.
  intros Page w queue config Hempty.
  destruct (processImages_cases w queue config)
    as [[err [_ [Eread Hrun]]]|[existing [head [Hhead Hrun]]]].
  - split.
    + exists []. rewrite Hrun. reflexivity.
    + intros err' E. rewrite Hrun. congruence.
  - destruct Hhead as [[E _]|[_ [Eread ->]]]; [congruence|].
    split.
    + rewrite Hrun. destruct (settles _); eexists; reflexivity.
    + intros err E. congruence.
Qed.

Lemma images_dir_is_read_before_dispatch_witness :
  let cfg := demo_config false true false in
  let queue := images_queue_of 30 in
  let world := calm_world [] [] queue ["old.png"] cfg in
  emptyOutputDir cfg = false /\
  exists rest,
    trace (processImages world queue cfg)
      = CreateWorker image_processor :: FsReaddir "/site/dist/assets/static" :: rest.
Proof.
  intros cfg queue world. split; [reflexivity|].
  apply (@images_dir_is_read_before_dispatch nat world queue cfg). reflexivity.
Defined.

Lemma filter_all {A} (p : A -> bool) (l : list A) :
  (forall x, In x l -> p x = true) -> filter p l = l.
Proof.
  induction l as [|x l IH]; intros H; simpl; [reflexivity|].
  rewrite (H x (or_introl eq_refl)). f_equal. apply IH.
  intros y Hy. apply H. right. exact Hy.
Qed.

(** The fan-out over no chunk at all resolves at once. *)
Lemma pMap_no_chunks {Page} (w : World Page) config totalAssets totalJobs concurrency :
  1 <= concurrency ->
  pMap w config [] totalAssets totalJobs concurrency
    = {| before := []; settles := Resolved tt; after := [] |}.
Proof.
  intros HK. unfold pMap.
  destruct (Nat.ltb_spec concurrency 1); [lia|].
  rewrite Nat.min_0_r. reflexivity.
Qed.

(** C9. With [emptyOutputDir] unset, [removeUnused] set, an images directory
    that held files before the build and an empty image queue, every file
    that was there is classified as extra: the stage hands each of them to
    [fs.remove], in order, and resolves, provided each removal does. (The
    mapper only runs with a concurrency of one and up.) *)
Theorem empty_queue_removes_every_existing_image :
  forall (Page : Type) (w : World Page) (config : Config) (existing : list string),
    emptyOutputDir config = false ->
    removeUnused (images config) = true ->
    fs_readdir w (imagesDir config) = Resolved existing ->
    existing <> [] ->
    1 <= cpus_logical w ->
    let run := processImages w [] config in
    let paths := map (path_join w (imagesDir config)) existing in
    (exists k, 1 <= k /\ removed (trace run) = firstn k paths) /\
    (outcome run = Resolved tt -> removed (trace run) = paths) /\
    ((forall p, In p paths -> fs_remove w p = Resolved tt) ->
     outcome run = Resolved tt /\ removed (trace run) = paths).
Proof.
  intros Page w config existing Hempty Hunused Hread Hexisting HK run paths.
  destruct (processImages_cases w [] config)
    as [[err [_ [E _]]]|[existing' [head [Hhead Hrun]]]]; [congruence|].
  destruct Hhead as [[E _]|[_ [Eread ->]]]; [congruence|].
  assert (existing' = existing) by congruence. subst existing'.
  change (Lodash.chunk (@nil AssetJob) 25) with (@nil (list AssetJob)) in Hrun.
  rewrite pMap_no_chunks in Hrun by assumption.
  cbn [settles before after app] in Hrun.
  destruct (@removeUnusedImages_spec Page w [] config existing Hunused Hexisting)
    as [[k Hk] [Hall Hres]].
  cbn [map] in Hk, Hall, Hres.
  rewrite (filter_all (fun v => negb (includes [] v)) existing) in Hk, Hall, Hres
    by reflexivity.
  fold paths in Hall.
  assert (Hremoved : removed (trace run)
                     = removed (trace (removeUnusedImages w [] config existing))).
  { subst run. rewrite Hrun. reflexivity. }
  assert (Houtcome : outcome run = outcome (removeUnusedImages w [] config existing)).
  { subst run. rewrite Hrun. reflexivity. }
  rewrite Hremoved, Houtcome.
  assert (Hok : (forall p, In p paths -> fs_remove w p = Resolved tt) ->
                outcome (removeUnusedImages w [] config existing) = Resolved tt).
  { intros H. apply Hres. intros f Hf. apply H. subst paths.
    apply in_map. exact Hf. }
  split; [|split].
  - destruct k as [|k].
    + (* no removal made: impossible, the first one is always attempted *)
      exfalso. destruct existing as [|x0 rest]; [congruence|].
      unfold removeUnusedImages in Hk. rewrite Hunused in Hk.
      cbn [map] in Hk.
      rewrite (filter_all (fun v => negb (includes [] v)) (x0 :: rest)) in Hk
        by reflexivity.
      cbn in Hk. unfold bind, perform, trace, outcome in Hk. cbn [fst snd] in Hk.
      destruct (fs_remove w (path_join w (imagesDir config) x0));
        cbn [fst snd app removed] in Hk;
        repeat match type of Hk with context [match ?r with _ => _ end] =>
                 destruct r; cbn [fst snd app removed] in Hk end;
        discriminate.
    + exists (S k). split; [lia|]. rewrite Hk. subst paths.
      rewrite firstn_map. reflexivity.
  - exact Hall.
  - intros H. specialize (Hok H). split; [exact Hok|exact (Hall Hok)].
Qed.

Lemma empty_queue_removes_every_existing_image_witness :
  let cfg := demo_config false true true in
  let existing := ["a.png"; "b.png"] in
  let world := calm_world [] [] [] existing cfg in
  emptyOutputDir cfg = false /\
  removeUnused (images cfg) = true /\
  fs_readdir world (imagesDir cfg) = Resolved existing /\
  existing <> [] /\
  1 <= cpus_logical world /\
  outcome (processImages world [] cfg) = Resolved tt /\
  removed (trace (processImages world [] cfg))
    = ["/site/dist/assets/static/a.png"; "/site/dist/assets/static/b.png"].
Proof.
  intros cfg existing world.
  assert (H1 : emptyOutputDir cfg = false) by reflexivity.
  assert (H2 : removeUnused (images cfg) = true) by reflexivity.
  assert (H3 : fs_readdir world (imagesDir cfg) = Resolved existing) by reflexivity.
  assert (H4 : existing <> []) by discriminate.
  assert (H5 : 1 <= cpus_logical world) by (simpl; lia).
  repeat (split; [assumption|]).
  destruct (@empty_queue_removes_every_existing_image nat world cfg existing
              H1 H2 H3 H4 H5) as [_ [_ Hall]].
  apply Hall. intros p _. reflexivity.
Defined.

Section ImageStageFailure.
Context {Page : Type}.
Variable w : World Page.

Lemma removeUnusedImages_quiet queue config existing (p : event Page -> bool) :
  (forall path, p (FsRemove path) = false) ->
  (forall line, p (Info line) = false) ->
  none p (trace (removeUnusedImages w queue config existing)).
Proof.
  intros Hremove Hinfo.
  eapply Forall_impl; [|apply removeUnusedImages_events].
  intros e He. destruct e; try contradiction; auto.
Qed.

Lemma fanout_none (p : event Page -> bool) config chunks totalAssets totalJobs concurrency :
  (forall e, is_fanout_event e = true -> p e = false) ->
  let f := pMap w config chunks totalAssets totalJobs concurrency in
  none p (before f) /\ none p (after f).
Proof.
  intros Hp f.
  destruct (pMap_events w config chunks totalAssets totalJobs concurrency) as [Hb Ha].
  split.
  - eapply none_of_kind; [exact Hp|exact Hb].
  - eapply none_of_kind; [|exact Ha].
    intros e He. apply Hp. destruct e; simpl in *; congruence.
Qed.

End ImageStageFailure.

(** ** The image fan-out at the grain of the microtask queue *)

Section Ticks.
Context {Page : Type}.
Variable w : World Page.
Variable config : Config.
Variable chunks : list (list AssetJob).
Variables totalAssets totalJobs : nat.
Variable ticks : nat -> move.
Implicit Types (st : Fan) (m : move) (ev tr pre mid post : list (event Page)).

Local Abbreviation step := (fan_step w config chunks totalAssets totalJobs).
Local Abbreviation run := (fan_run w config chunks totalAssets totalJobs ticks).

Lemma choose_enabled n st m : choose ticks n st = Some m -> enabled st m = true.
Proof.
  unfold choose. destruct (enabled st (ticks n)) eqn:E.
  - intros H. injection H as <-. exact E.
  - intros H. apply find_some in H. tauto.
Qed.

Lemma choose_none n st :
  choose ticks n st = None ->
  fan_inflight st = [] /\ fan_settled st = [] /\ fan_due st = [] /\ fan_catch st = false.
Proof.
  unfold choose. destruct (enabled st (ticks n)); [discriminate|].
  intros H.
  pose proof (find_none _ _ H Start) as Hs.
  pose proof (find_none _ _ H React) as Hr.
  pose proof (find_none _ _ H Catch) as Hc.
  pose proof (find_none _ _ H Resume) as Hu.
  cbn [In enabled] in *.
  destruct (fan_inflight st); [|specialize (Hu ltac:(tauto)); discriminate].
  destruct (fan_settled st); [|specialize (Hr ltac:(tauto)); discriminate].
  destruct (fan_due st); [|specialize (Hs ltac:(tauto)); discriminate].
  destruct (fan_catch st); [specialize (Hc ltac:(tauto)); discriminate|].
  auto.
Qed.

Lemma fan_run_step fuel n st :
  run (S fuel) n st =
    match choose ticks n st with
    | None => ([], st)
    | Some m =>
        let (ev, st1) := step st m in
        let (tr, st2) := run fuel (S n) st1 in
        (ev ++ tr, st2)
    end.
Proof. reflexivity. Qed.

(** Every step uses up some of the measure. *)
Lemma step_measure st m ev st1 :
  enabled st m = true -> step st m = (ev, st1) ->
  fan_measure chunks st1 < fan_measure chunks st.
Proof.
  intros Hen Hstep. unfold fan_measure.
  destruct m; cbn [fan_step enabled] in *.
  - unfold resume in Hstep.
    assert (Hne : fan_inflight st <> [])
      by (destruct (fan_inflight st); [discriminate|congruence]).
    pose proof (next_settled_shorter w Hne) as Hlen.
    destruct (next_settled w (fan_inflight st)) as [job rest]. cbn [snd] in Hlen.
    assert (0 < length (fan_inflight st))
      by (destruct (fan_inflight st); [congruence|simpl; lia]).
    destruct (worker_process w job); injection Hstep as <- <-;
      cbn [fan_index fan_due fan_inflight fan_settled fan_catch];
      rewrite length_app; cbn [length]; lia.
  - unfold react in Hstep.
    destruct (fan_settled st) as [|r later]; [discriminate|].
    destruct r; destruct (fan_rejected st).
    + injection Hstep as <- <-.
      cbn [fan_index fan_due fan_inflight fan_settled fan_catch length]. lia.
    + destruct (Nat.ltb_spec (fan_index st) (length chunks)); injection Hstep as <- <-;
        cbn [fan_index fan_due fan_inflight fan_settled fan_catch length];
        rewrite ?length_app; cbn [length]; lia.
    + injection Hstep as <- <-.
      cbn [fan_index fan_due fan_inflight fan_settled fan_catch length]. lia.
    + injection Hstep as <- <-.
      cbn [fan_index fan_due fan_inflight fan_settled fan_catch length Nat.b2n].
      destruct (fan_catch st); cbn [Nat.b2n]; lia.
  - unfold start in Hstep.
    destruct (fan_due st) as [|job later]; [discriminate|].
    injection Hstep as <- <-.
    cbn [fan_index fan_due fan_inflight fan_settled fan_catch length].
    rewrite length_app. cbn [length]. lia.
  - unfold catch in Hstep. injection Hstep as <- <-.
    cbn [fan_index fan_due fan_inflight fan_settled fan_catch length].
    apply andb_prop in Hen. destruct Hen as [-> _]. cbn [Nat.b2n]. lia.
Qed.

(** With fuel for the measure the fan-out runs until no job is left. *)
Lemma fan_run_completes :
  forall fuel n st tr st',
    fan_measure chunks st <= fuel ->
    run fuel n st = (tr, st') ->
    fan_inflight st' = [] /\ fan_settled st' = [] /\ fan_due st' = [] /\
    fan_catch st' = false.
Proof.
  induction fuel as [|fuel IH]; intros n st tr st' Hfuel Hrun.
  - cbn in Hrun. injection Hrun as _ <-.
    unfold fan_measure in Hfuel.
    destruct (fan_inflight st); [|simpl in Hfuel; lia].
    destruct (fan_settled st); [|simpl in Hfuel; lia].
    destruct (fan_due st); [|simpl in Hfuel; lia].
    destruct (fan_catch st); [simpl in Hfuel; lia|]. auto.
  - rewrite fan_run_step in Hrun.
    destruct (choose ticks n st) as [m|] eqn:Hc.
    + destruct (step st m) as [ev st1] eqn:Hs.
      destruct (run fuel (S n) st1) as [tr2 st2] eqn:Hr.
      injection Hrun as _ <-.
      pose proof (step_measure _ _ (choose_enabled _ _ Hc) Hs).
      eapply IH; [|exact Hr]. lia.
    + injection Hrun as _ <-. eapply choose_none; eassumption.
Qed.

(** Once the [catch] block has run nothing is dispatched and the worker is
    not ended again. *)
Lemma step_after_catch st m ev st1 :
  after_catch st -> enabled st m = true -> step st m = (ev, st1) ->
  after_catch st1 /\ none is_WorkerProcess ev /\ none is_WorkerEnd ev /\
  fan_rejected st1 = fan_rejected st.
Proof.
  intros [Hrej [Hcatch Hdue]] Hen Hstep. unfold after_catch.
  destruct m; cbn [fan_step enabled] in *.
  - unfold resume in Hstep.
    destruct (next_settled w (fan_inflight st)) as [job rest].
    destruct (worker_process w job); injection Hstep as <- <-;
      cbn [fan_due fan_rejected fan_catch]; repeat split; auto;
      repeat constructor.
  - unfold react in Hstep.
    destruct (fan_settled st) as [|r later]; [discriminate|].
    destruct r; destruct (fan_rejected st) eqn:E; try congruence;
      injection Hstep as <- <-; cbn [fan_due fan_rejected fan_catch];
      repeat split; auto; try congruence; constructor.
  - rewrite Hdue in Hen. discriminate.
  - rewrite Hcatch in Hen. discriminate.
Qed.

Lemma run_after_catch :
  forall fuel n st tr st',
    after_catch st -> run fuel n st = (tr, st') ->
    none is_WorkerProcess tr /\ none is_WorkerEnd tr /\
    fan_rejected st' = fan_rejected st.
Proof.
  induction fuel as [|fuel IH]; intros n st tr st' Hst Hrun.
  - cbn in Hrun. injection Hrun as <- <-. repeat split; constructor.
  - rewrite fan_run_step in Hrun.
    destruct (choose ticks n st) as [m|] eqn:Hc;
      [|injection Hrun as <- <-; repeat split; constructor].
    destruct (step st m) as [ev st1] eqn:Hs.
    destruct (run fuel (S n) st1) as [tr2 st2] eqn:Hr.
    injection Hrun as <- <-.
    destruct (step_after_catch _ Hst (choose_enabled _ _ Hc) Hs) as [Hst1 [Hp [He Hrej]]].
    destruct (IH _ _ _ _ Hst1 Hr) as [Hp2 [He2 Hrej2]].
    split; [apply none_app; auto|]. split; [apply none_app; auto|]. congruence.
Qed.

(** While the [catch] block is due, the chunks [next()] had taken reach the
    callback and nothing else is dispatched. *)
Lemma step_catch_due err st m ev st1 :
  catch_due err st -> enabled st m = true -> step st m = (ev, st1) ->
  (ev = [WorkerEnd image_processor] /\ after_catch st1 /\ fan_due st = [] /\
   fan_rejected st1 = Some err) \/
  (catch_due err st1 /\ none is_WorkerEnd ev /\
   count is_WorkerProcess ev + length (fan_due st1) = length (fan_due st)).
Proof.
  intros [Hrej Hcatch] Hen Hstep. unfold catch_due, after_catch.
  destruct m; cbn [fan_step enabled] in *.
  - right. unfold resume in Hstep.
    destruct (next_settled w (fan_inflight st)) as [job rest].
    destruct (worker_process w job); injection Hstep as <- <-;
      cbn [fan_due fan_rejected fan_catch]; repeat split; auto;
      repeat constructor.
  - right. unfold react in Hstep.
    destruct (fan_settled st) as [|r later]; [discriminate|].
    rewrite Hrej in Hstep.
    destruct r; injection Hstep as <- <-; cbn [fan_due fan_rejected fan_catch];
      repeat split; auto; constructor.
  - right. unfold start in Hstep.
    destruct (fan_due st) as [|job later]; [discriminate|].
    injection Hstep as <- <-. cbn [fan_due fan_rejected fan_catch].
    repeat split; auto; repeat constructor.
  - left. unfold catch in Hstep. injection Hstep as <- <-.
    cbn [fan_due fan_rejected fan_catch].
    apply andb_prop in Hen. destruct Hen as [_ Hdue].
    destruct (fan_due st); [|discriminate].
    repeat split; auto. congruence.
Qed.

Lemma run_catch_due :
  forall fuel n st err tr st',
    catch_due err st -> fan_measure chunks st <= fuel ->
    run fuel n st = (tr, st') ->
    exists mid post',
      tr = mid ++ WorkerEnd image_processor :: post' /\
      none is_WorkerEnd mid /\
      count is_WorkerProcess mid = length (fan_due st) /\
      none is_WorkerProcess post' /\ none is_WorkerEnd post' /\
      fan_rejected st' = Some err.
Proof.
  induction fuel as [|fuel IH]; intros n st err tr st' Hst Hfuel Hrun.
  - exfalso. destruct Hst as [_ Hcatch]. unfold fan_measure in Hfuel.
    rewrite Hcatch in Hfuel. simpl in Hfuel. lia.
  - rewrite fan_run_step in Hrun.
    destruct (choose ticks n st) as [m|] eqn:Hc.
    2:{ exfalso. apply choose_none in Hc. destruct Hst as [_ Hcatch].
        destruct Hc as [_ [_ [_ Hc]]]. congruence. }
    destruct (step st m) as [ev st1] eqn:Hs.
    destruct (run fuel (S n) st1) as [tr2 st2] eqn:Hr.
    injection Hrun as <- <-.
    pose proof (step_measure _ _ (choose_enabled _ _ Hc) Hs) as Hlt.
    destruct (step_catch_due _ Hst (choose_enabled _ _ Hc) Hs)
      as [[-> [Hst1 [Hdue Hrej]]]|[Hst1 [He Hcount]]].
    + destruct (@run_after_catch fuel (S n) st1 tr2 st2 Hst1 Hr) as [Hp2 [He2 Hrej2]].
      exists [], tr2. rewrite Hdue. repeat split; auto; try constructor. congruence.
    + destruct (IH _ _ _ _ _ Hst1 ltac:(lia) Hr)
        as [mid [post' [-> [Hmid [Hcnt [Hp [He' Hrej]]]]]]].
      exists (ev ++ mid), post'. rewrite <- app_assoc.
      split; [reflexivity|]. split; [apply none_app; auto|].
      split; [rewrite count_app; lia|auto].
Qed.

(** While the first rejection waits for its handler, only the callbacks that
    resolved before it can have [next()] take a chunk. *)
Lemma step_rejection_pending err oks later st m ev st1 :
  rejection_pending err oks later st -> enabled st m = true -> step st m = (ev, st1) ->
  (oks = [] /\ ev = [] /\ catch_due err st1 /\ fan_due st1 = fan_due st) \/
  (exists oks' later',
      rejection_pending err oks' later' st1 /\ none is_WorkerEnd ev /\
      count is_WorkerProcess ev + length (fan_due st1) + length oks'
        <= length (fan_due st) + length oks).
Proof.
  intros [Hrej [Hcatch [Hsettled Hoks]]] Hen Hstep.
  unfold rejection_pending, catch_due.
  destruct m; cbn [fan_step enabled] in *.
  - right. unfold resume in Hstep.
    destruct (next_settled w (fan_inflight st)) as [job rest].
    destruct (worker_process w job) as [u|err'];
      [exists oks, (later ++ [Resolved tt])|exists oks, (later ++ [Rejected err'])];
      injection Hstep as <- <-; cbn [fan_due fan_rejected fan_catch fan_settled];
      rewrite Hsettled, <- app_assoc; cbn [app]; repeat split; auto;
      repeat constructor.
  - unfold react in Hstep. rewrite Hsettled, Hrej in Hstep.
    destruct oks as [|ok oks']; cbn [app] in Hstep.
    + left. injection Hstep as <- <-. cbn [fan_due fan_rejected fan_catch].
      repeat split; reflexivity.
    + right. inversion Hoks as [|? ? Hok Hoks']; subst.
      exists oks', later.
      destruct (fan_index st <? length chunks); injection Hstep as <- <-;
        cbn [fan_due fan_rejected fan_catch fan_settled];
        rewrite ?length_app; cbn [length]; repeat split; auto; try constructor;
        cbn; lia.
  - right. unfold start in Hstep.
    destruct (fan_due st) as [|job due']; [discriminate|].
    exists oks, later. injection Hstep as <- <-.
    cbn [fan_due fan_rejected fan_catch fan_settled].
    repeat split; auto; repeat constructor.
  - rewrite Hcatch in Hen. discriminate.
Qed.

Lemma run_rejection_pending :
  forall fuel n st err oks later tr st',
    rejection_pending err oks later st -> fan_measure chunks st <= fuel ->
    run fuel n st = (tr, st') ->
    exists mid post',
      tr = mid ++ WorkerEnd image_processor :: post' /\
      none is_WorkerEnd mid /\
      count is_WorkerProcess mid <= length (fan_due st) + length oks /\
      none is_WorkerProcess post' /\ none is_WorkerEnd post' /\
      fan_rejected st' = Some err.
Proof.
  induction fuel as [|fuel IH]; intros n st err oks later tr st' Hst Hfuel Hrun.
  - exfalso. destruct Hst as [_ [_ [Hsettled _]]]. unfold fan_measure in Hfuel.
    rewrite Hsettled, length_app in Hfuel. simpl in Hfuel. lia.
  - rewrite fan_run_step in Hrun.
    destruct (choose ticks n st) as [m|] eqn:Hc.
    2:{ exfalso. apply choose_none in Hc. destruct Hst as [_ [_ [Hsettled _]]].
        destruct Hc as [_ [Hc _]]. rewrite Hsettled in Hc.
        destruct oks; discriminate. }
    destruct (step st m) as [ev st1] eqn:Hs.
    destruct (run fuel (S n) st1) as [tr2 st2] eqn:Hr.
    injection Hrun as <- <-.
    pose proof (step_measure _ _ (choose_enabled _ _ Hc) Hs) as Hlt.
    destruct (step_rejection_pending _ Hst (choose_enabled _ _ Hc) Hs)
      as [[-> [-> [Hst1 Hdue]]]|[oks' [later' [Hst1 [He Hcount]]]]].
    + destruct (@run_catch_due fuel (S n) st1 err tr2 st2 Hst1 ltac:(lia) Hr)
        as [mid [post' [-> [Hmid [Hcnt [Hp [He' Hrej]]]]]]].
      exists mid, post'. cbn [app length].
      split; [reflexivity|]. split; [exact Hmid|].
      split; [rewrite Hcnt, Hdue; lia|auto].
    + destruct (IH _ _ _ _ _ _ _ Hst1 ltac:(lia) Hr)
        as [mid [post' [-> [Hmid [Hcnt [Hp [He' Hrej]]]]]]].
      exists (ev ++ mid), post'. rewrite <- app_assoc.
      split; [reflexivity|]. split; [apply none_app; auto|].
      split; [rewrite count_app; lia|auto].
Qed.

(** While all is well the worker is not ended, and every chunk [next()]
    takes answers a call that resolved. *)
Lemma step_all_well st m ev st1 :
  all_well st -> enabled st m = true -> step st m = (ev, st1) ->
  (exists job err,
      ev = [Settled image_processor job (Rejected err)] /\
      rejection_pending err (fan_settled st) [] st1 /\ fan_due st1 = fan_due st) \/
  (all_well st1 /\ none is_rejection ev /\ none is_WorkerEnd ev /\
   count is_WorkerProcess ev + length (fan_due st1) + length (fan_settled st1)
     <= length (fan_due st) + length (fan_settled st) + count is_completion ev).
Proof.
  intros [Hrej [Hcatch Hoks]] Hen Hstep.
  unfold rejection_pending, all_well.
  destruct m; cbn [fan_step enabled] in *.
  - unfold resume in Hstep.
    destruct (next_settled w (fan_inflight st)) as [job rest].
    destruct (worker_process w job) as [u|err]; injection Hstep as <- <-;
      cbn [fan_due fan_rejected fan_catch fan_settled].
    + right. rewrite length_app.
      split; [split; [auto|split; [auto|]]|].
      * apply Forall_app. split; [exact Hoks|repeat constructor].
      * split; [repeat constructor|]. split; [repeat constructor|]. cbn. lia.
    + left. exists job, err. repeat split; auto.
  - right. unfold react in Hstep.
    destruct (fan_settled st) as [|r later] eqn:Hsettled; [discriminate|].
    inversion Hoks as [|? ? Hok Hoks']; subst. rewrite Hrej in Hstep.
    destruct (fan_index st <? length chunks); injection Hstep as <- <-;
      cbn [fan_due fan_rejected fan_catch fan_settled];
      rewrite ?length_app;
      (split; [auto|]); (split; [constructor|]); (split; [constructor|]);
      cbn; lia.
  - right. unfold start in Hstep.
    destruct (fan_due st) as [|job due']; [discriminate|].
    injection Hstep as <- <-.
    cbn [fan_due fan_rejected fan_catch fan_settled].
    split; [auto|]. split; [repeat constructor|]. split; [repeat constructor|].
    cbn. lia.
  - rewrite Hcatch in Hen. discriminate.
Qed.

(** A run of the fan-out: either no call rejects, the worker is not ended
    and [pMap] resolves; or there is a first rejection, the [catch] block
    runs after it, and [pMap] rejects with the error of that rejection. *)
Lemma run_all_well :
  forall fuel n st tr st',
    all_well st -> fan_measure chunks st <= fuel ->
    run fuel n st = (tr, st') ->
    (none is_rejection tr /\ none is_WorkerEnd tr /\ fan_rejected st' = None) \/
    (exists pre job err mid post',
        tr = pre ++ Settled image_processor job (Rejected err)
                 :: mid ++ WorkerEnd image_processor :: post' /\
        none is_rejection pre /\ none is_WorkerEnd pre /\
        none is_WorkerEnd mid /\
        count is_WorkerProcess pre + count is_WorkerProcess mid
          <= length (fan_due st) + length (fan_settled st) + count is_completion pre /\
        none is_WorkerProcess post' /\ none is_WorkerEnd post' /\
        fan_rejected st' = Some err).
Proof.
  induction fuel as [|fuel IH]; intros n st tr st' Hst Hfuel Hrun.
  - cbn in Hrun. injection Hrun as <- <-. left.
    destruct Hst as [Hrej _]. repeat split; auto; constructor.
  - rewrite fan_run_step in Hrun.
    destruct (choose ticks n st) as [m|] eqn:Hc.
    2:{ injection Hrun as <- <-. left.
        destruct Hst as [Hrej _]. repeat split; auto; constructor. }
    destruct (step st m) as [ev st1] eqn:Hs.
    destruct (run fuel (S n) st1) as [tr2 st2] eqn:Hr.
    injection Hrun as <- <-.
    pose proof (step_measure _ _ (choose_enabled _ _ Hc) Hs) as Hlt.
    destruct (step_all_well _ Hst (choose_enabled _ _ Hc) Hs)
      as [[job [err [-> [Hst1 Hdue]]]]|[Hst1 [Hr1 [He1 Hcount]]]].
    + right.
      destruct (@run_rejection_pending fuel (S n) st1 err (fan_settled st) [] tr2 st2 Hst1 ltac:(lia) Hr)
        as [mid [post' [-> [Hmid [Hcnt [Hp [He' Hrej]]]]]]].
      exists [], job, err, mid, post'. rewrite Hdue in Hcnt.
      split; [reflexivity|]. split; [constructor|]. split; [constructor|].
      split; [exact Hmid|]. split; [cbn; lia|auto].
    + destruct (IH _ _ _ _ Hst1 ltac:(lia) Hr)
        as [[Hr2 [He2 Hrej]]
           |[pre [job [err [mid [post' [-> [Hpre [Hpre' [Hmid [Hcnt [Hp [He' Hrej]]]]]]]]]]]]].
      * left. split; [apply none_app; auto|]. split; [apply none_app; auto|]. exact Hrej.
      * right. exists (ev ++ pre), job, err, mid, post'. rewrite <- app_assoc.
        split; [reflexivity|]. split; [apply none_app; auto|].
        split; [apply none_app; auto|]. split; [exact Hmid|].
        split; [rewrite !count_app; lia|auto].
Qed.

End Ticks.

Section TicksStage.
Context {Page : Type}.
Variable w : World Page.
Implicit Types (tr pre mid post : list (event Page)).

(** The fuel [try_pMap] gives the fan-out lets it run until no job is
    left. *)
Lemma fan_first_measure chunks (started : list nat) :
  length started <= length chunks ->
  fan_measure chunks (fan_first started) <= 5 * length chunks.
Proof.
  intros H. unfold fan_measure, fan_first.
  cbn [fan_index fan_due fan_inflight fan_settled fan_catch length Nat.b2n]. lia.
Qed.

Lemma try_pMap_runs_out config chunks totalAssets totalJobs ticks concurrency :
  let started := seq 0 (Nat.min concurrency (length chunks)) in
  let st := snd (fan_run w config chunks totalAssets totalJobs ticks
                   (5 * length chunks) 0 (fan_first started)) in
  fan_inflight st = [] /\ fan_settled st = [] /\ fan_due st = [] /\
  fan_catch st = false.
Proof.
  intros started st. subst st.
  destruct (fan_run w config chunks totalAssets totalJobs ticks
              (5 * length chunks) 0 (fan_first started)) as [tr st] eqn:Hrun.
  eapply fan_run_completes; [|exact Hrun].
  apply fan_first_measure. subst started. rewrite length_seq. lia.
Qed.

(** The [try] statement: a concurrency below one is refused and no call is
    made; otherwise either no call rejects and the statement resolves, or
    it rejects with the error of the first rejection, the worker ended once,
    after that rejection. Up to there each chunk dispatched beyond the first
    [concurrency] answers a call that resolved before the rejection;
    afterwards nothing is dispatched. *)
Lemma try_pMap_spec config chunks totalAssets totalJobs ticks concurrency :
  let m := try_pMap w config chunks totalAssets totalJobs ticks concurrency in
  (concurrency < 1 /\ trace m = [WorkerEnd image_processor]) \/
  (none is_rejection (trace m) /\ none is_WorkerEnd (trace m) /\
   outcome m = Resolved tt) \/
  (exists pre job err mid post',
      trace m = pre ++ Settled image_processor job (Rejected err)
                    :: mid ++ WorkerEnd image_processor :: post' /\
      none is_rejection pre /\ none is_WorkerEnd pre /\
      none is_WorkerEnd mid /\
      count is_WorkerProcess pre + count is_WorkerProcess mid
        <= concurrency + count is_completion pre /\
      none is_WorkerProcess post' /\ none is_WorkerEnd post' /\
      outcome m = Rejected err).
Proof.
  unfold try_pMap. destruct (Nat.ltb_spec concurrency 1) as [Hlt|Hge];
    [left; split; [exact Hlt|reflexivity]|right].
  set (started := seq 0 (Nat.min concurrency (length chunks))).
  assert (Hlen : length started = Nat.min concurrency (length chunks))
    by (subst started; apply length_seq).
  set (calls := map (process_call (Page:=Page) config chunks) started).
  assert (Hcalls : none is_rejection calls /\ none is_WorkerEnd calls /\
                   count is_WorkerProcess calls = length started /\
                   count is_completion calls = 0).
  { subst calls. clear Hlen. induction started as [|j l IH]; cbn [map].
    - repeat split; constructor.
    - destruct IH as [H1 [H2 [H3 H4]]].
      split; [constructor; [reflexivity|exact H1]|].
      split; [constructor; [reflexivity|exact H2]|].
      unfold count in *. cbn [filter process_call is_WorkerProcess is_completion length].
      split; [rewrite H3; reflexivity|exact H4]. }
  destruct Hcalls as [Hc1 [Hc2 [Hc3 Hc4]]].
  match goal with |- context [fan_run w config chunks totalAssets totalJobs ticks ?fu ?n ?st] =>
    set (st0 := st);
    destruct (fan_run w config chunks totalAssets totalJobs ticks fu n st0)
      as [tr st'] eqn:Hrun end.
  assert (Hwell : all_well st0) by (repeat split; constructor).
  assert (Hfuel : fan_measure chunks st0 <= 5 * length chunks)
    by (apply fan_first_measure; lia).
  unfold trace, outcome. cbn [fst snd].
  destruct (@run_all_well _ w config chunks totalAssets totalJobs ticks _ _ _ _ _
              Hwell Hfuel Hrun)
    as [[H1 [H2 H3]]
       |[pre [job [err [mid [post' [-> [Hpre [Hpre' [Hmid [Hcnt [Hp [He Hrej]]]]]]]]]]]]].
  - left. rewrite H3. split; [apply none_app; auto|]. split; [apply none_app; auto|].
    reflexivity.
  - right. exists (calls ++ pre), job, err, mid, post'. rewrite Hrej, <- app_assoc.
    split; [reflexivity|]. split; [apply none_app; auto|].
    split; [apply none_app; auto|]. split; [exact Hmid|].
    split; [|auto].
    rewrite !count_app, Hc3, Hc4, Hlen.
    cbn [fan_due fan_settled st0 fan_first length] in Hcnt. lia.
Qed.

(** The three ways a run of [processImages_ticks] can go, as for
    [processImages]. *)
Lemma processImages_ticks_cases ticks queue config :
  let dir := imagesDir config in
  let chunks := Lodash.chunk queue 25 in
  let f := try_pMap w config chunks (length queue) (length chunks) ticks (cpus_logical w) in
  let create := CreateWorker (Page:=Page) image_processor in
  let zero := WriteLine (Page:=Page) (progress_line (length queue) 0) in
  (exists err,
      processImages_ticks w ticks queue config = ([create; FsReaddir dir], Rejected err)) \/
  (exists existing head,
      (head = [create; zero] \/ head = [create; FsReaddir dir; zero]) /\
      processImages_ticks w ticks queue config =
        match outcome f with
        | Rejected err => (head ++ trace f, Rejected err)
        | Resolved _ =>
            (head ++ trace f
               ++ WorkerEnd image_processor
               :: WriteLine (images_done_line w (length queue))
               :: trace (removeUnusedImages w queue config existing),
             outcome (removeUnusedImages w queue config existing))
        end).
Proof.
  intros dir chunks f create zero.
  unfold processImages_ticks. fold dir chunks f.
  destruct (emptyOutputDir config) eqn:Eempty; cbn [negb].
  - right. exists [], [create; zero]. split; [left; reflexivity|].
    unfold bind, emit, perform, ret, trace, outcome. cbn [fst snd].
    destruct f as [trf [u|err]]; cbn [fst snd]; [|reflexivity].
    destruct (removeUnusedImages w queue config []) as [tr r].
    cbn [fst snd app]. rewrite <- ?app_assoc. reflexivity.
  - destruct (fs_readdir w dir) as [existing|err] eqn:Eread.
    + right. exists existing, [create; FsReaddir dir; zero].
      split; [right; reflexivity|].
      unfold bind, emit, perform, ret, trace, outcome. cbn [fst snd].
      destruct f as [trf [u|err]]; cbn [fst snd]; [|reflexivity].
      destruct (removeUnusedImages w queue config existing) as [tr r].
      cbn [fst snd app]. rewrite <- ?app_assoc. reflexivity.
    + left. exists err. reflexivity.
Qed.

End TicksStage.

(** C6. In the image stage, whatever the order in which the pending jobs
    run, take the first worker call that rejects, with error [err]. The
    stage rejects with [err]. The worker is ended exactly once, after that
    rejection. Once it is ended no chunk is dispatched any more. Up to there
    the chunks dispatched are at most the number of logical processors plus
    the number of calls that resolved before the rejection: a chunk
    dispatched after the rejection answers a call that had resolved before
    it. *)
Theorem first_image_failure_wins_on_every_schedule :
  forall (Page : Type) (w : World Page) (ticks : nat -> move)
         (queue : list AssetJob) (config : Config)
         (pre post : list (event Page)) (worker : string) (job : nat) (err : error),
    trace (processImages_ticks w ticks queue config)
      = pre ++ Settled worker job (Rejected err) :: post ->
    none is_rejection pre ->
    outcome (processImages_ticks w ticks queue config) = Rejected err /\
    none is_WorkerEnd pre /\
    exists mid post',
      post = mid ++ WorkerEnd image_processor :: post' /\
      none is_WorkerEnd mid /\
      count is_WorkerProcess (pre ++ mid)
        <= cpus_logical w + count is_completion pre /\
      none is_WorkerProcess post' /\
      none is_WorkerEnd post'.
Proof.
  intros Page w ticks queue config pre post worker job err Htrace Hpre.
  assert (Hin : In (Settled worker job (Rejected err))
                  (trace (processImages_ticks w ticks queue config)))
    by (rewrite Htrace; apply in_elt).
  destruct (processImages_ticks_cases w ticks queue config)
    as [[err' Hrun]|[existing [head [Hhead Hrun]]]].
  { rewrite Hrun in Hin. simpl in Hin. intuition discriminate. }
  assert (Hhead' : none is_rejection head /\ none is_WorkerEnd head /\
                   count is_WorkerProcess head = 0 /\ count is_completion head = 0).
  { destruct Hhead as [->| ->]; repeat split; repeat constructor. }
  destruct Hhead' as [Hhead_rej [Hhead_end [Hhead_calls Hhead_done]]]. clear Hhead.
  set (chunks := Lodash.chunk queue 25) in *.
  pose proof (try_pMap_spec w config chunks (length queue) (length chunks) ticks
                (cpus_logical w)) as Hspec.
  set (f := try_pMap _ _ _ _ _ _ _) in *. cbv zeta in Hspec.
  destruct Hspec as [[_ Hf]|[[Hrej [_ Hout]]
    |[pre0 [job0 [err0 [mid [post' [Hf [Hpre0 [Hend0 [Hmid [Hcnt [Hp [He Hout]]]]]]]]]]]]]].
  - (* the mapper refused the concurrency: no call was made *)
    exfalso.
    assert (Hnone : none is_rejection (trace (processImages_ticks w ticks queue config))).
    { rewrite Hrun. destruct (outcome f); unfold trace at 1; cbn [fst]; rewrite Hf;
        apply none_app; split; auto; repeat constructor.
      apply removeUnusedImages_quiet; reflexivity. }
    eapply none_In in Hin; [|exact Hnone]. discriminate.
  - (* the fan-out resolved: no call rejected at all *)
    exfalso. rewrite Hrun, Hout in Hin. unfold trace at 1 in Hin. cbn [fst] in Hin.
    assert (Hnone : none is_rejection
                      (head ++ trace f ++ WorkerEnd image_processor
                         :: WriteLine (images_done_line w (length queue))
                         :: trace (removeUnusedImages w queue config existing))).
    { apply none_app; split; [exact Hhead_rej|].
      apply none_app; split; [exact Hrej|].
      constructor; [reflexivity|]. constructor; [reflexivity|].
      apply removeUnusedImages_quiet; reflexivity. }
    eapply none_In in Hin; [|exact Hnone]. discriminate.
  - rewrite Hrun, Hout in Htrace |- *. unfold trace at 1 in Htrace.
    unfold outcome at 1. cbn [fst snd] in *. rewrite Hf in Htrace.
    assert (E : (head ++ pre0) ++ Settled image_processor job0 (Rejected err0)
                  :: mid ++ WorkerEnd image_processor :: post'
                = pre ++ Settled worker job (Rejected err) :: post).
    { rewrite <- Htrace, <- !app_assoc. reflexivity. }
    apply first_split_unique with (p := is_rejection) in E;
      [|reflexivity|reflexivity|apply none_app; split; assumption|assumption].
    destruct E as [Epre [Eevent Epost]].
    injection Eevent as _ _ ->.
    split; [reflexivity|]. split.
    + rewrite <- Epre. apply none_app. split; assumption.
    + exists mid, post'. split; [symmetry; exact Epost|]. split; [exact Hmid|].
      split; [|split; assumption].
      rewrite <- Epre, !count_app, Hhead_calls, Hhead_done. lia.
Qed.

(** Three chunks on two processors. The call for the second chunk resolves
    and the call for the first rejects before anything reacts to either:
    the handler of the resolved call runs first and takes the third chunk,
    which is dispatched after the rejection and before the worker is
    ended. *)
Lemma first_image_failure_wins_on_every_schedule_witness :
  let cfg := demo_config true true false in
  let queue := images_queue_of 60 in
  let world := second_first_world queue cfg in
  exists pre post,
    trace (processImages_ticks world two_at_once queue cfg)
      = pre ++ Settled image_processor 0 (Rejected "worker call failed") :: post /\
    none is_rejection pre /\
    count is_completion pre = 1 /\
    outcome (processImages_ticks world two_at_once queue cfg)
      = Rejected "worker call failed" /\
    exists mid post',
      post = mid ++ WorkerEnd image_processor :: post' /\
      none is_WorkerEnd mid /\
      count is_WorkerProcess (pre ++ mid) <= 2 + count is_completion pre /\
      none is_WorkerProcess post' /\
      none is_WorkerEnd post'.
Proof.
  intros cfg queue world.
  pose (pre := firstn 6 (trace (processImages_ticks world two_at_once queue cfg))).
  pose (post := skipn 7 (trace (processImages_ticks world two_at_once queue cfg))).
  assert (Htrace : trace (processImages_ticks world two_at_once queue cfg)
                   = pre ++ Settled image_processor 0 (Rejected "worker call failed") :: post)
    by (vm_compute; reflexivity).
  assert (Hpre : none is_rejection pre) by (vm_compute; repeat constructor).
  exists pre, post.
  split; [exact Htrace|]. split; [exact Hpre|]. split; [vm_compute; reflexivity|].
  destruct (@first_image_failure_wins_on_every_schedule nat world two_at_once queue cfg
              pre post image_processor 0 "worker call failed" Htrace Hpre)
    as [Hout [_ Hpost]].
  split; [exact Hout|exact Hpost].
Defined.

(** On that run the third chunk is dispatched after the first call has
    rejected. *)
Lemma chunk_dispatched_after_image_failure :
  let cfg := demo_config true true false in
  let queue := images_queue_of 60 in
  let world := second_first_world queue cfg in
  ~ (forall (pre post : list (event nat)) (worker : string) (job : nat) (err : error),
        trace (processImages_ticks world two_at_once queue cfg)
          = pre ++ Settled worker job (Rejected err) :: post ->
        none is_rejection pre ->
        none is_WorkerProcess post /\
        In (WorkerEnd image_processor) post /\
        outcome (processImages_ticks world two_at_once queue cfg) = Rejected err).
Proof.
  intros cfg queue world Hclaim.
  pose (pre := firstn 6 (trace (processImages_ticks world two_at_once queue cfg))).
  pose (post := skipn 7 (trace (processImages_ticks world two_at_once queue cfg))).
  destruct (Hclaim pre post image_processor 0 "worker call failed") as [Hnone _].
  - vm_compute. reflexivity.
  - vm_compute. repeat constructor.
  - vm_compute in Hnone. inversion Hnone as [|e l Hcall _]. discriminate Hcall.
Qed.

(** ** The prompt schedule

    When every reaction runs before the next call settles, the fan-out is
    the one [pMap_loop] describes. *)

Section Prompt.
Context {Page : Type}.
Variable w : World Page.
Variable config : Config.
Variable chunks : list (list AssetJob).
Variables totalAssets totalJobs : nat.

Local Abbreviation run := (fan_run w config chunks totalAssets totalJobs promptly).

Lemma choose_promptly n st :
  choose promptly n st = find (enabled st) [Start; React; Catch; Resume].
Proof.
  unfold choose, promptly. cbn [find].
  destruct (enabled st Start); reflexivity.
Qed.

Lemma prompt_stragglers :
  forall fuel inflight progress fuel' n index first,
    length inflight <= fuel ->
    2 * length inflight <= fuel' ->
    let r := run fuel' n
               {| fan_index := index; fan_due := []; fan_inflight := inflight;
                  fan_settled := []; fan_progress := progress;
                  fan_rejected := Some first; fan_catch := false |} in
    fst r = stragglers w fuel totalAssets totalJobs inflight progress /\
    fan_rejected (snd r) = Some first.
Proof.
  induction fuel as [|fuel IH]; intros inflight progress fuel' n index first Hfuel Hfuel'.
  - destruct inflight; [|simpl in Hfuel; lia].
    destruct fuel'; cbn; auto.
  - destruct inflight as [|j inflight'].
    + destruct fuel'; cbn; auto.
    + destruct fuel' as [|[|fuel']]; [simpl in Hfuel'; lia|simpl in Hfuel'; lia|].
      assert (Hne : j :: inflight' <> []) by discriminate.
      pose proof (next_settled_shorter w Hne) as Hlen.
      cbv zeta. rewrite fan_run_step. cbn [stragglers].
      rewrite choose_promptly.
      cbn [enabled fan_due fan_settled fan_inflight fan_catch is_empty negb andb find].
      cbn [fan_step]. unfold resume. cbn [fan_inflight fan_progress].
      destruct (next_settled w (j :: inflight')) as [job rest].
      cbn [snd] in Hlen.
      assert (Hrest : length rest <= fuel) by (simpl in *; lia).
      assert (Hrest' : 2 * length rest <= fuel') by (simpl in *; lia).
      destruct (worker_process w job) as [u|err];
        cbn [fan_index fan_due fan_inflight fan_settled fan_progress fan_rejected
             fan_catch app];
        rewrite fan_run_step; rewrite choose_promptly;
        cbn [enabled fan_due fan_settled fan_inflight fan_catch is_empty negb andb find];
        cbn [fan_step]; unfold react;
        cbn [fan_index fan_due fan_inflight fan_settled fan_progress fan_rejected
             fan_catch].
      * specialize (IH rest (S progress) fuel' (S (S n)) index first Hrest Hrest').
        cbv zeta in IH. destruct IH as [IH1 IH2].
        destruct (run fuel' (S (S n)) _) as [tr st'].
        cbn [fst snd app] in *. rewrite IH1. auto.
      * specialize (IH rest progress fuel' (S (S n)) index first Hrest Hrest').
        cbv zeta in IH. destruct IH as [IH1 IH2].
        destruct (run fuel' (S (S n)) _) as [tr st'].
        cbn [fst snd app] in *. rewrite IH1. auto.
Qed.

Lemma prompt_loop :
  forall fuel index inflight progress fuel' n,
    length inflight + (length chunks - index) <= fuel ->
    5 * (length chunks - index) + 3 * length inflight <= fuel' ->
    let f := pMap_loop w fuel config chunks totalAssets totalJobs index inflight progress in
    let r := run fuel' n
               {| fan_index := index; fan_due := []; fan_inflight := inflight;
                  fan_settled := []; fan_progress := progress;
                  fan_rejected := None; fan_catch := false |} in
    fst r = match settles f with
            | Resolved _ => before f ++ after f
            | Rejected _ => before f ++ WorkerEnd image_processor :: after f
            end /\
    fan_rejected (snd r) = match settles f with
                           | Resolved _ => None
                           | Rejected err => Some err
                           end.
Proof.
  induction fuel as [|fuel IH]; intros index inflight progress fuel' n Hfuel Hfuel'.
  - destruct inflight; [|simpl in Hfuel; lia].
    destruct fuel'; cbn; auto.
  - destruct inflight as [|j inflight'].
    + destruct fuel'; cbn; auto.
    + destruct fuel' as [|[|[|fuel']]]; try (simpl in Hfuel'; lia).
      assert (Hne : j :: inflight' <> []) by discriminate.
      pose proof (next_settled_shorter w Hne) as Hlen.
      cbv zeta. rewrite fan_run_step. cbn [pMap_loop].
      rewrite choose_promptly.
      cbn [enabled fan_due fan_settled fan_inflight fan_catch is_empty negb andb find].
      cbn [fan_step]. unfold resume. cbn [fan_inflight fan_progress].
      destruct (next_settled w (j :: inflight')) as [job rest].
      cbn [snd] in Hlen.
      destruct (worker_process w job) as [u|err];
        cbn [fan_index fan_due fan_inflight fan_settled fan_progress fan_rejected
             fan_catch app before settles after];
        rewrite fan_run_step; rewrite choose_promptly;
        cbn [enabled fan_due fan_settled fan_inflight fan_catch is_empty negb andb find];
        cbn [fan_step]; unfold react;
        cbn [fan_index fan_due fan_inflight fan_settled fan_progress fan_rejected
             fan_catch].
      * destruct (Nat.ltb_spec index (length chunks)) as [Hlt|Hge].
        -- rewrite fan_run_step. rewrite choose_promptly.
           cbn [enabled fan_due fan_settled fan_inflight fan_catch is_empty negb andb
                find app].
           cbn [fan_step]. unfold start.
           cbn [fan_index fan_due fan_inflight fan_settled fan_progress fan_rejected
                fan_catch length map].
           specialize (IH (index + 1) (rest ++ [index]) (S progress) fuel' (S (S (S n)))).
           rewrite length_app in IH. cbn [length] in IH.
           specialize (IH ltac:(simpl in *; lia) ltac:(simpl in *; lia)).
           cbv zeta in IH. destruct IH as [IH1 IH2].
           replace (S index) with (index + 1) by lia.
           destruct (run fuel' (S (S (S n))) _) as [tr st'].
           cbn [fst snd app] in *. rewrite IH1, IH2.
           destruct (settles _); auto.
        -- cbn [length map app].
           specialize (IH (index + 0) (rest ++ []) (S progress) (S fuel') (S (S n))).
           rewrite length_app in IH. cbn [length] in IH.
           specialize (IH ltac:(simpl in *; lia) ltac:(simpl in *; lia)).
           cbv zeta in IH. destruct IH as [IH1 IH2].
           rewrite Nat.add_0_r, app_nil_r in IH1, IH2 |- *.
           destruct (run (S fuel') (S (S n)) _) as [tr st'].
           cbn [fst snd app] in *. rewrite IH1, IH2.
           destruct (settles _); auto.
      * rewrite fan_run_step. rewrite choose_promptly.
        cbn [enabled fan_due fan_settled fan_inflight fan_catch is_empty negb andb find].
        cbn [fan_step]. unfold catch.
        cbn [fan_index fan_due fan_inflight fan_settled fan_progress fan_rejected
             fan_catch].
        destruct (@prompt_stragglers fuel rest progress fuel' (S (S (S n))) index err
                    ltac:(simpl in *; lia) ltac:(simpl in *; lia)) as [H1 H2].
        destruct (run fuel' (S (S (S n))) _) as [tr st'].
        cbn [fst snd app] in *. rewrite H1. auto.
Qed.

(** The [try] statement on the prompt schedule. *)
Lemma try_pMap_promptly concurrency :
  try_pMap w config chunks totalAssets totalJobs promptly concurrency =
    let f := pMap w config chunks totalAssets totalJobs concurrency in
    match settles f with
    | Resolved _ => (before f ++ after f, Resolved tt)
    | Rejected err => (before f ++ WorkerEnd image_processor :: after f, Rejected err)
    end.
Proof.
  unfold try_pMap, pMap. destruct (concurrency <? 1); [reflexivity|].
  cbn [before settles after].
  set (started := seq 0 (Nat.min concurrency (length chunks))).
  assert (Hlen : length started = Nat.min concurrency (length chunks))
    by (subst started; apply length_seq).
  unfold fan_first.
  destruct (@prompt_loop (length chunks) (length started) started 0
              (5 * length chunks) 0 ltac:(lia) ltac:(lia)) as [H1 H2].
  destruct (run (5 * length chunks) 0 _) as [tr st'].
  cbn [fst snd] in *. rewrite H1, H2.
  destruct (settles _); rewrite <- app_assoc; reflexivity.
Qed.

End Prompt.

(** [processImages] is [processImages_ticks] on the prompt schedule. *)
Lemma processImages_ticks_promptly :
  forall (Page : Type) (w : World Page) (queue : list AssetJob) (config : Config),
    processImages_ticks w promptly queue config = processImages w queue config.
Proof.
  intros Page w queue config. unfold processImages_ticks, processImages.
  rewrite try_pMap_promptly. reflexivity.
Qed.

(** C8. In the image stage, whenever a worker call resolves, the next thing
    that happens is that the progress line is written, showing
    [Math.round(n * 100 / N)] percent, where [n] counts the calls that have
    resolved so far (this one included) and [N] is the number of chunks: the
    progress advances by one per chunk, not per image. *)
Theorem progress_line_counts_chunks :
  forall (Page : Type) (w : World Page) (queue : list AssetJob) (config : Config)
         (pre post : list (event Page)) (worker : string) (job : nat),
    trace (processImages w queue config)
      = pre ++ Settled worker job (Resolved tt) :: post ->
    exists post',
      post = WriteLine
               (progress_line (length queue)
                  (Math_round_div (S (count is_completion pre) * 100)
                     (length (Lodash.chunk queue 25))))
             :: post'.
Proof.
  intros Page w queue config pre post worker job Htrace.
  set (chunks := Lodash.chunk queue 25).
  cut (reports_progress (length queue) (length chunks) 0
         (trace (processImages w queue config))).
  { intros H. exact (H pre worker job post Htrace). }
  clear Htrace.
  destruct (processImages_cases w queue config)
    as [[err' [_ [_ Hrun]]]|[existing [head [Hhead Hrun]]]].
  { rewrite Hrun. apply reports_progress_none. repeat constructor. }
  assert (Hhead' : none is_completion head).
  { destruct Hhead as [[_ [_ ->]]|[_ [_ ->]]]; repeat constructor. }
  clear Hhead. fold chunks in Hrun.
  pose proof (pMap_settles w config chunks (length queue) (length chunks) (cpus_logical w))
    as Hsettles.
  destruct (pMap_progress w config chunks (length queue) (length chunks) (cpus_logical w))
    as [Hb Ha].
  set (f := pMap _ _ _ _ _ _) in *. cbv zeta in Hsettles.
  rewrite Hrun. clear Hrun.
  destruct (settles f) as [u|err']; unfold trace; cbn [fst].
  - destruct Hsettles as [Hafter _]. rewrite Hafter. cbn [app].
    apply reports_progress_app; [apply reports_progress_none; exact Hhead'|].
    rewrite (none_count Hhead'). cbn [Nat.add].
    apply reports_progress_app; [exact Hb|].
    apply reports_progress_none.
    constructor; [reflexivity|]. constructor; [reflexivity|].
    apply removeUnusedImages_quiet; reflexivity.
  - apply reports_progress_app; [apply reports_progress_none; exact Hhead'|].
    rewrite (none_count Hhead'). cbn [Nat.add].
    apply reports_progress_app; [exact Hb|].
    apply reports_progress_skip; [reflexivity|exact Ha].
Qed.

(** Sixty images make three chunks; when the second call resolves the line
    shows 67 percent. *)
Lemma progress_line_counts_chunks_witness :
  let cfg := demo_config true true false in
  let queue := images_queue_of 60 in
  let world := calm_world [] [] queue [] cfg in
  exists pre post,
    trace (processImages world queue cfg)
      = pre ++ Settled image_processor 1 (Resolved tt) :: post /\
    count is_completion pre = 1 /\
    exists post', post = WriteLine "Processing images (60 images) - 67%" :: post'.
Proof.
  intros cfg queue world.
  pose (pre := firstn 7 (trace (processImages world queue cfg))).
  pose (post := skipn 8 (trace (processImages world queue cfg))).
  assert (Htrace : trace (processImages world queue cfg)
                   = pre ++ Settled image_processor 1 (Resolved tt) :: post)
    by (vm_compute; reflexivity).
  exists pre, post.
  split; [exact Htrace|]. split; [vm_compute; reflexivity|].
  exact (@progress_line_counts_chunks nat world queue cfg pre post image_processor 1 Htrace).
Defined.

(** ** The render stage *)

Section RenderStage.
Context {Page : Type}.
Variable w : World Page.
Implicit Types (inflight : list nat).

Lemma skipn_nth (l : list nat) :
  forall index, index < length l -> skipn index l = nth index l 0 :: skipn (S index) l.
Proof.
  induction l as [|x l IH]; intros index Hlt; [simpl in Hlt; lia|].
  destruct index as [|index]; [reflexivity|].
  simpl in Hlt. cbn [skipn nth]. rewrite IH by lia. reflexivity.
Qed.

(** The call that settles next is one of the calls in flight, and leaves. *)
Lemma next_settled_count (p : nat -> bool) inflight :
  inflight <> [] ->
  count p inflight
    = (if p (fst (next_settled w inflight)) then 1 else 0)
      + count p (snd (next_settled w inflight)).
Proof.
  intros Hne. unfold next_settled, remove_at. cbn [fst snd].
  assert (Hlen : length inflight <> 0) by (destruct inflight; simpl; congruence).
  pose proof (Nat.mod_upper_bound (settles_next w inflight) _ Hlen) as Hlt.
  set (index := settles_next w inflight mod length inflight) in *.
  rewrite <- (firstn_skipn index inflight) at 1.
  rewrite !count_app.
  rewrite (skipn_nth inflight Hlt). unfold count at 2. cbn [filter].
  destruct (p (nth index inflight 0)); cbn [length]; fold (count p (skipn (S index) inflight));
    lia.
Qed.

Lemma settle_renders_spec :
  forall fuel inflight rejected,
    length inflight <= fuel ->
    let run := settle_renders w fuel inflight rejected in
    count is_WorkerEnd (fst run) = count (render_rejects w) inflight /\
    Forall (fun e => is_straggler_event e = true \/ is_WorkerEnd e = true) (fst run) /\
    (snd run = None <-> rejected = None /\ count (render_rejects w) inflight = 0).
Proof.
  induction fuel as [|fuel IH]; intros inflight rejected Hfuel.
  - destruct inflight; [|simpl in Hfuel; lia].
    simpl. repeat split; try constructor; tauto.
  - destruct inflight as [|j inflight'].
    + simpl. repeat split; try constructor; tauto.
    + cbn [settle_renders].
      assert (Hne : j :: inflight' <> []) by discriminate.
      pose proof (next_settled_count (render_rejects w) Hne) as Hcount.
      pose proof (next_settled_shorter w Hne) as Hlen.
      destruct (next_settled w (j :: inflight')) as [job rest].
      cbn [fst snd] in Hcount, Hlen.
      assert (Hrest : length rest <= fuel) by (simpl in *; lia).
      rewrite Hcount.
      assert (Hjob : render_rejects w job
                     = match worker_render w job with
                       | Rejected _ => true | Resolved _ => false end) by reflexivity.
      destruct (worker_render w job) as [u|err]; rewrite Hjob; cbn [Nat.add].
      * specialize (IH rest rejected Hrest).
        destruct (settle_renders w fuel rest rejected) as [tr r].
        cbn [fst snd] in *. destruct IH as [IH1 [IH2 IH3]].
        split; [|split].
        -- unfold count in *. cbn [filter is_WorkerEnd]. exact IH1.
        -- constructor; [left; reflexivity|exact IH2].
        -- exact IH3.
      * set (first := match rejected with Some e => Some e | None => Some err end).
        specialize (IH rest first Hrest).
        destruct (settle_renders w fuel rest first) as [tr r].
        cbn [fst snd] in *. destruct IH as [IH1 [IH2 IH3]].
        split; [|split].
        -- unfold count in *. cbn [filter is_WorkerEnd length]. rewrite IH1. reflexivity.
        -- constructor; [left; reflexivity|].
           constructor; [right; reflexivity|exact IH2].
        -- split.
           ++ intros Hr. apply IH3 in Hr. destruct Hr as [Hfirst _].
              subst first. destruct rejected; discriminate.
           ++ intros [_ H]. lia.
Qed.

(** The two ways a run of [renderHTML] can go. *)
Lemma renderHTML_cases (renderQueue : list Page) app hashString :
  let chunks := Lodash.chunk renderQueue 350 in
  let settling := settle_renders w (length chunks) (seq 0 (length chunks)) None in
  renderHTML w renderQueue app hashString =
    match snd settling with
    | Some err =>
        (CreateWorker html_writer
           :: dispatch_renders chunks app hashString ++ fst settling,
         Rejected err)
    | None =>
        (CreateWorker html_writer
           :: dispatch_renders chunks app hashString ++ fst settling
           ++ [WorkerEnd html_writer;
               Log ("Render HTML (" ++ show (length renderQueue) ++ " files) - "
                    ++ timer w "render" ++ "s")],
         Resolved tt)
    end.
Proof.
  intros chunks settling. unfold renderHTML, promise_all_renders.
  fold chunks. fold settling.
  destruct settling as [tr [err|]]; reflexivity.
Qed.

Lemma dispatch_renders_events chunks app hashString :
  Forall (fun e : event Page =>
            match e with
            | WorkerRender _ payload => render_hash payload = hashString
            | _ => False
            end)
    (dispatch_renders chunks app hashString).
Proof.
  unfold dispatch_renders. apply Forall_forall. intros e He.
  apply in_map_iff in He. destruct He as [[job pages] [<- _]]. reflexivity.
Qed.

(** The worker of the render stage is ended once when every call resolves,
    and once for each call that rejects otherwise. *)
Lemma renderHTML_worker_ends (renderQueue : list Page) app hashString :
  let rejecting :=
    count (render_rejects w) (seq 0 (length (Lodash.chunk renderQueue 350))) in
  count is_WorkerEnd (trace (renderHTML w renderQueue app hashString))
    = Nat.max 1 rejecting.
Proof.
  intros rejecting. rewrite renderHTML_cases.
  set (chunks := Lodash.chunk renderQueue 350) in *.
  destruct (@settle_renders_spec (length chunks) (seq 0 (length chunks)) None)
    as [Hends [_ Hnone]]; [rewrite length_seq; apply le_n|].
  fold rejecting in Hends, Hnone.
  assert (Hd : count is_WorkerEnd (dispatch_renders chunks app hashString) = 0).
  { apply none_count. eapply Forall_impl; [|apply dispatch_renders_events].
    intros e He. destruct e; try contradiction. reflexivity. }
  destruct (snd (settle_renders w (length chunks) (seq 0 (length chunks)) None))
    as [err|] eqn:Esnd; unfold trace; cbn [fst].
  - assert (rejecting <> 0).
    { intros E. assert (H : @None error = None) by reflexivity.
      destruct Hnone as [_ Hnone]. specialize (Hnone (conj eq_refl E)). congruence. }
    change (CreateWorker html_writer :: ?l) with ([CreateWorker (Page:=Page) html_writer] ++ l).
    rewrite !count_app, Hd, Hends. unfold count at 1.
    cbn [filter is_WorkerEnd length Nat.add]. lia.
  - destruct Hnone as [Hnone _]. destruct (Hnone eq_refl) as [_ Hzero].
    change (CreateWorker html_writer :: ?l) with ([CreateWorker (Page:=Page) html_writer] ++ l).
    rewrite !count_app, Hd, Hends, Hzero. reflexivity.
Qed.

End RenderStage.

(** In the image stage the worker is ended exactly once, whatever the calls
    do, as soon as the stage gets past the read of the images directory. *)
Lemma processImages_worker_ends {Page} (w : World Page) queue config :
  emptyOutputDir config = true \/
    (exists existing, fs_readdir w (imagesDir config) = Resolved existing) ->
  count is_WorkerEnd (trace (processImages w queue config)) = 1.
Proof.
  intros Hread.
  destruct (processImages_cases w queue config)
    as [[err [Eempty [Eread _]]]|[existing [head [Hhead Hrun]]]].
  { destruct Hread as [E|[existing E]]; congruence. }
  assert (Hhead' : count is_WorkerEnd head = 0).
  { destruct Hhead as [[_ [_ ->]]|[_ [_ ->]]]; reflexivity. }
  destruct (fanout_none w is_WorkerEnd config (Lodash.chunk queue 25) (length queue)
              (length (Lodash.chunk queue 25)) (cpus_logical w)) as [Hb Ha].
  { intros e He. apply fanout_event_kind in He. tauto. }
  rewrite Hrun. clear Hrun.
  set (f := pMap _ _ _ _ _ _) in *.
  pose proof (none_count (removeUnusedImages_quiet w queue config existing is_WorkerEnd
                            (fun _ => eq_refl) (fun _ => eq_refl))) as Hq.
  unfold trace in Hq.
  destruct (settles f); unfold trace; cbn [fst].
  - change (WorkerEnd image_processor :: WriteLine ?l :: ?t)
      with ([WorkerEnd (Page:=Page) image_processor; WriteLine l] ++ t).
    rewrite !count_app, Hhead', (none_count Hb), (none_count Ha), Hq.
    reflexivity.
  - change (WorkerEnd image_processor :: ?t)
      with ([WorkerEnd (Page:=Page) image_processor] ++ t).
    rewrite !count_app, Hhead', (none_count Hb), (none_count Ha). reflexivity.
Qed.

(** C5 (the code departs from it). A render queue of 351 pages makes two
    chunks; when both calls to [worker.render] reject, each callback runs its
    own [catch] block and the worker of the render stage is ended twice. *)
Theorem two_failed_renders_end_the_worker_twice :
  let cfg := demo_config false false false in
  let pages := seq 0 351 in
  let world := flaky_world [0; 1] pages [] [] [] cfg in
  let run := renderHTML world pages {| config := cfg |} "gridsome" in
  length (Lodash.chunk pages 350) = 2 /\
  outcome run = Rejected "worker call failed" /\
  count is_WorkerEnd (trace run) = 2.
Proof. vm_compute. repeat split. Qed.

(** ** The pipeline *)

Section Pipeline.
Context {Page : Type}.
Variable w : World Page.

Lemma run_stages_spec (l : list (stage * Async Page unit)) :
  l <> [] ->
  exists n,
    1 <= n <= length l /\
    trace (run_stages l) = concat (map (fun s => trace (snd s)) (firstn n l)) /\
    (forall s, In s (firstn (n - 1) l) -> outcome (snd s) = Resolved tt) /\
    match outcome (run_stages l) with
    | Resolved _ => n = length l /\ forall s, In s l -> outcome (snd s) = Resolved tt
    | Rejected err =>
        exists s, nth_error l (n - 1) = Some s /\ outcome (snd s) = Rejected err
    end.
Proof.
  induction l as [|s l IH]; [congruence|]. intros _.
  cbn [run_stages]. rewrite trace_bind, outcome_bind.
  destruct (outcome (snd s)) as [[]|err] eqn:Es.
  - destruct l as [|s' l'].
    + exists 1. cbn. rewrite app_nil_r. repeat split; try lia; try tauto.
      intros s0 [<-|[]]. exact Es.
    + destruct IH as [n [Hn [Htrace [Hbefore Hout]]]]; [discriminate|].
      exists (S n). split; [cbn [length] in *; lia|]. split; [|split].
      * cbn [firstn map concat]. rewrite Htrace. reflexivity.
      * replace (S n - 1) with (S (n - 1)) by lia. cbn [firstn].
        intros s0 [<-|H]; [exact Es|apply Hbefore; exact H].
      * destruct (outcome (run_stages (s' :: l'))) as [u|err].
        -- destruct Hout as [-> Hall]. split; [reflexivity|].
           intros s0 [<-|H]; [exact Es|apply Hall; exact H].
        -- destruct Hout as [s0 [Hnth Hs0]]. exists s0. split; [|exact Hs0].
           replace (S n - 1) with (S (n - 1)) by lia. exact Hnth.
  - exists 1. split; [cbn [length]; lia|]. split; [|split].
    + cbn. rewrite app_nil_r. reflexivity.
    + intros s0 [].
    + exists s. split; [reflexivity|exact Es].
Qed.

(** Three ways to peel the first awaited call off a computation: the call
    is a step of its own, with or without a value, or it opens a step that
    goes on. *)
Lemma void_bind_step {A B} (m : Async Page A) (k : A -> Async Page B)
  (K : unit -> Async Page unit) :
  (forall a, outcome m = Resolved a -> void (k a) = K tt) ->
  void (bind m k) = bind (void m) K.
Proof.
  intros H. destruct m as [tr [a|e]]; [|reflexivity].
  specialize (H a eq_refl).
  unfold bind, void, trace, outcome in *. cbn [fst snd] in *.
  rewrite <- H. destruct (k a) as [tr' [b|e]]; reflexivity.
Qed.

Lemma void_bind_unit_step {B} (m : Async Page unit) (k : unit -> Async Page B)
  (K : unit -> Async Page unit) :
  (outcome m = Resolved tt -> void (k tt) = K tt) ->
  void (bind m k) = bind m K.
Proof.
  intros H. destruct m as [tr [[]|e]]; [|reflexivity].
  specialize (H eq_refl).
  unfold bind, void, trace, outcome in *. cbn [fst snd] in *.
  rewrite <- H. destruct (k tt) as [tr' [b|e]]; reflexivity.
Qed.

Lemma void_bind_open_step {A B} (m : Async Page A) (k : A -> Async Page B)
  (s : A -> Async Page unit) (K : unit -> Async Page unit) :
  (forall a, outcome m = Resolved a -> void (k a) = bind (s a) K) ->
  void (bind m k) = bind (bind m s) K.
Proof.
  intros H. destruct m as [tr [a|e]]; [|reflexivity].
  specialize (H a eq_refl).
  unfold bind, void, trace, outcome in *. cbn [fst snd] in *.
  destruct (k a) as [tr' r']. destruct (s a) as [ts [u|e]]; cbn [fst snd] in *.
  - destruct (K u) as [tK rK]. cbn [fst snd] in *.
    injection H as -> <-. rewrite app_assoc.
    destruct r'; reflexivity.
  - injection H as -> H. rewrite H. reflexivity.
Qed.

(** [build] is its steps run one after the other. *)
Lemma build_run_stages context args :
  void (build w context args) = run_stages (stages w context args).
Proof.
  unfold build, stages. cbv zeta. cbn [run_stages snd].
  (* SetUp *)
  apply void_bind_open_step. intros _ _.
  apply void_bind_open_step. intros _ _.
  apply void_bind_step. intros app Happ.
  change (createApp_oracle w context args = Resolved app) in Happ.
  rewrite Happ. cbn [value_or].
  (* BeforeBuild, EmptyOutputDir *)
  apply void_bind_unit_step. intros _.
  apply void_bind_unit_step. intros _.
  (* Compile *)
  apply void_bind_step. intros stats Hstats.
  rewrite Hstats. cbn [value_or].
  (* RenderQueue *)
  apply void_bind_open_step. intros queue Hqueue.
  change (createRenderQueue_oracle w = Resolved queue) in Hqueue.
  rewrite Hqueue. cbn [value_or].
  apply void_bind_step. intros redirects _.
  (* Queries *)
  apply void_bind_step. intros queue' Hqueue'.
  match type of Hqueue' with outcome (perform _ ?r) = _ =>
    change (r = Resolved queue') in Hqueue' end.
  rewrite Hqueue'. cbn [value_or].
  (* RenderHTML, CopyFiles, ProcessImages *)
  apply void_bind_unit_step. intros _.
  apply void_bind_unit_step. intros _.
  apply void_bind_unit_step. intros _.
  (* CopyStatic *)
  apply void_bind_open_step. intros exists_ _.
  apply void_bind_unit_step. intros _.
  (* AfterBuild, RemoveManifests *)
  apply void_bind_unit_step. intros _.
  apply void_bind_unit_step. intros _.
  (* Report *)
  reflexivity.
Qed.

End Pipeline.

(** C7. A run of [build] is its steps in the order of the source, each one
    behind the barrier of the one before: the trace is the traces of the
    first [n] steps one after the other, so nothing of a step happens before
    the step before it has settled; every step but the last of these
    resolved; when [build] resolves all the steps ran and resolved, and when
    it rejects, it is with the error of step [n], after which no step runs. *)
Theorem stages_run_in_order_behind_barriers :
  forall (Page : Type) (w : World Page) (context args : string),
    let steps := stages w context args in
    map fst steps = stage_order /\
    exists n,
      1 <= n <= length steps /\
      trace (build w context args)
        = concat (map (fun s => trace (snd s)) (firstn n steps)) /\
      (forall s, In s (firstn (n - 1) steps) -> outcome (snd s) = Resolved tt) /\
      match outcome (build w context args) with
      | Resolved _ =>
          n = length steps /\ forall s, In s steps -> outcome (snd s) = Resolved tt
      | Rejected err =>
          exists s, nth_error steps (n - 1) = Some s /\ outcome (snd s) = Rejected err
      end.
Proof.
  intros Page w context args steps. split; [reflexivity|].
  destruct (@run_stages_spec Page steps) as [n [Hn [Htrace [Hbefore Hout]]]];
    [discriminate|].
  subst steps. rewrite <- build_run_stages in Htrace, Hout.
  exists n. split; [exact Hn|]. split; [exact Htrace|]. split; [exact Hbefore|].
  unfold void, outcome in Hout. cbn [snd] in Hout. unfold outcome at 1.
  destruct (snd (build w context args)); exact Hout.
Qed.

Lemma stages_run_in_order_behind_barriers_witness :
  let cfg := demo_config false true true in
  let world := flaky_world [0] (seq 0 3) [] (images_queue_of 2) ["old.png"] cfg in
  let steps := stages world "/site" "" in
  outcome (build world "/site" "") = Rejected "worker call failed" /\
  exists n,
    1 <= n <= length steps /\
    trace (build world "/site" "")
      = concat (map (fun s => trace (snd s)) (firstn n steps)) /\
    (forall s, In s (firstn (n - 1) steps) -> outcome (snd s) = Resolved tt) /\
    exists s, nth_error steps (n - 1) = Some s /\
              outcome (snd s) = Rejected "worker call failed".
Proof.
  intros cfg world steps.
  assert (Hout : outcome (build world "/site" "") = Rejected "worker call failed")
    by (vm_compute; reflexivity).
  split; [exact Hout|].
  destruct (@stages_run_in_order_behind_barriers nat world "/site" "")
    as [_ [n [Hn [Htrace [Hbefore Hlast]]]]].
  rewrite Hout in Hlast.
  exists n. repeat (split; [assumption|]). exact Hlast.
Defined.

(** ** The content hash *)

Section ContentHash.
Context {Page : Type}.
Variable w : World Page.

Lemma in_trace_bind {A B} (m : Async Page A) (k : A -> Async Page B) e :
  In e (trace (bind m k)) ->
  In e (trace m) \/ exists a, outcome m = Resolved a /\ In e (trace (k a)).
Proof.
  rewrite trace_bind. destruct (outcome m) as [a|err]; [|tauto].
  intros H. apply in_app_or in H. destruct H; [tauto|].
  right. exists a. split; [reflexivity|assumption].
Qed.

Lemma runWebpack_outcome : outcome (runWebpack w) = compiler_run w.
Proof.
  unfold runWebpack, bind, when, emit, perform, ret, outcome, trace.
  destruct (stdout_isTTY w); cbn [negb fst snd];
    destruct (compiler_run w); reflexivity.
Qed.

Lemma runWebpack_no_render : none is_WorkerRender (trace (runWebpack w)).
Proof.
  unfold runWebpack, bind, when, emit, perform, ret, outcome, trace.
  destruct (stdout_isTTY w); cbn [negb fst snd];
    destruct (compiler_run w); cbn [fst snd app]; repeat constructor.
Qed.

Lemma processFiles_no_render files_queue :
  none is_WorkerRender (trace (processFiles w files_queue)).
Proof.
  unfold processFiles. rewrite trace_bind.
  assert (Hloop : none is_WorkerRender
                    (trace (for_of files_queue (fun file =>
                       perform (FsCopy (Page:=Page) (filePath file) (destPath file) false)
                         (fs_copy w (filePath file) (destPath file)))))).
  { apply Forall_forall. intros e He.
    apply in_for_of_perform in He. destruct He as [x [_ ->]]. reflexivity. }
  destruct (outcome _); [|exact Hloop].
  apply none_app. split; [exact Hloop|repeat constructor].
Qed.

Lemma processImages_no_render queue config :
  none is_WorkerRender (trace (processImages w queue config)).
Proof.
  destruct (processImages_cases w queue config)
    as [[err [_ [_ Hrun]]]|[existing [head [Hhead Hrun]]]].
  { rewrite Hrun. repeat constructor. }
  assert (Hhead' : none is_WorkerRender head).
  { destruct Hhead as [[_ [_ ->]]|[_ [_ ->]]]; repeat constructor. }
  destruct (fanout_none w is_WorkerRender config (Lodash.chunk queue 25) (length queue)
              (length (Lodash.chunk queue 25)) (cpus_logical w)) as [Hb Ha].
  { intros e He. destruct e; simpl in *; congruence. }
  rewrite Hrun. clear Hrun.
  set (f := pMap _ _ _ _ _ _) in *.
  destruct (settles f); unfold trace; cbn [fst].
  - repeat (apply none_app; split); auto.
    constructor; [reflexivity|]. constructor; [reflexivity|].
    apply removeUnusedImages_quiet; reflexivity.
  - repeat (apply none_app; split); auto.
    constructor; [reflexivity|exact Ha].
Qed.

(** Every call to [worker.render] that [renderHTML] makes carries the hash
    it was given. *)
Lemma renderHTML_hash (renderQueue : list Page) app hashString job payload :
  In (WorkerRender job payload) (trace (renderHTML w renderQueue app hashString)) ->
  render_hash payload = hashString.
Proof.
  rewrite renderHTML_cases.
  set (chunks := Lodash.chunk renderQueue 350).
  destruct (@settle_renders_spec Page w (length chunks) (seq 0 (length chunks)) None)
    as [_ [Hkinds _]]; [rewrite length_seq; apply le_n|].
  pose proof (dispatch_renders_events chunks app hashString) as Hdispatch.
  assert (Hsettling : ~ In (WorkerRender job payload)
                        (fst (settle_renders w (length chunks) (seq 0 (length chunks)) None))).
  { intros H. apply (proj1 (Forall_forall _ _) Hkinds) in H.
    simpl in H. destruct H; discriminate. }
  assert (Hd : In (WorkerRender job payload) (dispatch_renders chunks app hashString) ->
               render_hash payload = hashString).
  { intros H. apply (proj1 (Forall_forall _ _) Hdispatch) in H. exact H. }
  destruct (snd (settle_renders w (length chunks) (seq 0 (length chunks)) None));
    unfold trace; cbn [fst]; intros [H|H]; try discriminate;
    repeat (apply in_app_or in H; destruct H as [H|H]); auto; try contradiction.
  simpl in H. destruct H as [H|[H|[]]]; discriminate.
Qed.

End ContentHash.

(** One step down a chain of awaited calls: the event is in the trace of the
    first call, or that call resolved and the event comes later. *)
Tactic Notation "bind_step" hyp(H) ident(x) ident(Hx) :=
  apply in_trace_bind in H; destruct H as [H|[x [Hx H]]];
  [try (simpl in H; intuition discriminate)|].

(** C3. Every call to [worker.render] made during a run of [build] carries
    one and the same hash: the [hash] of what the compiler resolved to when
    [cacheBusting] is set, and the literal ['gridsome'] otherwise, whatever
    the compiler's hash is. *)
Theorem every_render_call_carries_the_content_hash :
  forall (Page : Type) (w : World Page) (context args : string)
         (job : nat) (payload : RenderPayload Page),
    In (WorkerRender job payload) (trace (build w context args)) ->
    exists app stats,
      createApp_oracle w context args = Resolved app /\
      compiler_run w = Resolved stats /\
      render_hash payload
        = if cacheBusting (config app) then hash stats else "gridsome".
Proof.
  intros Page w context args job payload H.
  unfold build in H.
  bind_step H u1 H1. bind_step H u2 H2.
  bind_step H app Happ. bind_step H u3 H3.
  bind_step H u4 H4.
  { unfold when in H. destruct (emptyOutputDir (config app));
      simpl in H; intuition discriminate. }
  bind_step H stats Hstats.
  { eapply none_In in H; [|apply runWebpack_no_render]. discriminate. }
  bind_step H queue Hqueue. bind_step H redirects Hredirects.
  bind_step H queue' Hqueue'.
  bind_step H u5 H5.
  { exists app, stats. split; [exact Happ|]. split.
    - rewrite <- runWebpack_outcome. exact Hstats.
    - eapply renderHTML_hash. exact H. }
  bind_step H u6 H6.
  { eapply none_In in H; [|apply processFiles_no_render]. discriminate. }
  bind_step H u7 H7.
  { eapply none_In in H; [|apply processImages_no_render]. discriminate. }
  bind_step H exists_ Hexists.
  bind_step H u8 H8.
  { unfold when in H. destruct exists_; simpl in H; intuition discriminate. }
  bind_step H u9 H9. bind_step H u10 H10.
  bind_step H u11 H11. bind_step H u12 H12.
  bind_step H u13 H13. bind_step H u14 H14.
  simpl in H. contradiction.
Qed.

Lemma every_render_call_carries_the_content_hash_witness :
  let cfg := demo_config false false true in
  let world := calm_world (seq 0 3) [] [] [] cfg in
  exists payload,
    In (WorkerRender 0 payload) (trace (build world "/site" "")) /\
    render_hash payload = "gridsome".
Proof.
  intros cfg world.
  pose (payload :=
          {| render_hash := "gridsome"; render_pages := seq 0 3;
             render_htmlTemplate := htmlTemplate cfg;
             render_clientManifestPath := clientManifestPath cfg;
             render_serverBundlePath := serverBundlePath cfg;
             render_prefetch := prefetch cfg; render_preload := preload cfg |}).
  assert (Hin : In (WorkerRender 0 payload) (trace (build world "/site" "")))
    by (vm_compute; do 10 right; left; reflexivity).
  exists payload. split; [exact Hin|].
  destruct (@every_render_call_carries_the_content_hash nat world "/site" "" 0 payload Hin)
    as [app [stats [Happ [_ Hhash]]]].
  injection Happ as <-. exact Hhash.
Defined.

(** ** The loops never run short of fuel

    Every pass of a settling loop settles one call, and the fuel the stages
    give is the number of calls there are: every call that was dispatched
    settles, and a fan-out that resolves has dispatched every chunk. *)

Section Fuel.
Context {Page : Type}.
Variable w : World Page.
Implicit Types (inflight : list nat).

Lemma settle_renders_settles_all :
  forall fuel inflight rejected,
    length inflight <= fuel ->
    count is_Settled (fst (settle_renders w fuel inflight rejected)) = length inflight.
Proof.
  induction fuel as [|fuel IH]; intros inflight rejected Hfuel.
  - destruct inflight; [reflexivity|simpl in Hfuel; lia].
  - destruct inflight as [|j inflight']; [reflexivity|].
    cbn [settle_renders].
    assert (Hne : j :: inflight' <> []) by discriminate.
    pose proof (next_settled_shorter w Hne) as Hlen.
    destruct (next_settled w (j :: inflight')) as [job rest].
    cbn [snd] in Hlen.
    assert (Hrest : length rest <= fuel) by (simpl in *; lia).
    destruct (worker_render w job) as [u|err].
    + specialize (IH rest rejected Hrest).
      destruct (settle_renders w fuel rest rejected) as [tr r].
      cbn [fst] in *. unfold count in *. cbn [filter is_Settled length].
      rewrite IH, Hlen. reflexivity.
    + match goal with |- context [settle_renders w fuel rest ?first] =>
        specialize (IH rest first Hrest);
        destruct (settle_renders w fuel rest first) as [tr r] end.
      cbn [fst] in *. unfold count in *. cbn [filter is_Settled length].
      rewrite IH, Hlen. reflexivity.
Qed.

Lemma stragglers_settle_all totalAssets totalJobs :
  forall fuel inflight progress,
    length inflight <= fuel ->
    count is_Settled (stragglers w fuel totalAssets totalJobs inflight progress)
      = length inflight.
Proof.
  induction fuel as [|fuel IH]; intros inflight progress Hfuel.
  - destruct inflight; [reflexivity|simpl in Hfuel; lia].
  - destruct inflight as [|j inflight']; [reflexivity|].
    cbn [stragglers].
    assert (Hne : j :: inflight' <> []) by discriminate.
    pose proof (next_settled_shorter w Hne) as Hlen.
    destruct (next_settled w (j :: inflight')) as [job rest].
    cbn [snd] in Hlen.
    assert (Hrest : length rest <= fuel) by (simpl in *; lia).
    destruct (worker_process w job) as [u|err];
      unfold count in *; cbn [filter is_Settled length];
      rewrite (IH rest _ Hrest), Hlen; reflexivity.
Qed.

Lemma process_calls_count config chunks (started : list nat) :
  count (@is_WorkerProcess Page) (map (process_call config chunks) started)
    = length started /\
  count (@is_Settled Page) (map (process_call config chunks) started) = 0.
Proof.
  unfold count. induction started as [|x l [IH1 IH2]]; [split; reflexivity|].
  cbn [map filter process_call is_WorkerProcess is_Settled length].
  rewrite IH1. split; [reflexivity|exact IH2].
Qed.

Lemma pMap_loop_complete config chunks totalAssets totalJobs :
  forall fuel next inflight progress,
    length inflight + (length chunks - next) <= fuel ->
    (inflight = [] -> length chunks <= next) ->
    let f := pMap_loop w fuel config chunks totalAssets totalJobs next inflight progress in
    count is_Settled (before f ++ after f)
      = length inflight + count is_WorkerProcess (before f) /\
    (settles f = Resolved tt ->
     count is_WorkerProcess (before f) = length chunks - next).
Proof.
  induction fuel as [|fuel IH]; intros next inflight progress Hfuel Hinv.
  - destruct inflight; [|simpl in Hfuel; lia].
    cbn. split; [reflexivity|]. intros _. specialize (Hinv eq_refl). lia.
  - destruct inflight as [|j inflight'].
    { cbn. split; [reflexivity|]. intros _. specialize (Hinv eq_refl). lia. }
    cbn [pMap_loop].
    assert (Hne : j :: inflight' <> []) by discriminate.
    pose proof (next_settled_shorter w Hne) as Hlen.
    destruct (next_settled w (j :: inflight')) as [job rest].
    cbn [snd] in Hlen. cbn [length pred] in Hlen, Hfuel.
    destruct (worker_process w job) as [u|err]; cbn [before after settles].
    + set (started := if next <? length chunks then [next] else []).
      assert (Hstarted : length started = if next <? length chunks then 1 else 0)
        by (subst started; destruct (next <? length chunks); reflexivity).
      destruct (process_calls_count config chunks started) as [Hp Hs].
      specialize (IH (next + length started) (rest ++ started) (S progress)).
      destruct IH as [IH1 IH2].
      * rewrite length_app, Hstarted, Hlen.
        destruct (Nat.ltb_spec next (length chunks)); lia.
      * intros E. apply app_eq_nil in E. destruct E as [_ E].
        rewrite Hstarted. subst started.
        destruct (Nat.ltb_spec next (length chunks)); [discriminate|lia].
      * set (f := pMap_loop _ _ _ _ _ _ _ _ _) in *.
        set (block := [Settled (Page:=Page) image_processor job (Resolved tt);
                       WriteLine (progress_line totalAssets
                                    (Math_round_div (S progress * 100) totalJobs))]).
        assert (Hblock : count is_Settled block = 1 /\ count is_WorkerProcess block = 0)
          by (split; reflexivity).
        destruct Hblock as [Hblock1 Hblock2].
        change (Settled image_processor job (Resolved tt)
                  :: WriteLine (progress_line totalAssets
                                  (Math_round_div (S progress * 100) totalJobs))
                  :: map (process_call config chunks) started ++ before f)
          with (block ++ map (process_call config chunks) started ++ before f).
        rewrite count_app in IH1. rewrite length_app, Hlen in IH1.
        cbn [length]. split.
        -- rewrite <- !app_assoc, !count_app, Hp, Hs, Hblock1, Hblock2. lia.
        -- intros Hres. specialize (IH2 Hres).
           rewrite !count_app, Hp, IH2, Hstarted, Hblock2.
           destruct (Nat.ltb_spec next (length chunks)); lia.
    + split; [|discriminate].
      cbn [app]. unfold count. cbn [filter is_Settled is_WorkerProcess length].
      fold (count is_Settled (stragglers w fuel totalAssets totalJobs rest progress)).
      rewrite stragglers_settle_all by lia. lia.
Qed.

(** Every chunk the mapper hands to the worker settles, and when the mapper
    resolves it has handed over every chunk, each of them once. *)
Lemma pMap_complete config chunks totalAssets totalJobs concurrency :
  1 <= concurrency ->
  let f := pMap w config chunks totalAssets totalJobs concurrency in
  count is_Settled (before f ++ after f) = count is_WorkerProcess (before f) /\
  (settles f = Resolved tt ->
   count is_WorkerProcess (before f) = length chunks /\
   count is_completion (before f) = length chunks).
Proof.
  intros HK. unfold pMap. destruct (Nat.ltb_spec concurrency 1); [lia|].
  cbn [before after settles].
  set (started := seq 0 (Nat.min concurrency (length chunks))).
  assert (Hlen : length started = Nat.min concurrency (length chunks))
    by (subst started; apply length_seq).
  destruct (process_calls_count config chunks started) as [Hp Hs].
  destruct (@pMap_loop_complete config chunks totalAssets totalJobs (length chunks)
              (length started) started 0) as [H1 H2].
  { rewrite Hlen. lia. }
  { intros E. rewrite E in Hlen. simpl in Hlen. lia. }
  pose proof (pMap_loop_settles w (length chunks) config chunks totalAssets totalJobs
                (length started) started 0) as Hsettles.
  set (f := pMap_loop _ _ _ _ _ _ _ _ _) in *. cbv zeta in Hsettles.
  split.
  - rewrite <- app_assoc, !count_app, Hp, Hs. rewrite count_app in H1. lia.
  - intros Hres. specialize (H2 Hres).
    assert (Hproc : count is_WorkerProcess
                      (map (process_call config chunks) started ++ before f)
                    = length chunks)
      by (rewrite count_app, Hp, H2, Hlen; lia).
    split; [exact Hproc|].
    rewrite Hres in Hsettles. destruct Hsettles as [Hafter Hnone].
    rewrite Hafter, app_nil_r in H1.
    rewrite count_app, (none_count (process_calls_no_completion config chunks started)).
    assert (Hsame : count is_completion (before f) = count is_Settled (before f)).
    { clear -Hnone. unfold count. induction Hnone as [|e l He _ IH]; [reflexivity|].
      destruct e as [| | | | | | | | | | |worker job [u|err]| | | | | | | | |];
        simpl in *; try exact IH; [f_equal; exact IH|discriminate]. }
    rewrite Hsame, H1, H2, Hlen. lia.
Qed.

End Fuel.

(** * Further properties *)

(** ** Copying the files *)

Section CopyFiles.
Context {Page : Type}.
Variable w : World Page.

(** A loop of awaited calls stops at the first call that rejects. *)
Lemma for_of_perform_first_failure {A} (call : A -> event Page) (r : A -> result unit) :
  forall (pre : list A) x post err,
    (forall y, In y pre -> r y = Resolved tt) ->
    r x = Rejected err ->
    for_of (pre ++ x :: post) (fun y => perform (call y) (r y))
      = (map call pre ++ [call x], Rejected err).
Proof.
  induction pre as [|y pre IH]; intros x post err Hpre Hx.
  - cbn [app for_of map]. unfold bind, perform, outcome, trace. cbn [fst snd].
    rewrite Hx. reflexivity.
  - cbn [app for_of map].
    rewrite (IH x post err); [| |exact Hx].
    + unfold bind, perform, outcome, trace. cbn [fst snd].
      rewrite (Hpre y (or_introl eq_refl)). reflexivity.
    + intros z Hz. apply Hpre. right. exact Hz.
Qed.

Lemma for_of_perform_all {A} (call : A -> event Page) (r : A -> result unit) (l : list A) :
  (forall y, In y l -> r y = Resolved tt) ->
  for_of l (fun y => perform (call y) (r y)) = (map call l, Resolved tt).
Proof.
  intros Hall.
  destruct (for_of_perform l call r) as [_ [Htrace Hout]].
  specialize (Hout Hall). specialize (Htrace Hout).
  destruct (for_of l _) as [tr out]. unfold trace, outcome in *. cbn [fst snd] in *.
  congruence.
Qed.

End CopyFiles.

(** X1. [processFiles] copies the files in the order of the queue; when every
    copy resolves it has copied them all, then logs their number, and
    resolves. *)
Theorem processFiles_copies_all_in_order :
  forall (Page : Type) (w : World Page) (files_queue : list AssetJob),
    (forall f, In f files_queue -> fs_copy w (filePath f) (destPath f) = Resolved tt) ->
    processFiles w files_queue
      = (map copy_call files_queue ++ [Log (files_done_line w (length files_queue))],
         Resolved tt).
Proof.
  intros Page w files_queue Hall. unfold processFiles.
  pose proof (for_of_perform_all (fun f => copy_call (Page:=Page) f)
                (fun f => fs_copy w (filePath f) (destPath f)) files_queue Hall) as H.
  unfold copy_call in H. rewrite H. reflexivity.
Qed.

Lemma processFiles_copies_all_in_order_witness :
  let files := [file "/site/src/a.pdf" "/site/dist/a.pdf";
                file "/site/src/b.pdf" "/site/dist/b.pdf"] in
  let world := calm_world [] files [] [] (demo_config false true true) in
  trace (processFiles world files)
    = [FsCopy "/site/src/a.pdf" "/site/dist/a.pdf" false;
       FsCopy "/site/src/b.pdf" "/site/dist/b.pdf" false;
       Log "Process files (2 files) - 0.1s"].
Proof.
  intros files world.
  rewrite (@processFiles_copies_all_in_order nat world files); [reflexivity|].
  intros f _. reflexivity.
Defined.

(** X2. When a copy rejects, [processFiles] rejects with that error at once:
    the files after it in the queue are not copied and nothing is logged. *)
Theorem processFiles_stops_at_first_failed_copy :
  forall (Page : Type) (w : World Page) (pre post : list AssetJob) (f : AssetJob)
         (err : error),
    (forall g, In g pre -> fs_copy w (filePath g) (destPath g) = Resolved tt) ->
    fs_copy w (filePath f) (destPath f) = Rejected err ->
    processFiles w (pre ++ f :: post)
      = (map copy_call pre ++ [copy_call f], Rejected err).
Proof.
  intros Page w pre post f err Hpre Hf. unfold processFiles.
  pose proof (for_of_perform_first_failure (fun g => copy_call (Page:=Page) g)
                (fun g => fs_copy w (filePath g) (destPath g)) pre f post Hpre Hf) as H.
  unfold copy_call in H. rewrite H. reflexivity.
Qed.

Lemma processFiles_stops_at_first_failed_copy_witness :
  let a := file "/site/src/a.pdf" "/site/dist/a.pdf" in
  let b := file "/site/src/gone.pdf" "/site/dist/gone.pdf" in
  let c := file "/site/src/c.pdf" "/site/dist/c.pdf" in
  let world := broken_copy_world "/site/src/gone.pdf" [a; b; c] in
  processFiles world ([a] ++ b :: [c])
    = ([FsCopy "/site/src/a.pdf" "/site/dist/a.pdf" false;
        FsCopy "/site/src/gone.pdf" "/site/dist/gone.pdf" false],
       Rejected "ENOENT").
Proof.
  intros a b c world.
  rewrite (@processFiles_stops_at_first_failed_copy nat world [a] [c] b "ENOENT").
  - reflexivity.
  - intros g [<-|[]]. reflexivity.
  - reflexivity.
Defined.

(** ** Rendering the pages *)

Section RenderStageMore.
Context {Page : Type}.
Variable w : World Page.
Implicit Types (inflight : list nat).

Lemma settle_renders_keeps_rejection :
  forall fuel inflight err,
    snd (settle_renders w fuel inflight (Some err)) = Some err.
Proof.
  induction fuel as [|fuel IH]; intros inflight err; [reflexivity|].
  cbn [settle_renders]. destruct inflight as [|j inflight']; [reflexivity|].
  destruct (next_settled w (j :: inflight')) as [job rest].
  destruct (worker_render w job) as [u|err'].
  - specialize (IH rest err).
    destruct (settle_renders w fuel rest (Some err)) as [tr r]. exact IH.
  - specialize (IH rest err).
    destruct (settle_renders w fuel rest (Some err)) as [tr r]. exact IH.
Qed.

(** [Promise.all] rejects with the first rejection there is. *)
Lemma settle_renders_first_rejection :
  forall fuel inflight,
    let run := settle_renders w fuel inflight None in
    match snd run with
    | None => none is_rejection (fst run) /\ none is_WorkerEnd (fst run)
    | Some err =>
        exists pre job post,
          fst run = pre ++ Settled html_writer job (Rejected err)
                          :: WorkerEnd html_writer :: post /\
          none is_rejection pre /\ none is_WorkerEnd pre
    end.
Proof.
  induction fuel as [|fuel IH]; intros inflight; [split; constructor|].
  cbn [settle_renders]. destruct inflight as [|j inflight']; [split; constructor|].
  destruct (next_settled w (j :: inflight')) as [job rest].
  destruct (worker_render w job) as [u|err].
  - specialize (IH rest). cbv zeta in IH.
    destruct (settle_renders w fuel rest None) as [tr [err|]]; cbn [fst snd] in *.
    + destruct IH as [pre [job' [post [E [Hpre Hend]]]]].
      exists (Settled html_writer job (Resolved tt) :: pre), job', post.
      split; [rewrite E; reflexivity|].
      split; constructor; auto.
    + destruct IH as [H1 H2]. split; constructor; auto.
  - pose proof (settle_renders_keeps_rejection fuel rest err) as Hkeep.
    destruct (settle_renders w fuel rest (Some err)) as [tr r]. cbn [fst snd] in *.
    subst r. exists [], job, tr. repeat split; constructor.
Qed.

Lemma settle_renders_events :
  forall fuel inflight rejected,
    Forall (fun e => is_Settled e = true \/ is_WorkerEnd e = true)
      (fst (settle_renders w fuel inflight rejected)).
Proof.
  induction fuel as [|fuel IH]; intros inflight rejected; [constructor|].
  cbn [settle_renders]. destruct inflight as [|j inflight']; [constructor|].
  destruct (next_settled w (j :: inflight')) as [job rest].
  destruct (worker_render w job) as [u|err].
  - specialize (IH rest rejected).
    destruct (settle_renders w fuel rest rejected) as [tr r].
    constructor; [left; reflexivity|exact IH].
  - match goal with |- context [settle_renders w fuel rest ?first] =>
      specialize (IH rest first);
      destruct (settle_renders w fuel rest first) as [tr r] end.
    constructor; [left; reflexivity|].
    constructor; [right; reflexivity|exact IH].
Qed.

Lemma renderHTML_events (renderQueue : list Page) app hashString :
  Forall (fun e => is_render_event e = true)
    (trace (renderHTML w renderQueue app hashString)).
Proof.
  rewrite renderHTML_cases.
  set (chunks := Lodash.chunk renderQueue 350).
  pose proof (settle_renders_events (length chunks) (seq 0 (length chunks)) None)
    as Hkinds.
  assert (Hs : Forall (fun e : event Page => is_render_event e = true)
                 (fst (settle_renders w (length chunks) (seq 0 (length chunks)) None))).
  { eapply Forall_impl; [|exact Hkinds].
    intros e [He|He]; destruct e; simpl in *; congruence. }
  assert (Hd : Forall (fun e : event Page => is_render_event e = true)
                 (dispatch_renders chunks app hashString)).
  { eapply Forall_impl; [|apply dispatch_renders_events].
    intros e He. destruct e; try contradiction. reflexivity. }
  destruct (snd (settle_renders w (length chunks) (seq 0 (length chunks)) None));
    unfold trace; cbn [fst]; constructor; try reflexivity;
    repeat (apply Forall_app; split); auto; repeat constructor.
Qed.

End RenderStageMore.

(** X3. [renderHTML] calls [worker.render] for every chunk before any of the
    calls settles: after creating the worker it makes one call per chunk, in
    order, [ceil(L / 350)] of them, and no call is made later on. *)
Theorem renderHTML_dispatches_every_chunk_at_once :
  forall (Page : Type) (w : World Page) (renderQueue : list Page) (app : App)
         (hashString : string),
    let chunks := Lodash.chunk renderQueue 350 in
    let calls := dispatch_renders chunks app hashString in
    exists rest,
      trace (renderHTML w renderQueue app hashString)
        = CreateWorker html_writer :: calls ++ rest /\
      length calls = ceil_div (length renderQueue) 350 /\
      Forall (fun e => is_WorkerRender e = true) calls /\
      none is_WorkerRender rest.
Proof.
  intros Page w renderQueue app hashString chunks calls.
  rewrite renderHTML_cases. fold chunks. fold calls.
  destruct (@settle_renders_spec Page w (length chunks) (seq 0 (length chunks)) None)
    as [_ [Hkinds _]]; [rewrite length_seq; apply le_n|].
  assert (Hs : none is_WorkerRender
                 (fst (settle_renders w (length chunks) (seq 0 (length chunks)) None))).
  { eapply Forall_impl; [|exact Hkinds].
    intros e [He|He]; destruct e; simpl in *; congruence. }
  assert (Hlen : length calls = ceil_div (length renderQueue) 350).
  { subst calls. unfold dispatch_renders.
    rewrite length_map, length_combine, length_seq, Nat.min_id.
    subst chunks. apply chunk_spec. lia. }
  assert (Hcalls : Forall (fun e : event Page => is_WorkerRender e = true) calls).
  { eapply Forall_impl; [|apply dispatch_renders_events].
    intros e He. destruct e; try contradiction. reflexivity. }
  destruct (snd (settle_renders w (length chunks) (seq 0 (length chunks)) None));
    unfold trace; cbn [fst]; eexists; (split; [reflexivity|]);
    (split; [exact Hlen|]); (split; [exact Hcalls|]); auto.
  apply none_app. split; [exact Hs|repeat constructor].
Qed.

(** X4. Every call to [worker.render] carries a chunk of the render queue:
    the [job]-th call carries the [job]-th chunk, which holds at least one
    page and at most 350. *)
Theorem render_payload_is_a_bounded_chunk :
  forall (Page : Type) (w : World Page) (renderQueue : list Page) (app : App)
         (hashString : string) (job : nat) (payload : RenderPayload Page),
    In (WorkerRender job payload) (trace (renderHTML w renderQueue app hashString)) ->
    nth_error (Lodash.chunk renderQueue 350) job = Some (render_pages payload) /\
    1 <= length (render_pages payload) <= 350.
Proof.
  intros Page w renderQueue app hashString job payload Hin.
  rewrite renderHTML_cases in Hin.
  set (chunks := Lodash.chunk renderQueue 350) in *.
  destruct (@settle_renders_spec Page w (length chunks) (seq 0 (length chunks)) None)
    as [_ [Hkinds _]]; [rewrite length_seq; apply le_n|].
  assert (Hs : ~ In (WorkerRender job payload)
                 (fst (settle_renders w (length chunks) (seq 0 (length chunks)) None))).
  { intros H. apply (proj1 (Forall_forall _ _) Hkinds) in H.
    simpl in H. destruct H; discriminate. }
  assert (Hd : In (WorkerRender job payload) (dispatch_renders chunks app hashString)).
  { destruct (snd (settle_renders w (length chunks) (seq 0 (length chunks)) None));
      unfold trace in Hin; cbn [fst] in Hin; destruct Hin as [H|H]; try discriminate;
      repeat (apply in_app_or in H; destruct H as [H|H]); auto; try contradiction.
    simpl in H. destruct H as [H|[H|[]]]; discriminate. }
  clear Hin Hs Hkinds.
  unfold dispatch_renders in Hd. apply in_map_iff in Hd.
  destruct Hd as [[job' pages] [E Hin]]. cbn [fst snd] in E.
  injection E as -> <-. cbn [render_pages].
  assert (Hnth : nth_error chunks job = Some pages).
  { clear -Hin. revert Hin. generalize chunks. clear chunks.
    intros chunks. rewrite <- (Nat.add_0_l job) at 2.
    assert (H : forall start, In (start + job, pages) (combine (seq start (length chunks)) chunks)
                              -> nth_error chunks job = Some pages).
    { revert job. induction chunks as [|c l IH]; intros job start Hin; [contradiction|].
      cbn [length seq combine] in Hin. destruct Hin as [E|Hin].
      - injection E as E1 ->. assert (job = 0) by lia. subst. reflexivity.
      - destruct job as [|job].
        + exfalso. apply in_combine_l in Hin. apply in_seq in Hin. lia.
        + cbn [nth_error]. apply (IH job (S start)).
          replace (S start + job) with (start + S job) by lia. exact Hin. }
    intros Hin. apply (H 0). exact Hin. }
  split; [exact Hnth|].
  destruct (@chunk_spec Page renderQueue 350) as [Hlen [_ Hsizes]]; [lia|].
  fold chunks in Hlen, Hsizes. rewrite (Hsizes job pages Hnth).
  assert (Hjob : job < length chunks) by (apply nth_error_Some; congruence).
  destruct (S job <? ceil_div (length renderQueue) 350); [lia|].
  destruct (Nat.eqb_spec (length renderQueue mod 350) 0) as [E|NE]; [lia|].
  pose proof (Nat.mod_upper_bound (length renderQueue) 350). lia.
Qed.

Lemma render_payload_is_a_bounded_chunk_witness :
  let cfg := demo_config false true true in
  let world := calm_world [] [] [] [] cfg in
  let pages := seq 0 720 in
  exists payload,
    In (WorkerRender 2 payload)
       (trace (renderHTML world pages {| config := cfg |} "0f3a9c")) /\
    render_pages payload = seq 700 20 /\
    1 <= length (render_pages payload) <= 350.
Proof.
  intros cfg world pages.
  pose (payload :=
          {| render_hash := "0f3a9c"; render_pages := seq 700 20;
             render_htmlTemplate := htmlTemplate cfg;
             render_clientManifestPath := clientManifestPath cfg;
             render_serverBundlePath := serverBundlePath cfg;
             render_prefetch := prefetch cfg; render_preload := preload cfg |}).
  assert (Hin : In (WorkerRender 2 payload)
                   (trace (renderHTML world pages {| config := cfg |} "0f3a9c")))
    by (vm_compute; do 3 right; left; reflexivity).
  exists payload. split; [exact Hin|]. split; [reflexivity|].
  exact (proj2 (@render_payload_is_a_bounded_chunk nat world pages {| config := cfg |}
                  "0f3a9c" 2 payload Hin)).
Defined.

(** X5. [renderHTML] resolves exactly when no call to [worker.render]
    rejects. When it rejects, it is with the error of the first call that
    rejected; up to then the worker was not ended, and the very next step
    ends it. *)
Theorem renderHTML_rejects_with_first_rejection :
  forall (Page : Type) (w : World Page) (renderQueue : list Page) (app : App)
         (hashString : string),
    let run := renderHTML w renderQueue app hashString in
    let jobs := seq 0 (length (Lodash.chunk renderQueue 350)) in
    (outcome run = Resolved tt <-> count (render_rejects w) jobs = 0) /\
    (forall err,
        outcome run = Rejected err ->
        exists pre job post,
          trace run = pre ++ Settled html_writer job (Rejected err)
                          :: WorkerEnd html_writer :: post /\
          none is_rejection pre /\ none is_WorkerEnd pre).
Proof.
  intros Page w renderQueue app hashString run jobs. subst run.
  rewrite renderHTML_cases.
  set (chunks := Lodash.chunk renderQueue 350) in *.
  destruct (@settle_renders_spec Page w (length chunks) (seq 0 (length chunks)) None)
    as [_ [_ Hnone]]; [rewrite length_seq; apply le_n|].
  pose proof (settle_renders_first_rejection w (length chunks) (seq 0 (length chunks)))
    as Hfirst.
  cbv zeta in Hfirst. fold jobs in Hnone, Hfirst. fold jobs.
  assert (Hd : none is_rejection (dispatch_renders chunks app hashString) /\
               none is_WorkerEnd (dispatch_renders chunks app hashString)).
  { split; (eapply Forall_impl; [|apply dispatch_renders_events]);
      intros e He; destruct e; try contradiction; reflexivity. }
  destruct Hd as [Hd1 Hd2].
  destruct (snd (settle_renders w (length chunks) jobs None)) as [err|];
    unfold outcome, trace; cbn [fst snd].
  - split.
    + split; [discriminate|]. intros H.
      destruct Hnone as [_ Hnone]. specialize (Hnone (conj eq_refl H)). discriminate.
    + intros err' E. injection E as <-.
      destruct Hfirst as [pre [job [post [E [Hpre Hend]]]]].
      exists (CreateWorker html_writer :: dispatch_renders chunks app hashString ++ pre),
        job, post.
      split; [rewrite E; cbn [List.app]; rewrite app_assoc; reflexivity|].
      split; (constructor; [reflexivity|]); apply none_app; split; assumption.
  - split; [|discriminate].
    split; [intros _; apply Hnone; reflexivity|reflexivity].
Qed.

Lemma renderHTML_rejects_with_first_rejection_witness :
  let cfg := demo_config false true true in
  let world := flaky_world [1; 2] [] [] [] [] cfg in
  let run := renderHTML world (seq 0 720) {| config := cfg |} "0f3a9c" in
  outcome run = Rejected "worker call failed" /\
  exists pre job post,
    trace run = pre ++ Settled html_writer job (Rejected "worker call failed")
                    :: WorkerEnd html_writer :: post /\
    none is_rejection pre /\ none is_WorkerEnd pre.
Proof.
  intros cfg world run.
  assert (Hout : outcome run = Rejected "worker call failed") by (vm_compute; reflexivity).
  split; [exact Hout|].
  exact (proj2 (@renderHTML_rejects_with_first_rejection nat world (seq 0 720)
                  {| config := cfg |} "0f3a9c") _ Hout).
Defined.

Lemma all_of_kind_length {A} (p : A -> bool) (l : list A) :
  Forall (fun x => p x = true) l -> count p l = length l.
Proof.
  unfold count. induction 1 as [|x l Hx _ IH]; [reflexivity|].
  simpl. rewrite Hx. simpl. f_equal. exact IH.
Qed.

(** X6. When every call to [worker.render] resolves, [renderHTML] ends the
    worker once, after the last call has resolved, then logs the number of
    pages of the render queue, and resolves. *)
Theorem renderHTML_success_ends_worker_last :
  forall (Page : Type) (w : World Page) (renderQueue : list Page) (app : App)
         (hashString : string),
    let chunks := Lodash.chunk renderQueue 350 in
    count (render_rejects w) (seq 0 (length chunks)) = 0 ->
    exists settlements,
      renderHTML w renderQueue app hashString
        = (CreateWorker html_writer
             :: dispatch_renders chunks app hashString ++ settlements
             ++ [WorkerEnd html_writer;
                 Log (render_done_line w (length renderQueue))],
           Resolved tt) /\
      Forall (fun e => is_completion e = true) settlements /\
      length settlements = length chunks.
Proof.
  intros Page w renderQueue app hashString chunks Hzero.
  rewrite renderHTML_cases. fold chunks.
  set (jobs := seq 0 (length chunks)) in *.
  destruct (@settle_renders_spec Page w (length chunks) jobs None)
    as [_ [_ Hnone]]; [subst jobs; rewrite length_seq; apply le_n|].
  pose proof (settle_renders_first_rejection w (length chunks) jobs) as Hfirst.
  pose proof (settle_renders_events w (length chunks) jobs None) as Hkinds.
  pose proof (@settle_renders_settles_all Page w (length chunks) jobs None) as Hall.
  cbv zeta in Hfirst.
  destruct Hnone as [_ Hnone]. specialize (Hnone (conj eq_refl Hzero)).
  rewrite Hnone in Hfirst |- *. destruct Hfirst as [Hrej Hend].
  exists (fst (settle_renders w (length chunks) jobs None)).
  split; [reflexivity|].
  assert (Hcompl : Forall (fun e : event Page => is_completion e = true)
                     (fst (settle_renders w (length chunks) jobs None))).
  { apply Forall_forall. intros e He.
    pose proof (proj1 (Forall_forall _ _) Hkinds e He) as Hk.
    pose proof (@none_In _ _ _ e Hrej He) as Hr.
    pose proof (@none_In _ _ _ e Hend He) as Hw.
    destruct e as [| | | | | | | | | | |worker job [u|err]| | | | | | | | |];
      simpl in *; try reflexivity; destruct Hk; congruence. }
  split; [exact Hcompl|].
  specialize (Hall ltac:(subst jobs; rewrite length_seq; apply le_n)).
  unfold jobs in Hall at 2. rewrite length_seq in Hall.
  assert (Hsettled : Forall (fun e : event Page => is_Settled e = true)
                       (fst (settle_renders w (length chunks) jobs None))).
  { eapply Forall_impl; [|exact Hcompl]. intros e He. destruct e; simpl in *; congruence. }
  rewrite <- (@all_of_kind_length _ _ _ Hsettled). exact Hall.
Qed.

Lemma renderHTML_success_ends_worker_last_witness :
  let cfg := demo_config false true true in
  let world := calm_world [] [] [] [] cfg in
  let run := renderHTML world (seq 0 720) {| config := cfg |} "0f3a9c" in
  outcome run = Resolved tt /\
  exists rest,
    trace run = rest ++ [WorkerEnd html_writer; Log "Render HTML (720 files) - 0.1s"].
Proof.
  intros cfg world run.
  destruct (@renderHTML_success_ends_worker_last nat world (seq 0 720)
              {| config := cfg |} "0f3a9c") as [settlements [Hrun _]];
    [vm_compute; reflexivity|].
  subst run. rewrite Hrun. split; [reflexivity|].
  exists (CreateWorker html_writer
            :: dispatch_renders (Lodash.chunk (seq 0 720) 350) {| config := cfg |} "0f3a9c"
            ++ settlements).
  unfold trace. cbn [fst]. rewrite <- app_comm_cons, <- app_assoc. reflexivity.
Defined.

(** X7. On an empty render queue [renderHTML] still creates a worker and ends
    it, calls [worker.render] not once, and logs zero pages. *)
Theorem renderHTML_of_empty_queue :
  forall (Page : Type) (w : World Page) (app : App) (hashString : string),
    renderHTML w [] app hashString
      = ([CreateWorker html_writer; WorkerEnd html_writer;
          Log (render_done_line w 0)],
         Resolved tt).
Proof. intros Page w app hashString. reflexivity. Qed.

(** ** The image stage: bounded concurrency *)

Section InFlight.
Context {Page : Type}.
Variable w : World Page.
Variable limit : nat.
Implicit Types (tr pre post : list (event Page)) (e : event Page).

Lemma count_cons {A} (p : A -> bool) (x : A) (l : list A) :
  count p (x :: l) = Nat.b2n (p x) + count p l.
Proof. unfold count. simpl. destruct (p x); reflexivity. Qed.

Lemma in_flight_ext made settled made' settled' tr :
  made' = made -> settled' = settled ->
  in_flight_bounded made settled limit tr ->
  in_flight_bounded made' settled' limit tr.
Proof. intros -> ->. exact (fun H => H). Qed.

Lemma in_flight_nil made settled :
  made <= settled + limit ->
  in_flight_bounded made settled limit (@nil (event Page)).
Proof.
  intros H pre post E. symmetry in E. apply app_eq_nil in E. destruct E as [-> _].
  unfold count. simpl. lia.
Qed.

Lemma in_flight_cons made settled e tr :
  made <= settled + limit ->
  in_flight_bounded (made + Nat.b2n (is_WorkerProcess e))
    (settled + Nat.b2n (is_Settled e)) limit tr ->
  in_flight_bounded made settled limit (e :: tr).
Proof.
  intros H Htr pre post E. destruct pre as [|e' pre'].
  - unfold count. simpl. lia.
  - simpl in E. injection E as <- E. specialize (Htr pre' post E).
    rewrite !count_cons. lia.
Qed.

Lemma in_flight_end made settled tr :
  in_flight_bounded made settled limit tr ->
  made + count is_WorkerProcess tr <= settled + count is_Settled tr + limit.
Proof. intros H. apply (H tr []). symmetry. apply app_nil_r. Qed.

Lemma in_flight_start made settled tr :
  in_flight_bounded made settled limit tr -> made <= settled + limit.
Proof. intros H. specialize (H [] tr eq_refl). unfold count in H. simpl in H. lia. Qed.

Lemma in_flight_tail made settled e tr :
  in_flight_bounded made settled limit (e :: tr) ->
  in_flight_bounded (made + Nat.b2n (is_WorkerProcess e))
    (settled + Nat.b2n (is_Settled e)) limit tr.
Proof.
  intros H pre post E. specialize (H (e :: pre) post).
  rewrite !count_cons in H. simpl in H. specialize (H (f_equal (cons e) E)). lia.
Qed.

Lemma in_flight_app tr1 :
  forall made settled tr2,
    in_flight_bounded made settled limit tr1 ->
    in_flight_bounded (made + count is_WorkerProcess tr1)
      (settled + count is_Settled tr1) limit tr2 ->
    in_flight_bounded made settled limit (tr1 ++ tr2).
Proof.
  induction tr1 as [|e tr1 IH]; intros made settled tr2 H1 H2.
  - eapply in_flight_ext; [| |exact H2]; unfold count; simpl; lia.
  - cbn [app]. apply in_flight_cons; [apply (in_flight_start H1)|].
    apply IH; [apply in_flight_tail; exact H1|].
    eapply in_flight_ext; [| |exact H2]; rewrite count_cons; lia.
Qed.

(** Events that are no calls to the worker leave the bound alone. *)
Lemma in_flight_quiet made settled tr :
  made <= settled + limit -> none is_WorkerProcess tr ->
  in_flight_bounded made settled limit tr.
Proof.
  intros H Hnone. revert made settled H.
  induction Hnone as [|e tr He _ IH]; intros made settled H.
  - apply in_flight_nil. exact H.
  - apply in_flight_cons; [exact H|]. apply IH. rewrite He. simpl. lia.
Qed.

Lemma in_flight_then_quiet made settled tr1 tr2 :
  in_flight_bounded made settled limit tr1 -> none is_WorkerProcess tr2 ->
  in_flight_bounded made settled limit (tr1 ++ tr2).
Proof.
  intros H1 H2. apply in_flight_app; [exact H1|].
  apply in_flight_quiet; [apply in_flight_end; exact H1|exact H2].
Qed.

Lemma in_flight_dispatch config chunks (started : list nat) :
  forall made settled,
    made + length started <= settled + limit ->
    in_flight_bounded made settled limit
      (map (process_call (Page:=Page) config chunks) started).
Proof.
  induction started as [|x l IH]; intros made settled H.
  - apply in_flight_nil. simpl in H. lia.
  - cbn [map]. apply in_flight_cons; [simpl in H; lia|].
    cbn [process_call is_WorkerProcess is_Settled Nat.b2n].
    apply IH. simpl in H. lia.
Qed.

Lemma pMap_loop_in_flight config chunks totalAssets totalJobs :
  forall fuel next inflight progress made settled,
    made = settled + length inflight ->
    length inflight <= limit ->
    let f := pMap_loop w fuel config chunks totalAssets totalJobs next inflight progress in
    in_flight_bounded made settled limit (before f) /\
    in_flight_bounded (made + count is_WorkerProcess (before f))
      (settled + count is_Settled (before f)) limit (after f).
Proof.
  induction fuel as [|fuel IH]; intros next inflight progress made settled Hmade Hlimit.
  - cbn. split; apply in_flight_nil; unfold count; simpl; lia.
  - destruct inflight as [|j inflight'].
    { cbn. split; apply in_flight_nil; unfold count; simpl in *; lia. }
    cbn [pMap_loop].
    assert (Hne : j :: inflight' <> []) by discriminate.
    pose proof (next_settled_shorter w Hne) as Hlen.
    destruct (next_settled w (j :: inflight')) as [job rest].
    cbn [snd] in Hlen. cbn [length pred] in Hlen, Hmade, Hlimit.
    destruct (worker_process w job) as [u|err]; cbn [before after settles].
    + set (started := if next <? length chunks then [next] else []).
      assert (Hstarted : length started <= 1)
        by (subst started; destruct (next <? length chunks); simpl; lia).
      destruct (@process_calls_count Page config chunks started) as [Hp Hs].
      destruct (IH (next + length started) (rest ++ started) (S progress)
                  (made + length started) (S settled)) as [IH1 IH2].
      * rewrite length_app. lia.
      * rewrite length_app. lia.
      * set (f := pMap_loop _ _ _ _ _ _ _ _ _) in *.
        assert (Hbefore : in_flight_bounded made settled limit
                            (Settled image_processor job (Resolved tt)
                               :: WriteLine (progress_line totalAssets
                                               (Math_round_div (S progress * 100) totalJobs))
                               :: map (process_call config chunks) started ++ before f)).
        { apply in_flight_cons; [lia|]. apply in_flight_cons; [simpl; lia|].
          cbn [is_WorkerProcess is_Settled Nat.b2n].
          apply in_flight_app.
          - apply in_flight_dispatch. lia.
          - eapply in_flight_ext; [| |exact IH1]; rewrite ?Hp, ?Hs; lia. }
        split; [exact Hbefore|].
        eapply in_flight_ext; [| |exact IH2];
          rewrite !count_cons, count_app, ?Hp, ?Hs; simpl; lia.
    + split.
      * apply in_flight_cons; [lia|]. apply in_flight_nil. simpl. lia.
      * apply in_flight_quiet.
        -- unfold count. simpl. lia.
        -- eapply none_of_kind; [|apply stragglers_events].
           intros e He. apply straggler_event_kind in He. tauto.
Qed.

Lemma pMap_in_flight config chunks totalAssets totalJobs :
  let f := pMap w config chunks totalAssets totalJobs limit in
  in_flight_bounded 0 0 limit (before f) /\
  in_flight_bounded (count is_WorkerProcess (before f))
    (count is_Settled (before f)) limit (after f).
Proof.
  unfold pMap. destruct (Nat.ltb_spec limit 1);
    cbn [before after]; [split; apply in_flight_nil; unfold count; simpl; lia|].
  set (started := seq 0 (Nat.min limit (length chunks))).
  assert (Hlen : length started = Nat.min limit (length chunks))
    by (subst started; apply length_seq).
  destruct (@process_calls_count Page config chunks started) as [Hp Hs].
  destruct (@pMap_loop_in_flight config chunks totalAssets totalJobs (length chunks)
              (length started) started 0 (length started) 0) as [H1 H2];
    [reflexivity|lia|].
  set (f := pMap_loop _ _ _ _ _ _ _ _ _) in *.
  split.
  - apply in_flight_app; [apply in_flight_dispatch; lia|].
    eapply in_flight_ext; [| |exact H1]; rewrite ?Hp, ?Hs; lia.
  - eapply in_flight_ext; [| |exact H2]; rewrite count_app, ?Hp, ?Hs; lia.
Qed.

End InFlight.

(** X8. At every point of a run of [processImages], the calls to
    [worker.process] made so far and not yet settled are at most
    [sysinfo.cpus.logical]. *)
Theorem image_calls_in_flight_are_bounded :
  forall (Page : Type) (w : World Page) (queue : list AssetJob) (config : Config)
         (pre post : list (event Page)),
    trace (processImages w queue config) = pre ++ post ->
    count is_WorkerProcess pre <= count is_Settled pre + cpus_logical w.
Proof.
  intros Page w queue config.
  cut (in_flight_bounded 0 0 (cpus_logical w) (trace (processImages w queue config))).
  { intros H pre post E. exact (H pre post E). }
  destruct (processImages_cases w queue config)
    as [[err [_ [_ Hrun]]]|[existing [head [Hhead Hrun]]]].
  { rewrite Hrun. apply in_flight_quiet; [lia|repeat constructor]. }
  assert (Hhead' : none is_WorkerProcess head /\ count is_WorkerProcess head = 0
                   /\ count is_Settled head = 0).
  { destruct Hhead as [[_ [_ ->]]|[_ [_ ->]]]; repeat split; repeat constructor. }
  destruct Hhead' as [Hh1 [Hh2 Hh3]]. clear Hhead.
  set (chunks := Lodash.chunk queue 25) in *.
  destruct (pMap_in_flight w (cpus_logical w) config chunks (length queue) (length chunks))
    as [Hb Ha].
  pose proof (pMap_events w config chunks (length queue) (length chunks) (cpus_logical w))
    as [_ Hkinds].
  set (f := pMap _ _ _ _ _ _) in *.
  rewrite Hrun. clear Hrun.
  destruct (settles f); unfold trace; cbn [fst];
    (apply in_flight_app; [apply in_flight_quiet; [lia|exact Hh1]|]);
    rewrite Hh2, Hh3; cbn [Nat.add].
  - apply in_flight_app; [exact Hb|].
    apply in_flight_then_quiet; [exact Ha|].
    constructor; [reflexivity|]. constructor; [reflexivity|].
    apply removeUnusedImages_quiet; reflexivity.
  - apply in_flight_app; [exact Hb|].
    apply in_flight_cons; [apply (in_flight_start Ha)|].
    eapply in_flight_ext; [| |exact Ha]; simpl; lia.
Qed.

(** Seven chunks on four processors: when the fifth call is made, one has
    settled. *)
Lemma image_calls_in_flight_are_bounded_witness :
  let cfg := demo_config true true false in
  let queue := images_queue_of 175 in
  let world := calm_world [] [] queue [] cfg in
  exists pre post,
    trace (processImages world queue cfg) = pre ++ post /\
    count is_WorkerProcess pre = 5 /\
    count is_Settled pre = 1 /\
    count is_WorkerProcess pre <= count is_Settled pre + 4.
Proof.
  intros cfg queue world.
  pose (pre := firstn 9 (trace (processImages world queue cfg))).
  pose (post := skipn 9 (trace (processImages world queue cfg))).
  assert (Htrace : trace (processImages world queue cfg) = pre ++ post)
    by (symmetry; apply firstn_skipn).
  exists pre, post. split; [exact Htrace|].
  split; [vm_compute; reflexivity|]. split; [vm_compute; reflexivity|].
  exact (@image_calls_in_flight_are_bounded nat world queue cfg pre post Htrace).
Defined.

(** ** The image stage: what is dispatched *)

Section ImageCalls.
Context {Page : Type}.
Variable w : World Page.
Implicit Types (tr : list (event Page)).

Lemma filter_none {A} (p : A -> bool) (l : list A) : none p l -> filter p l = [].
Proof.
  induction 1 as [|x l Hx _ IH]; [reflexivity|]. simpl. rewrite Hx. exact IH.
Qed.

Lemma filter_process_calls config chunks (started : list nat) :
  filter (@is_WorkerProcess Page) (map (process_call config chunks) started)
    = map (process_call config chunks) started.
Proof. induction started as [|x l IH]; [reflexivity|]. simpl. f_equal. exact IH. Qed.

Lemma pMap_loop_calls config chunks totalAssets totalJobs :
  forall fuel next inflight progress,
    let f := pMap_loop w fuel config chunks totalAssets totalJobs next inflight progress in
    exists m,
      filter is_WorkerProcess (before f)
        = map (process_call config chunks) (seq next m) /\
      next + m <= Nat.max next (length chunks).
Proof.
  induction fuel as [|fuel IH]; intros next inflight progress.
  - exists 0. split; [reflexivity|lia].
  - cbn [pMap_loop]. destruct inflight as [|j inflight'].
    { exists 0. split; [reflexivity|lia]. }
    destruct (next_settled w (j :: inflight')) as [job rest].
    destruct (worker_process w job) as [u|err]; cbn [before].
    + destruct (Nat.ltb_spec next (length chunks)) as [Hlt|Hge].
      * destruct (IH (next + length [next]) (rest ++ [next]) (S progress))
          as [m [Hm Hbound]].
        exists (S m). cbn [filter is_WorkerProcess].
        rewrite filter_app, filter_process_calls, Hm.
        cbn [length] in *. replace (next + 1) with (S next) in * by lia.
        split; [reflexivity|lia].
      * destruct (IH (next + length (@nil nat)) (rest ++ []) (S progress))
          as [m [Hm Hbound]].
        exists m. cbn [filter is_WorkerProcess].
        rewrite filter_app, filter_process_calls, Hm.
        cbn [length] in *. rewrite Nat.add_0_r in *.
        split; [reflexivity|lia].
    + exists 0. split; [reflexivity|lia].
Qed.

Lemma pMap_calls config chunks totalAssets totalJobs concurrency :
  let f := pMap w config chunks totalAssets totalJobs concurrency in
  exists m,
    filter is_WorkerProcess (before f ++ after f)
      = map (process_call config chunks) (seq 0 m) /\
    m <= length chunks /\
    (settles f = Resolved tt -> m = length chunks).
Proof.
  intros f.
  destruct (pMap_events w config chunks totalAssets totalJobs concurrency) as [_ Ha].
  fold f in Ha.
  assert (Hafter : filter is_WorkerProcess (after f) = []).
  { apply filter_none. eapply none_of_kind; [|exact Ha].
    intros e He. apply straggler_event_kind in He. tauto. }
  rewrite filter_app, Hafter, app_nil_r.
  destruct (Nat.ltb_spec concurrency 1) as [Hlt|Hge].
  - exists 0. subst f. unfold pMap.
    destruct (Nat.ltb_spec concurrency 1); [|lia]. cbn [before settles].
    split; [reflexivity|]. split; [lia|discriminate].
  - destruct (pMap_complete w config chunks totalAssets totalJobs Hge) as [_ Hall].
    fold f in Hall.
    assert (Hshape : exists m,
               filter is_WorkerProcess (before f)
                 = map (process_call config chunks) (seq 0 m) /\ m <= length chunks).
    { subst f. unfold pMap. destruct (Nat.ltb_spec concurrency 1); [lia|].
      cbn [before].
      set (k := Nat.min concurrency (length chunks)).
      rewrite length_seq.
      destruct (pMap_loop_calls config chunks totalAssets totalJobs (length chunks)
                  k (seq 0 k) 0) as [m [Hm Hbound]].
      exists (k + m). rewrite filter_app, filter_process_calls, Hm, <- map_app.
      rewrite seq_app. split; [reflexivity|]. subst k. lia. }
    destruct Hshape as [m [Hm Hbound]]. exists m.
    split; [exact Hm|]. split; [exact Hbound|].
    intros Hres. destruct (Hall Hres) as [Hcount _].
    unfold count in Hcount. rewrite Hm, length_map, length_seq in Hcount. exact Hcount.
Qed.

(** The calls of a whole run of [processImages]. *)
Lemma processImages_calls queue config :
  let chunks := Lodash.chunk queue 25 in
  exists m,
    filter is_WorkerProcess (trace (processImages w queue config))
      = map (process_call config chunks) (seq 0 m) /\
    m <= length chunks /\
    (outcome (processImages w queue config) = Resolved tt -> m = length chunks).
Proof.
  intros chunks.
  destruct (processImages_cases w queue config)
    as [[err [_ [_ Hrun]]]|[existing [head [Hhead Hrun]]]].
  { exists 0. rewrite Hrun. split; [reflexivity|]. split; [lia|discriminate]. }
  assert (Hhead' : filter is_WorkerProcess head = []).
  { destruct Hhead as [[_ [_ ->]]|[_ [_ ->]]]; reflexivity. }
  fold chunks in Hrun.
  destruct (pMap_calls config chunks (length queue) (length chunks) (cpus_logical w))
    as [m [Hm [Hbound Hall]]].
  set (f := pMap _ _ _ _ _ _) in *.
  assert (Hq : filter is_WorkerProcess
                 (trace (removeUnusedImages w queue config existing)) = []).
  { apply filter_none. apply removeUnusedImages_quiet; reflexivity. }
  rewrite filter_app in Hm.
  exists m. rewrite Hrun. clear Hrun.
  destruct (settles f) as [[]|err]; unfold trace, outcome in *; cbn [fst snd].
  - split; [|split; [exact Hbound|intros _; apply Hall; reflexivity]].
    rewrite !filter_app, Hhead'. cbn [filter is_WorkerProcess app].
    rewrite Hq, app_nil_r. exact Hm.
  - split; [|split; [exact Hbound|discriminate]].
    rewrite !filter_app, Hhead'. cbn [filter is_WorkerProcess app]. exact Hm.
Qed.

Lemma in_filter_iff {A} (p : A -> bool) (l : list A) x :
  p x = true -> (In x l <-> In x (filter p l)).
Proof. intros Hx. rewrite filter_In. tauto. Qed.

End ImageCalls.

(** X9. [processImages] hands the chunks of the image queue to
    [worker.process] in order, each at most once: the calls of a run are the
    calls for the first [m] chunks; and when the stage resolves, every chunk
    was handed over. *)
Theorem image_chunks_are_processed_in_order :
  forall (Page : Type) (w : World Page) (queue : list AssetJob) (config : Config),
    let chunks := Lodash.chunk queue 25 in
    exists m,
      m <= length chunks /\
      filter is_WorkerProcess (trace (processImages w queue config))
        = map (process_call config chunks) (seq 0 m) /\
      (outcome (processImages w queue config) = Resolved tt -> m = length chunks).
Proof.
  intros Page w queue config chunks.
  destruct (processImages_calls w queue config) as [m [Hm [Hbound Hall]]].
  exists m. split; [exact Hbound|]. split; [exact Hm|exact Hall].
Qed.

(** X10. Every call to [worker.process] carries a chunk of the image queue,
    of at least one image and at most 25, together with the context and the
    image options of the configuration. *)
Theorem process_payload_is_a_bounded_chunk :
  forall (Page : Type) (w : World Page) (queue : list AssetJob) (config : Config)
         (job : nat) (payload : ProcessPayload),
    In (WorkerProcess job payload) (trace (processImages w queue config)) ->
    nth_error (Lodash.chunk queue 25) job = Some (process_queue payload) /\
    1 <= length (process_queue payload) <= 25 /\
    process_context payload = projectContext config /\
    process_imagesConfig payload = images config.
Proof.
  intros Page w queue config job payload Hin.
  set (chunks := Lodash.chunk queue 25).
  destruct (processImages_calls w queue config) as [m [Hm [Hbound _]]].
  fold chunks in Hm, Hbound.
  apply (in_filter_iff is_WorkerProcess) in Hin; [|reflexivity].
  rewrite Hm in Hin. apply in_map_iff in Hin. destruct Hin as [i [E Hi]].
  unfold process_call in E. injection E as -> <-. cbn [process_queue process_context
    process_imagesConfig]. apply in_seq in Hi.
  assert (Hjob : job < length chunks) by lia.
  assert (Hnth : nth_error chunks job = Some (nth job chunks [])).
  { apply nth_error_nth'. exact Hjob. }
  split; [exact Hnth|]. split; [|split; reflexivity].
  destruct (@chunk_spec AssetJob queue 25) as [Hlen [_ Hsizes]]; [lia|].
  fold chunks in Hlen, Hsizes. rewrite (Hsizes job _ Hnth).
  destruct (S job <? ceil_div (length queue) 25); [lia|].
  destruct (Nat.eqb_spec (length queue mod 25) 0) as [E|NE]; [lia|].
  pose proof (Nat.mod_upper_bound (length queue) 25). lia.
Qed.

Lemma process_payload_is_a_bounded_chunk_witness :
  let cfg := demo_config true true false in
  let queue := images_queue_of 30 in
  let world := calm_world [] [] queue [] cfg in
  exists payload,
    In (WorkerProcess 1 payload) (trace (processImages world queue cfg)) /\
    length (process_queue payload) = 5 /\
    1 <= length (process_queue payload) <= 25.
Proof.
  intros cfg queue world.
  pose (payload := {| process_queue := skipn 25 queue;
                      process_context := projectContext cfg;
                      process_imagesConfig := images cfg |}).
  assert (Hin : In (WorkerProcess 1 payload) (trace (processImages world queue cfg)))
    by (vm_compute; do 3 right; left; reflexivity).
  exists payload. split; [exact Hin|]. split; [reflexivity|].
  exact (proj1 (proj2 (@process_payload_is_a_bounded_chunk nat world queue cfg 1
                         payload Hin))).
Defined.

(** ** The image stage: when files are removed, and the last progress line *)

Section ImageStageSuccess.
Context {Page : Type}.
Variable w : World Page.
Implicit Types (tr : list (event Page)).

Lemma count_zero_none {A} (p : A -> bool) (l : list A) : count p l = 0 -> none p l.
Proof.
  unfold count. induction l as [|x l IH]; intros H; [constructor|].
  simpl in H. destruct (p x) eqn:Hx; [discriminate|].
  constructor; [exact Hx|apply IH; exact H].
Qed.

(** The last event of a kind cuts the trace. *)
Lemma last_split {A} (p : A -> bool) (l : list A) :
  count p l <> 0 ->
  exists pre x post, l = pre ++ x :: post /\ p x = true /\ none p post.
Proof.
  induction l as [|y l IH]; intros H; [unfold count in H; simpl in H; congruence|].
  destruct (Nat.eq_dec (count p l) 0) as [Hz|Hnz].
  - exists [], y, l. split; [reflexivity|].
    split; [|apply count_zero_none; exact Hz].
    unfold count in *. simpl in H. destruct (p y); [reflexivity|congruence].
  - destruct (IH Hnz) as [pre [x [post [-> [Hx Hpost]]]]].
    exists (y :: pre), x, post. auto.
Qed.

Lemma in_removeUnusedImages queue config existing p :
  In (FsRemove p) (trace (removeUnusedImages w queue config existing)) ->
  removeUnused (images config) = true /\
  exists f, In f (extraImages_of queue existing) /\
            p = path_join w (imagesDir config) f.
Proof.
  unfold removeUnusedImages. fold (newImages_of queue). fold (extraImages_of queue existing).
  destruct (removeUnused (images config)); cbn [andb]; [|intros []].
  destruct (negb (length existing =? 0)); [|intros []].
  destruct (negb (length (extraImages_of queue existing) =? 0)); [|intros []].
  intros H. split; [reflexivity|].
  apply in_trace_bind in H. destruct H as [H|[u [_ H]]].
  - apply in_for_of_perform in H. destruct H as [f [Hf E]].
    injection E as ->. exists f. auto.
  - simpl in H. destruct H as [H|[]]. discriminate.
Qed.

(** A run of [processImages] that gets to the removal of unused images. *)
Lemma processImages_after_fanout queue config :
  let chunks := Lodash.chunk queue 25 in
  let f := pMap w config chunks (length queue) (length chunks) (cpus_logical w) in
  (exists existing head,
      settles f = Resolved tt /\
      ((emptyOutputDir config = true /\ existing = []) \/
       (emptyOutputDir config = false /\
        fs_readdir w (imagesDir config) = Resolved existing)) /\
      none is_rejection head /\ none is_completion head /\ none is_FsRemove head /\
      after f = [] /\
      count is_completion (before f) = length chunks /\
      none is_rejection (before f) /\ none is_FsRemove (before f) /\
      processImages w queue config =
        (head ++ before f
           ++ WorkerEnd image_processor
           :: WriteLine (images_done_line w (length queue))
           :: trace (removeUnusedImages w queue config existing),
         outcome (removeUnusedImages w queue config existing))) \/
  ((exists err, outcome (processImages w queue config) = Rejected err) /\
   none is_FsRemove (trace (processImages w queue config))).
Proof.
  intros chunks f.
  destruct (processImages_cases w queue config)
    as [[err [_ [_ Hrun]]]|[existing [head [Hhead Hrun]]]].
  { right. rewrite Hrun. split; [exists err; reflexivity|repeat constructor]. }
  fold chunks f in Hrun.
  assert (Hhead' : none is_rejection head /\ none is_completion head
                   /\ none is_FsRemove head).
  { destruct Hhead as [[_ [_ ->]]|[_ [_ ->]]]; repeat split; repeat constructor. }
  destruct Hhead' as [Hh1 [Hh2 Hh3]].
  destruct (fanout_none w is_FsRemove config chunks (length queue) (length chunks)
              (cpus_logical w)) as [Hb Ha].
  { intros e He. apply fanout_event_kind in He. tauto. }
  pose proof (pMap_settles w config chunks (length queue) (length chunks) (cpus_logical w))
    as Hsettles.
  fold f in Hb, Ha, Hsettles. cbv zeta in Hsettles.
  destruct (settles f) as [[]|err] eqn:Ef.
  - left. exists existing, head. destruct Hsettles as [Hafter Hrej].
    assert (HK : 1 <= cpus_logical w).
    { destruct (Nat.ltb_spec (cpus_logical w) 1) as [Hlt|Hge]; [|exact Hge].
      exfalso. subst f. unfold pMap in Ef.
      destruct (Nat.ltb_spec (cpus_logical w) 1); [discriminate|lia]. }
    destruct (pMap_complete w config chunks (length queue) (length chunks) HK)
      as [_ Hall].
    fold f in Hall. destruct (Hall Ef) as [_ Hcount].
    split; [reflexivity|]. split.
    { destruct Hhead as [[E [-> _]]|[E [Eread _]]]; [left|right]; auto. }
    repeat (split; [assumption|]).
    rewrite Hrun, Hafter. reflexivity.
  - right. rewrite Hrun. split; [exists err; reflexivity|].
    unfold trace. cbn [fst]. repeat (apply none_app; split); auto.
    constructor; [reflexivity|exact Ha].
Qed.

(** In every run of the image stage, a call that resolves is followed at
    once by its progress line. *)
Lemma processImages_reports_progress queue config :
  reports_progress (length queue) (length (Lodash.chunk queue 25)) 0
    (trace (processImages w queue config)).
Proof.
  set (chunks := Lodash.chunk queue 25).
  destruct (processImages_cases w queue config)
    as [[err' [_ [_ Hrun]]]|[existing [head [Hhead Hrun]]]].
  { rewrite Hrun. apply reports_progress_none. repeat constructor. }
  assert (Hhead' : none is_completion head).
  { destruct Hhead as [[_ [_ ->]]|[_ [_ ->]]]; repeat constructor. }
  clear Hhead. fold chunks in Hrun.
  pose proof (pMap_settles w config chunks (length queue) (length chunks) (cpus_logical w))
    as Hsettles.
  destruct (pMap_progress w config chunks (length queue) (length chunks) (cpus_logical w))
    as [Hb Ha].
  set (f := pMap _ _ _ _ _ _) in *. cbv zeta in Hsettles.
  rewrite Hrun. clear Hrun.
  destruct (settles f) as [u|err']; unfold trace; cbn [fst].
  - destruct Hsettles as [Hafter _]. rewrite Hafter. cbn [app].
    apply reports_progress_app; [apply reports_progress_none; exact Hhead'|].
    rewrite (none_count Hhead'). cbn [Nat.add].
    apply reports_progress_app; [exact Hb|].
    apply reports_progress_none.
    constructor; [reflexivity|]. constructor; [reflexivity|].
    apply removeUnusedImages_quiet; reflexivity.
  - apply reports_progress_app; [apply reports_progress_none; exact Hhead'|].
    rewrite (none_count Hhead'). cbn [Nat.add].
    apply reports_progress_app; [exact Hb|].
    apply reports_progress_skip; [reflexivity|exact Ha].
Qed.

Lemma Math_round_div_all n : 0 < n -> Math_round_div (n * 100) n = 100.
Proof.
  intros Hn. unfold Math_round_div. symmetry.
  apply (Nat.div_unique _ _ _ n); lia.
Qed.

End ImageStageSuccess.

(** X11. [processImages] removes a file only when [removeUnused] is set, the
    output directory was not emptied, every call to [worker.process] has
    resolved (one per chunk) and none has rejected; and what it removes is a
    name the images directory held before, which is the base name of no
    destination in the queue. *)
Theorem images_are_removed_only_after_success :
  forall (Page : Type) (w : World Page) (queue : list AssetJob) (config : Config)
         (p : string),
    let run := processImages w queue config in
    In (FsRemove p) (trace run) ->
    removeUnused (images config) = true /\
    emptyOutputDir config = false /\
    none is_rejection (trace run) /\
    count is_completion (trace run) = length (Lodash.chunk queue 25) /\
    exists existing f,
      fs_readdir w (imagesDir config) = Resolved existing /\
      In f existing /\ ~ In f (newImages_of queue) /\
      p = path_join w (imagesDir config) f.
Proof.
  intros Page w queue config p run Hin. subst run.
  destruct (processImages_after_fanout w queue config)
    as [[existing [head [Ef [Hread [Hh1 [Hh2 [Hh3 [Hafter [Hcount [Hb1 [Hb2 Hrun]]]]]]]]]]]
       |[_ Hnone]].
  2: { eapply none_In in Hin; [|exact Hnone]. discriminate. }
  set (f := pMap _ _ _ _ _ _) in *.
  rewrite Hrun in Hin |- *. unfold trace in Hin |- *. cbn [fst] in Hin |- *.
  assert (Hstep : In (FsRemove p) (fst (removeUnusedImages w queue config existing))).
  { apply in_app_or in Hin. destruct Hin as [H|H].
    - eapply none_In in H; [|exact Hh3]. discriminate.
    - apply in_app_or in H. destruct H as [H|H].
      + eapply none_In in H; [|exact Hb2]. discriminate.
      + destruct H as [H|[H|H]]; [discriminate|discriminate|exact H]. }
  destruct (in_removeUnusedImages w queue config existing p Hstep)
    as [Hunused [name [Hname ->]]].
  unfold extraImages_of in Hname. apply filter_In in Hname.
  destruct Hname as [Hexisting Hnew]. apply negb_true_iff in Hnew.
  assert (Hnot : ~ In name (newImages_of queue)).
  { intros H. apply includes_In in H. congruence. }
  split; [exact Hunused|].
  destruct Hread as [[_ ->]|[Hempty Hread]]; [contradiction|].
  split; [exact Hempty|]. split; [|split].
  - apply none_app; split; [exact Hh1|]. apply none_app; split; [exact Hb1|].
    constructor; [reflexivity|]. constructor; [reflexivity|].
    apply removeUnusedImages_quiet; reflexivity.
  - change (WorkerEnd image_processor :: WriteLine ?l :: ?t)
      with ([WorkerEnd (Page:=Page) image_processor; WriteLine l] ++ t).
    rewrite !count_app, (none_count Hh2), Hcount.
    pose proof (none_count (removeUnusedImages_quiet w queue config existing is_completion
                              (fun _ => eq_refl) (fun _ => eq_refl))) as Hq.
    unfold trace in Hq. rewrite Hq.
    unfold count. cbn [filter is_completion length]. lia.
  - exists existing, name. auto.
Qed.

Lemma images_are_removed_only_after_success_witness :
  let cfg := demo_config false true true in
  let queue := images_queue_of 30 in
  let world := calm_world [] [] queue ["0.png"; "old.png"] cfg in
  In (FsRemove "/site/dist/assets/static/old.png") (trace (processImages world queue cfg)) /\
  none is_rejection (trace (processImages world queue cfg)) /\
  count is_completion (trace (processImages world queue cfg)) = 2.
Proof.
  intros cfg queue world.
  assert (Hin : In (FsRemove "/site/dist/assets/static/old.png")
                   (trace (processImages world queue cfg)))
    by (vm_compute; do 11 right; left; reflexivity).
  split; [exact Hin|].
  destruct (@images_are_removed_only_after_success nat world queue cfg _ Hin)
    as [_ [_ [Hrej [Hcount _]]]].
  split; [exact Hrej|exact Hcount].
Defined.

(** X12. When [processImages] resolves on a queue that is not empty, the last
    call to resolve is followed by the progress line at 100 percent. *)
Theorem last_progress_line_shows_100 :
  forall (Page : Type) (w : World Page) (queue : list AssetJob) (config : Config),
    queue <> [] ->
    outcome (processImages w queue config) = Resolved tt ->
    exists pre worker job post,
      trace (processImages w queue config)
        = pre ++ Settled worker job (Resolved tt)
              :: WriteLine (progress_line (length queue) 100) :: post /\
      none is_completion post.
Proof.
  intros Page w queue config Hqueue Hout.
  set (chunks := Lodash.chunk queue 25).
  assert (HN : 1 <= length chunks).
  { destruct (@chunk_spec AssetJob queue 25) as [Hlen _]; [lia|].
    fold chunks in Hlen. rewrite Hlen. unfold ceil_div.
    assert (1 <= length queue) by (destruct queue; [congruence|simpl; lia]).
    apply Nat.div_le_lower_bound; lia. }
  pose proof (@processImages_reports_progress Page w queue config) as Hprogress.
  fold chunks in Hprogress.
  assert (Hcount : count is_completion (trace (processImages w queue config))
                   = length chunks).
  { destruct (processImages_after_fanout w queue config)
      as [[existing [head [Ef [Hread [Hh1 [Hh2 [Hh3 [Hafter [Hcount [Hb1 [Hb2 Hrun]]]]]]]]]]]
         |[[err Herr] _]]; [|congruence].
    unfold chunks. rewrite Hrun. unfold trace. cbn [fst].
    change (WorkerEnd image_processor :: WriteLine ?l :: ?t)
      with ([WorkerEnd (Page:=Page) image_processor; WriteLine l] ++ t).
    rewrite !count_app, (none_count Hh2), Hcount.
    pose proof (none_count (removeUnusedImages_quiet w queue config existing is_completion
                              (fun _ => eq_refl) (fun _ => eq_refl))) as Hq.
    unfold trace in Hq. rewrite Hq.
    unfold count. cbn [filter is_completion length]. lia. }
  destruct (@last_split _ is_completion (trace (processImages w queue config)))
    as [pre [x [post [E [Hx Hpost]]]]]; [lia|].
  destruct x as [| | | | | | | | | | |worker job [[]|err]| | | | | | | | |];
    try discriminate Hx.
  destruct (Hprogress pre worker job post E) as [post' Epost].
  assert (Hpre : count is_completion pre = length chunks - 1).
  { rewrite E, count_app, count_cons in Hcount.
    rewrite (none_count Hpost) in Hcount. simpl in Hcount. lia. }
  exists pre, worker, job, post'. split.
  - rewrite E, Epost. unfold progress_after.
    rewrite Hpre. cbn [Nat.add].
    replace (S (length chunks - 1)) with (length chunks) by lia.
    rewrite Math_round_div_all by lia. reflexivity.
  - rewrite Epost in Hpost. inversion Hpost; assumption.
Qed.

Lemma last_progress_line_shows_100_witness :
  let cfg := demo_config true true false in
  let queue := images_queue_of 60 in
  let world := calm_world [] [] queue [] cfg in
  queue <> [] /\
  outcome (processImages world queue cfg) = Resolved tt /\
  exists pre worker job post,
    trace (processImages world queue cfg)
      = pre ++ Settled worker job (Resolved tt)
            :: WriteLine "Processing images (60 images) - 100%" :: post /\
    none is_completion post.
Proof.
  intros cfg queue world.
  assert (Hq : queue <> []) by discriminate.
  assert (Hout : outcome (processImages world queue cfg) = Resolved tt)
    by (vm_compute; reflexivity).
  split; [exact Hq|]. split; [exact Hout|].
  exact (@last_progress_line_shows_100 nat world queue cfg Hq Hout).
Defined.

(** ** Removing the unused images *)

Section BaseName.
Import Path.

Lemma list_ascii_of_string_app (s1 s2 : string) :
  list_ascii_of_string (s1 ++ s2)
    = list_ascii_of_string s1 ++ list_ascii_of_string s2.
Proof. induction s1 as [|c s1 IH]; [reflexivity|]. simpl. f_equal. exact IH. Qed.

Lemma takeWhile_app_stop {A} (p : A -> bool) (l : list A) x rest :
  forallb p l = true -> p x = false -> takeWhile p (l ++ x :: rest) = l.
Proof.
  intros Hl Hx. induction l as [|y l IH]; simpl.
  - rewrite Hx. reflexivity.
  - simpl in Hl. apply andb_true_iff in Hl. destruct Hl as [Hy Hl].
    rewrite Hy. f_equal. apply IH. exact Hl.
Qed.

Lemma forallb_rev {A} (p : A -> bool) (l : list A) :
  forallb p (rev l) = forallb p l.
Proof.
  induction l as [|x l IH]; [reflexivity|].
  simpl. rewrite forallb_app, IH. simpl. rewrite andb_true_r. apply andb_comm.
Qed.

(** The base name of a file name under a directory is the file name. *)
Lemma basename_of_joined (dir name : string) :
  is_file_name name = true -> basename (dir ++ "/" ++ name) = name.
Proof.
  unfold is_file_name. intros H. apply andb_true_iff in H. destruct H as [Hne Hns].
  unfold basename. rewrite !list_ascii_of_string_app.
  change (list_ascii_of_string "/") with [slash].
  cbn [app]. rewrite rev_app_distr. cbn [rev]. rewrite <- app_assoc. cbn [app].
  set (l := list_ascii_of_string name) in *.
  assert (Hl : l <> []).
  { intros E. apply negb_true_iff in Hne. apply String.eqb_neq in Hne. apply Hne.
    rewrite <- (string_of_list_ascii_of_string name). fold l. rewrite E. reflexivity. }
  assert (Hrev : forallb (fun c => negb (is_slash c)) (rev l) = true)
    by (rewrite forallb_rev; exact Hns).
  destruct (rev l) as [|c t] eqn:E.
  { exfalso. apply Hl. rewrite <- (rev_involutive l), E. reflexivity. }
  cbn [app dropWhile]. simpl in Hrev. apply andb_true_iff in Hrev.
  destruct Hrev as [Hc Ht]. apply negb_true_iff in Hc. rewrite Hc.
  change (c :: t ++ slash :: rev (list_ascii_of_string dir))
    with ((c :: t) ++ slash :: rev (list_ascii_of_string dir)).
  rewrite takeWhile_app_stop.
  - rewrite <- E, rev_involutive. apply string_of_list_ascii_of_string.
  - simpl. rewrite Hc. exact Ht.
  - unfold is_slash. rewrite Ascii.eqb_refl. reflexivity.
Qed.

End BaseName.

(** X13. An image the queue writes under some directory with the file name
    [name] keeps the pre-existing file of that name: whatever the removal of
    unused images removes is a pre-existing name other than [name]. *)
Theorem written_image_is_never_removed :
  forall (Page : Type) (w : World Page) (queue : list AssetJob) (config : Config)
         (existing : list string) (job : AssetJob) (dir name p : string),
    In job queue ->
    destPath job = (dir ++ "/" ++ name)%string ->
    is_file_name name = true ->
    In (FsRemove p) (trace (removeUnusedImages w queue config existing)) ->
    exists f, f <> name /\ In f existing /\ p = path_join w (imagesDir config) f.
Proof.
  intros Page w queue config existing job dir name p Hjob Hdest Hname Hin.
  destruct (in_removeUnusedImages w queue config existing p Hin) as [_ [f [Hf ->]]].
  unfold extraImages_of in Hf. apply filter_In in Hf. destruct Hf as [Hexisting Hnew].
  apply negb_true_iff in Hnew.
  exists f. split; [|split; [exact Hexisting|reflexivity]].
  intros ->. assert (Hinc : includes (newImages_of queue) name = true).
  { apply includes_In. unfold newImages_of. apply in_map_iff.
    exists job. split; [|exact Hjob]. rewrite Hdest. apply basename_of_joined. exact Hname. }
  congruence.
Qed.

Lemma written_image_is_never_removed_witness :
  let cfg := demo_config false true true in
  let job := image "/site/dist/assets/static/a.png" in
  let existing := ["a.png"; "b.png"] in
  let world := calm_world [] [] [job] existing cfg in
  In job [job] /\
  is_file_name "a.png" = true /\
  In (FsRemove "/site/dist/assets/static/b.png")
     (trace (removeUnusedImages world [job] cfg existing)) /\
  exists f, f <> "a.png" /\ In f existing /\
            "/site/dist/assets/static/b.png" = path_join world (imagesDir cfg) f.
Proof.
  intros cfg job existing world.
  assert (H1 : In job [job]) by (left; reflexivity).
  assert (H2 : is_file_name "a.png" = true) by reflexivity.
  assert (H3 : In (FsRemove "/site/dist/assets/static/b.png")
                  (trace (removeUnusedImages world [job] cfg existing)))
    by (vm_compute; left; reflexivity).
  split; [exact H1|]. split; [exact H2|]. split; [exact H3|].
  exact (@written_image_is_never_removed nat world [job] cfg existing job
           "/site/dist/assets/static" "a.png" _ H1 eq_refl H2 H3).
Defined.

(** X14. When [removeUnused] is not set, or every pre-existing name is the
    base name of a destination in the queue, the removal of unused images
    does nothing at all: no file is removed and nothing is reported. *)
Theorem nothing_unused_nothing_removed :
  forall (Page : Type) (w : World Page) (queue : list AssetJob) (config : Config)
         (existing : list string),
    removeUnused (images config) = false \/
      (forall f, In f existing -> In f (newImages_of queue)) ->
    removeUnusedImages w queue config existing = ret tt.
Proof.
  intros Page w queue config existing [Hoff|Hall].
  - unfold removeUnusedImages. rewrite Hoff. reflexivity.
  - unfold removeUnusedImages. fold (newImages_of queue).
    assert (Hextra : filter (fun value => negb (includes (newImages_of queue) value))
                       existing = []).
    { apply filter_none. apply Forall_forall. intros f Hf.
      apply negb_false_iff. apply includes_In. apply Hall. exact Hf. }
    rewrite Hextra.
    destruct (removeUnused (images config) && negb (length existing =? 0)); reflexivity.
Qed.

Lemma nothing_unused_nothing_removed_witness :
  let cfg := demo_config false true true in
  let queue := [image "/site/dist/assets/static/a.png"; image "/elsewhere/b.png"] in
  let existing := ["b.png"; "a.png"] in
  let world := calm_world [] [] queue existing cfg in
  removeUnusedImages world queue cfg existing = ret tt.
Proof.
  intros cfg queue existing world.
  apply (@nothing_unused_nothing_removed nat world queue cfg existing).
  right. intros f [<-|[<-|[]]]; vm_compute; tauto.
Defined.

(** X15. When [removeUnused] is set, some pre-existing names are unused and
    every removal resolves, the step removes each of them under the images
    directory, in the order the directory listed them, then reports how many
    it removed, and resolves. *)
Theorem unused_images_are_removed_and_counted :
  forall (Page : Type) (w : World Page) (queue : list AssetJob) (config : Config)
         (existing : list string),
    let extra := extraImages_of queue existing in
    let remove f := FsRemove (Page:=Page) (path_join w (imagesDir config) f) in
    removeUnused (images config) = true ->
    extra <> [] ->
    (forall f, In f extra -> fs_remove w (path_join w (imagesDir config) f) = Resolved tt) ->
    removeUnusedImages w queue config existing
      = (map remove extra ++ [Info (removed_line (length extra))], Resolved tt).
Proof.
  intros Page w queue config existing extra remove Hunused Hextra Hall.
  unfold removeUnusedImages. fold (newImages_of queue). fold (extraImages_of queue existing).
  fold extra. rewrite Hunused.
  assert (Hexisting : negb (length existing =? 0) = true).
  { destruct existing; [exfalso; apply Hextra; reflexivity|reflexivity]. }
  rewrite Hexisting. cbn [andb].
  assert (Hne : negb (length extra =? 0) = true)
    by (destruct extra; [congruence|reflexivity]).
  rewrite Hne.
  pose proof (for_of_perform_all remove
                (fun f => fs_remove w (path_join w (imagesDir config) f)) extra Hall) as H.
  unfold remove in H. rewrite H. reflexivity.
Qed.

Lemma unused_images_are_removed_and_counted_witness :
  let cfg := demo_config false true true in
  let queue := [image "/site/dist/assets/static/a.png"] in
  let existing := ["a.png"; "b.png"; "c.png"] in
  let world := calm_world [] [] queue existing cfg in
  removeUnusedImages world queue cfg existing
    = ([FsRemove "/site/dist/assets/static/b.png";
        FsRemove "/site/dist/assets/static/c.png";
        Info "- Removed 2 images that where no longer in use"],
       Resolved tt).
Proof.
  intros cfg queue existing world.
  rewrite (@unused_images_are_removed_and_counted nat world queue cfg existing).
  - reflexivity.
  - reflexivity.
  - discriminate.
  - intros f _. reflexivity.
Defined.

(** X16. A removal that rejects ends the step at once with that error: the
    unused names listed after it are left in place, and nothing is
    reported. *)
Theorem failed_removal_stops_the_cleanup :
  forall (Page : Type) (w : World Page) (queue : list AssetJob) (config : Config)
         (existing pre post : list string) (f : string) (err : error),
    let remove f := FsRemove (Page:=Page) (path_join w (imagesDir config) f) in
    removeUnused (images config) = true ->
    extraImages_of queue existing = pre ++ f :: post ->
    (forall g, In g pre -> fs_remove w (path_join w (imagesDir config) g) = Resolved tt) ->
    fs_remove w (path_join w (imagesDir config) f) = Rejected err ->
    removeUnusedImages w queue config existing
      = (map remove pre ++ [remove f], Rejected err).
Proof.
  intros Page w queue config existing pre post f err remove Hunused Hextra Hpre Hf.
  unfold removeUnusedImages. fold (newImages_of queue). fold (extraImages_of queue existing).
  rewrite Hunused.
  assert (Hexisting : negb (length existing =? 0) = true).
  { destruct existing; [|reflexivity].
    exfalso. unfold extraImages_of in Hextra. simpl in Hextra.
    destruct pre; discriminate. }
  rewrite Hexisting, Hextra. cbn [andb].
  assert (Hne : negb (length (pre ++ f :: post) =? 0) = true)
    by (destruct pre; reflexivity).
  rewrite Hne.
  pose proof (for_of_perform_first_failure remove
                (fun g => fs_remove w (path_join w (imagesDir config) g))
                pre f post Hpre Hf) as H.
  unfold remove in H. rewrite H. reflexivity.
Qed.

Lemma failed_removal_stops_the_cleanup_witness :
  let cfg := demo_config false true true in
  let queue := [image "/site/dist/assets/static/a.png"] in
  let existing := ["a.png"; "b.png"; "c.png"; "d.png"] in
  let world := broken_remove_world "/site/dist/assets/static/c.png" queue existing cfg in
  removeUnusedImages world queue cfg existing
    = ([FsRemove "/site/dist/assets/static/b.png";
        FsRemove "/site/dist/assets/static/c.png"],
       Rejected "EACCES").
Proof.
  intros cfg queue existing world.
  rewrite (@failed_removal_stops_the_cleanup nat world queue cfg existing
             ["b.png"] ["d.png"] "c.png" "EACCES").
  - reflexivity.
  - reflexivity.
  - reflexivity.
  - intros g [<-|[]]. reflexivity.
  - reflexivity.
Defined.

(** ** Ending the workers *)

Lemma settle_renders_ends_own_worker {Page} (w : World Page) :
  forall fuel inflight rejected worker,
    In (WorkerEnd worker) (fst (settle_renders w fuel inflight rejected)) ->
    worker = html_writer.
Proof.
  induction fuel as [|fuel IH]; intros inflight rejected worker H; [contradiction|].
  cbn [settle_renders] in H. destruct inflight as [|j inflight']; [contradiction|].
  destruct (next_settled w (j :: inflight')) as [job rest].
  destruct (worker_render w job) as [u|err].
  - specialize (IH rest rejected worker).
    destruct (settle_renders w fuel rest rejected) as [tr r].
    destruct H as [H|H]; [discriminate|]. apply IH. exact H.
  - match type of H with context [settle_renders w fuel rest ?first] =>
      specialize (IH rest first worker);
      destruct (settle_renders w fuel rest first) as [tr r] end.
    destruct H as [H|[H|H]]; [discriminate|congruence|]. apply IH. exact H.
Qed.

(** X17. [renderHTML] ends its worker at least once in every run: once when
    every call resolves, and once for each call that rejects otherwise. *)
Theorem render_worker_is_ended_once_per_rejection :
  forall (Page : Type) (w : World Page) (renderQueue : list Page) (app : App)
         (hashString : string),
    let rejecting :=
      count (render_rejects w) (seq 0 (length (Lodash.chunk renderQueue 350))) in
    count is_WorkerEnd (trace (renderHTML w renderQueue app hashString))
      = Nat.max 1 rejecting /\
    forall worker, In (WorkerEnd worker) (trace (renderHTML w renderQueue app hashString)) ->
                   worker = html_writer.
Proof.
  intros Page w renderQueue app hashString rejecting. split.
  - apply renderHTML_worker_ends.
  - intros worker Hin. rewrite renderHTML_cases in Hin.
    set (chunks := Lodash.chunk renderQueue 350) in *.
    pose proof (@settle_renders_ends_own_worker Page w (length chunks)
                  (seq 0 (length chunks)) None worker) as Hs.
    assert (Hd : ~ In (WorkerEnd worker) (dispatch_renders chunks app hashString)).
    { intros H. apply (proj1 (Forall_forall _ _) (dispatch_renders_events chunks app hashString))
        in H. exact H. }
    destruct (snd (settle_renders w (length chunks) (seq 0 (length chunks)) None));
      unfold trace in Hin; cbn [fst] in Hin; destruct Hin as [H|H]; try discriminate;
      repeat (apply in_app_or in H; destruct H as [H|H]); auto; try contradiction.
    destruct H as [H|[H|[]]]; [congruence|discriminate].
Qed.

(** X18. Once the images directory has been read (or did not have to be),
    [processImages] ends its worker exactly once, whatever the calls to
    [worker.process] do and whether or not a removal rejects; when the read
    rejects, the worker it created is not ended at all. *)
Theorem image_worker_is_ended_once_after_the_read :
  forall (Page : Type) (w : World Page) (queue : list AssetJob) (config : Config),
    (emptyOutputDir config = true \/
     (exists existing, fs_readdir w (imagesDir config) = Resolved existing) ->
     count is_WorkerEnd (trace (processImages w queue config)) = 1) /\
    (emptyOutputDir config = false ->
     (exists err, fs_readdir w (imagesDir config) = Rejected err) ->
     count is_WorkerEnd (trace (processImages w queue config)) = 0 /\
     In (CreateWorker image_processor) (trace (processImages w queue config))).
Proof.
  intros Page w queue config. split.
  - apply processImages_worker_ends.
  - intros Hempty [err Herr].
    destruct (processImages_cases w queue config)
      as [[err' [_ [_ Hrun]]]|[existing [head [Hhead Hrun]]]].
    + rewrite Hrun. split; [reflexivity|left; reflexivity].
    + destruct Hhead as [[E _]|[_ [E _]]]; congruence.
Qed.

Lemma image_worker_is_ended_once_after_the_read_witness :
  let cfg := demo_config false true true in
  let queue := images_queue_of 60 in
  let world := flaky_world [1] [] [] queue ["old.png"] cfg in
  outcome (processImages world queue cfg) = Rejected "worker call failed" /\
  count is_WorkerEnd (trace (processImages world queue cfg)) = 1.
Proof.
  intros cfg queue world. split; [vm_compute; reflexivity|].
  apply (proj1 (@image_worker_is_ended_once_after_the_read nat world queue cfg)).
  right. exists ["old.png"]. reflexivity.
Defined.

(** ** The pipeline as a whole *)

Section StageEvents.
Context {Page : Type}.
Variable w : World Page.

Lemma runWebpack_trace :
  trace (runWebpack w)
    = (if stdout_isTTY w then [] else [Log "Compiling assets..."])
      ++ CompilerRun
      :: match compiler_run w with
         | Resolved _ => [Log ("Compile assets - " ++ timer w "compile" ++ "s")]
         | Rejected _ => []
         end.
Proof.
  unfold runWebpack, bind, when, emit, perform, ret, outcome, trace.
  destruct (stdout_isTTY w); cbn [negb fst snd];
    destruct (compiler_run w); reflexivity.
Qed.

Lemma runWebpack_events :
  Forall (fun e => is_webpack_event e = true) (trace (runWebpack w)).
Proof.
  rewrite runWebpack_trace.
  destruct (stdout_isTTY w); destruct (compiler_run w); repeat constructor.
Qed.

Lemma processFiles_events files_queue :
  Forall (fun e => is_files_event e = true) (trace (processFiles w files_queue)).
Proof.
  unfold processFiles. rewrite trace_bind.
  assert (Hloop : Forall (fun e : event Page => is_files_event e = true)
                    (trace (for_of files_queue (fun file =>
                       perform (FsCopy (Page:=Page) (filePath file) (destPath file) false)
                         (fs_copy w (filePath file) (destPath file)))))).
  { apply Forall_forall. intros e He.
    apply in_for_of_perform in He. destruct He as [x [_ ->]]. reflexivity. }
  destruct (outcome _); [|exact Hloop].
  apply Forall_app. split; [exact Hloop|repeat constructor].
Qed.

Lemma processImages_events queue config :
  Forall (fun e => is_images_event e = true) (trace (processImages w queue config)).
Proof.
  destruct (processImages_cases w queue config)
    as [[err [_ [_ Hrun]]]|[existing [head [Hhead Hrun]]]].
  { rewrite Hrun. repeat constructor. }
  assert (Hhead' : Forall (fun e : event Page => is_images_event e = true) head).
  { destruct Hhead as [[_ [_ ->]]|[_ [_ ->]]]; repeat constructor. }
  destruct (pMap_events w config (Lodash.chunk queue 25) (length queue)
              (length (Lodash.chunk queue 25)) (cpus_logical w)) as [Hb Ha].
  assert (Hq : Forall (fun e : event Page => is_images_event e = true)
                 (trace (removeUnusedImages w queue config existing))).
  { eapply Forall_impl; [|apply removeUnusedImages_events].
    intros e He. destruct e; try contradiction; reflexivity. }
  assert (Hb' : Forall (fun e : event Page => is_images_event e = true)
                  (before (pMap w config (Lodash.chunk queue 25) (length queue)
                             (length (Lodash.chunk queue 25)) (cpus_logical w)))).
  { eapply Forall_impl; [|exact Hb]. intros e He. destruct e; simpl in *; congruence. }
  assert (Ha' : Forall (fun e : event Page => is_images_event e = true)
                  (after (pMap w config (Lodash.chunk queue 25) (length queue)
                            (length (Lodash.chunk queue 25)) (cpus_logical w)))).
  { eapply Forall_impl; [|exact Ha]. intros e He. destruct e; simpl in *; congruence. }
  rewrite Hrun. clear Hrun.
  destruct (settles _); unfold trace; cbn [fst];
    repeat (apply Forall_app; split); auto; repeat constructor; auto.
Qed.

Lemma processImages_keeps_files_when_off queue config :
  removeUnused (images config) = false ->
  none is_FsRemove (trace (processImages w queue config)).
Proof.
  intros Hoff.
  destruct (processImages_after_fanout w queue config)
    as [[existing [head [_ [_ [_ [_ [Hh3 [_ [_ [_ [Hb2 Hrun]]]]]]]]]]]|[_ Hnone]];
    [|exact Hnone].
  rewrite Hrun. unfold trace. cbn [fst].
  apply none_app; split; [exact Hh3|]. apply none_app; split; [exact Hb2|].
  constructor; [reflexivity|]. constructor; [reflexivity|].
  unfold removeUnusedImages. rewrite Hoff. constructor.
Qed.

(** An event of a kind a stage does not produce is not in its trace. *)
Lemma not_of_kind (kind : event Page -> bool) (tr : list (event Page)) e :
  Forall (fun e => kind e = true) tr -> kind e = false -> ~ In e tr.
Proof.
  intros Hkind He Hin. apply (proj1 (Forall_forall _ _) Hkind) in Hin. congruence.
Qed.

End StageEvents.

(** X19. With [removeUnused] not set, the only path a build ever hands to
    [fs.remove] is the manifests directory. *)
Theorem build_removes_only_manifests_when_cleanup_is_off :
  forall (Page : Type) (w : World Page) (context args : string) (app : App) (p : string),
    createApp_oracle w context args = Resolved app ->
    removeUnused (images (config app)) = false ->
    In (FsRemove p) (trace (build w context args)) ->
    p = manifestsDir (config app).
Proof.
  intros Page w context args app p Hcreate Hoff H.
  unfold build in H.
  bind_step H u1 H1. bind_step H u2 H2.
  bind_step H app' Happ.
  change (createApp_oracle w context args = Resolved app') in Happ.
  assert (app' = app) by congruence. subst app'.
  bind_step H u3 H3.
  bind_step H u4 H4.
  { unfold when in H. destruct (emptyOutputDir (config app));
      simpl in H; intuition discriminate. }
  bind_step H stats Hstats.
  { exfalso. revert H. eapply not_of_kind; [apply runWebpack_events|reflexivity]. }
  bind_step H queue Hqueue. bind_step H redirects Hredirects.
  bind_step H queue' Hqueue'.
  bind_step H u5 H5.
  { exfalso. revert H. eapply not_of_kind; [apply renderHTML_events|reflexivity]. }
  bind_step H u6 H6.
  { exfalso. revert H. eapply not_of_kind; [apply processFiles_events|reflexivity]. }
  bind_step H u7 H7.
  { eapply none_In in H; [|apply processImages_keeps_files_when_off; exact Hoff].
    discriminate. }
  bind_step H exists_ Hexists.
  bind_step H u8 H8.
  { unfold when in H. destruct exists_; simpl in H; intuition discriminate. }
  bind_step H u9 H9. bind_step H u10 H10.
  { simpl in H. destruct H as [H|[]]. congruence. }
  bind_step H u11 H11. bind_step H u12 H12.
  bind_step H u13 H13. bind_step H u14 H14.
  simpl in H. contradiction.
Qed.

Lemma build_removes_only_manifests_when_cleanup_is_off_witness :
  let cfg := demo_config false true false in
  let world := calm_world (seq 0 3) [] (images_queue_of 2) ["old.png"] cfg in
  In (FsRemove "/site/dist/assets/manifest") (trace (build world "/site" "")) /\
  removed (trace (build world "/site" "")) = ["/site/dist/assets/manifest"].
Proof.
  intros cfg world.
  assert (Hin : In (FsRemove "/site/dist/assets/manifest") (trace (build world "/site" "")))
    by (apply in_removed; vm_compute; left; reflexivity).
  split; [exact Hin|].
  pose proof (@build_removes_only_manifests_when_cleanup_is_off nat world "/site" ""
                {| config := cfg |} _ eq_refl eq_refl Hin) as E.
  vm_compute. reflexivity.
Defined.

Section BuildHash.
Context {Page : Type}.
Variable w : World Page.

(** The hash handed to the queries. *)
Lemma build_queries_hash context args h :
  In (ExecuteQueries h) (trace (build w context args)) ->
  exists app stats,
    createApp_oracle w context args = Resolved app /\
    compiler_run w = Resolved stats /\
    h = hashString_of app stats.
Proof.
  intros H. unfold build in H.
  bind_step H u1 H1. bind_step H u2 H2.
  bind_step H app Happ. bind_step H u3 H3.
  bind_step H u4 H4.
  { unfold when in H. destruct (emptyOutputDir (config app));
      simpl in H; intuition discriminate. }
  bind_step H stats Hstats.
  { exfalso. revert H. eapply not_of_kind; [apply runWebpack_events|reflexivity]. }
  bind_step H queue Hqueue. bind_step H redirects Hredirects.
  bind_step H queue' Hqueue'.
  { exists app, stats. split; [exact Happ|]. split.
    - rewrite <- runWebpack_outcome. exact Hstats.
    - simpl in H. destruct H as [H|[]]. injection H as <-. reflexivity. }
  bind_step H u5 H5.
  { exfalso. revert H. eapply not_of_kind; [apply renderHTML_events|reflexivity]. }
  bind_step H u6 H6.
  { exfalso. revert H. eapply not_of_kind; [apply processFiles_events|reflexivity]. }
  bind_step H u7 H7.
  { exfalso. revert H. eapply not_of_kind; [apply processImages_events|reflexivity]. }
  bind_step H exists_ Hexists.
  bind_step H u8 H8.
  { unfold when in H. destruct exists_; simpl in H; intuition discriminate. }
  bind_step H u9 H9. bind_step H u10 H10.
  bind_step H u11 H11. bind_step H u12 H12.
  bind_step H u13 H13. bind_step H u14 H14.
  simpl in H. contradiction.
Qed.

(** The hash handed to the render worker. *)
Lemma build_render_hash context args job payload :
  In (WorkerRender job payload) (trace (build w context args)) ->
  exists app stats,
    createApp_oracle w context args = Resolved app /\
    compiler_run w = Resolved stats /\
    render_hash payload = hashString_of app stats.
Proof.
  intros H. unfold build in H.
  bind_step H u1 H1. bind_step H u2 H2.
  bind_step H app Happ. bind_step H u3 H3.
  bind_step H u4 H4.
  { unfold when in H. destruct (emptyOutputDir (config app));
      simpl in H; intuition discriminate. }
  bind_step H stats Hstats.
  { exfalso. revert H. eapply not_of_kind; [apply runWebpack_events|reflexivity]. }
  bind_step H queue Hqueue. bind_step H redirects Hredirects.
  bind_step H queue' Hqueue'.
  bind_step H u5 H5.
  { exists app, stats. split; [exact Happ|]. split.
    - rewrite <- runWebpack_outcome. exact Hstats.
    - eapply renderHTML_hash. exact H. }
  bind_step H u6 H6.
  { exfalso. revert H. eapply not_of_kind; [apply processFiles_events|reflexivity]. }
  bind_step H u7 H7.
  { exfalso. revert H. eapply not_of_kind; [apply processImages_events|reflexivity]. }
  bind_step H exists_ Hexists.
  bind_step H u8 H8.
  { unfold when in H. destruct exists_; simpl in H; intuition discriminate. }
  bind_step H u9 H9. bind_step H u10 H10.
  bind_step H u11 H11. bind_step H u12 H12.
  bind_step H u13 H13. bind_step H u14 H14.
  simpl in H. contradiction.
Qed.

End BuildHash.

(** X20. The queries and the render worker work with the same hash: whatever
    hash [executeQueries] was given, every call to [worker.render] of that
    build carries it. *)
Theorem queries_and_renders_share_the_hash :
  forall (Page : Type) (w : World Page) (context args : string) (h : string)
         (job : nat) (payload : RenderPayload Page),
    In (ExecuteQueries h) (trace (build w context args)) ->
    In (WorkerRender job payload) (trace (build w context args)) ->
    render_hash payload = h.
Proof.
  intros Page w context args h job payload Hq Hr.
  destruct (build_queries_hash Hq) as [app [stats [Ha [Hs ->]]]].
  destruct (build_render_hash Hr) as [app' [stats' [Ha' [Hs' ->]]]].
  congruence.
Qed.

Lemma queries_and_renders_share_the_hash_witness :
  let cfg := demo_config false true true in
  let world := calm_world (seq 0 3) [] [] [] cfg in
  exists payload,
    In (ExecuteQueries "0f3a9c") (trace (build world "/site" "")) /\
    In (WorkerRender 0 payload) (trace (build world "/site" "")) /\
    render_hash payload = "0f3a9c".
Proof.
  intros cfg world.
  pose (payload :=
          {| render_hash := "0f3a9c"; render_pages := seq 0 3;
             render_htmlTemplate := htmlTemplate cfg;
             render_clientManifestPath := clientManifestPath cfg;
             render_serverBundlePath := serverBundlePath cfg;
             render_prefetch := prefetch cfg; render_preload := preload cfg |}).
  assert (Hq : In (ExecuteQueries "0f3a9c") (trace (build world "/site" "")))
    by (vm_compute; do 8 right; left; reflexivity).
  assert (Hr : In (WorkerRender 0 payload) (trace (build world "/site" "")))
    by (vm_compute; do 10 right; left; reflexivity).
  exists payload. split; [exact Hq|]. split; [exact Hr|].
  exact (@queries_and_renders_share_the_hash nat world "/site" "" _ 0 payload Hq Hr).
Defined.

(** One step down a chain of awaited calls that resolved as a whole: the
    first call resolved. *)
Tactic Notation "resolved_step" hyp(H) ident(x) ident(Hx) :=
  rewrite outcome_bind in H;
  match type of H with
  | match outcome ?m with _ => _ end = _ =>
      destruct (outcome m) as [x|] eqn:Hx; [|discriminate H]
  end;
  cbv beta zeta in H.

Section BuildResolved.
Context {Page : Type}.
Variable w : World Page.

Lemma build_returns_the_app context args app :
  outcome (build w context args) = Resolved app ->
  createApp_oracle w context args = Resolved app.
Proof.
  intros H. unfold build in H.
  resolved_step H u1 H1. resolved_step H u2 H2.
  resolved_step H app' Happ. resolved_step H u3 H3. resolved_step H u4 H4.
  resolved_step H stats Hstats. resolved_step H queue Hqueue.
  resolved_step H redirects Hredirects. resolved_step H queue' Hqueue'.
  resolved_step H u5 H5. resolved_step H u6 H6. resolved_step H u7 H7.
  resolved_step H exists_ Hexists. resolved_step H u8 H8.
  resolved_step H u9 H9. resolved_step H u10 H10.
  resolved_step H u11 H11. resolved_step H u12 H12.
  resolved_step H u13 H13. resolved_step H u14 H14.
  injection H as <-. exact Happ.
Qed.

Lemma build_resolved_stages context args app :
  outcome (build w context args) = Resolved app ->
  trace (build w context args)
    = concat (map (fun s => trace (snd s)) (stages w context args)) /\
  forall s, In s (stages w context args) -> outcome (snd s) = Resolved tt.
Proof.
  intros Hout.
  destruct (@run_stages_spec Page (stages w context args))
    as [n [Hn [Htrace [_ Hall]]]]; [discriminate|].
  rewrite <- build_run_stages in Htrace, Hall.
  assert (Hvoid : outcome (void (build w context args)) = Resolved tt).
  { unfold void, outcome in *. cbn [snd]. rewrite Hout. reflexivity. }
  rewrite Hvoid in Hall. destruct Hall as [-> Hall].
  change (trace (void (build w context args))) with (trace (build w context args))
    in Htrace.
  rewrite firstn_all in Htrace. split; [exact Htrace|exact Hall].
Qed.

Lemma renderHTML_resolved_ends_once (renderQueue : list Page) app hashString :
  outcome (renderHTML w renderQueue app hashString) = Resolved tt ->
  count is_WorkerEnd (trace (renderHTML w renderQueue app hashString)) = 1.
Proof.
  intros Hout. rewrite renderHTML_worker_ends.
  rewrite renderHTML_cases in Hout.
  set (chunks := Lodash.chunk renderQueue 350) in *.
  destruct (@settle_renders_spec Page w (length chunks) (seq 0 (length chunks)) None)
    as [_ [_ Hnone]]; [rewrite length_seq; apply le_n|].
  destruct (snd (settle_renders w (length chunks) (seq 0 (length chunks)) None));
    [discriminate|].
  destruct Hnone as [Hnone _]. destruct (Hnone eq_refl) as [_ ->]. reflexivity.
Qed.

Lemma processImages_resolved_ends_once queue config :
  outcome (processImages w queue config) = Resolved tt ->
  count is_WorkerEnd (trace (processImages w queue config)) = 1.
Proof.
  intros Hout. apply processImages_worker_ends.
  destruct (processImages_after_fanout w queue config)
    as [[existing [head [_ [Hread _]]]]|[[err Herr] _]]; [|congruence].
  destruct Hread as [[E _]|[_ E]]; [left; exact E|right; exists existing; exact E].
Qed.

End BuildResolved.

(** Closes [none p tr] for the trace of a step made of plain calls. *)
Ltac plain_step :=
  apply Forall_forall; intros ?e ?He;
  repeat match goal with
         | H : In _ (trace (bind _ _)) |- _ =>
             apply in_trace_bind in H; destruct H as [H|[? [_ H]]]
         end;
  repeat match goal with
         | H : In _ (trace (when ?c _)) |- _ => destruct c; unfold when in H
         end;
  repeat match goal with
         | H : In _ _ |- _ => simpl in H; destruct H as [<-|H]; [reflexivity|]
         end;
  try contradiction.

(** X21. When [build] resolves, it is to the app [createApp] produced; by
    then each of the two workers has been ended exactly once, the manifests
    directory has been removed, and the last lines logged are the warnings
    and the time the build took. *)
Theorem successful_build_ends_both_workers_once :
  forall (Page : Type) (w : World Page) (context args : string) (app : App),
    outcome (build w context args) = Resolved app ->
    createApp_oracle w context args = Resolved app /\
    count is_WorkerEnd (trace (build w context args)) = 2 /\
    In (FsRemove (manifestsDir (config app))) (trace (build w context args)) /\
    exists rest,
      trace (build w context args)
        = rest ++ [Log ""; LogAllWarnings;
                   Log ("  Done in " ++ timer w "build" ++ "s"); Log ""].
Proof.
  intros Page w context args app Hout.
  pose proof (build_returns_the_app w context args Hout) as Happ.
  destruct (build_resolved_stages w context args Hout) as [Htrace Hall].
  split; [exact Happ|].
  unfold stages in Htrace, Hall. cbv zeta in Htrace, Hall.
  rewrite Happ in Htrace, Hall. cbn [value_or] in Htrace, Hall.
  cbn [map concat snd] in Htrace.
  match type of Htrace with
  | _ = ?t1 ++ ?t2 ++ ?t3 ++ ?t4 ++ ?t5 ++ ?t6 ++ ?t7 ++ ?t8 ++ ?t9 ++ ?t10 ++ ?t11
          ++ ?t12 ++ ?t13 ++ [] =>
      assert (H1 : none is_WorkerEnd t1) by plain_step;
      assert (H2 : none is_WorkerEnd t2) by plain_step;
      assert (H3 : none is_WorkerEnd t3) by plain_step;
      assert (H4 : none is_WorkerEnd t4)
        by (eapply none_of_kind; [|apply runWebpack_events];
            intros e He; destruct e; simpl in *; congruence);
      assert (H5 : none is_WorkerEnd t5) by plain_step;
      assert (H6 : none is_WorkerEnd t6) by plain_step;
      assert (H7 : count is_WorkerEnd t7 = 1)
        by (apply renderHTML_resolved_ends_once; apply (Hall (RenderHTML, _));
            do 6 right; left; reflexivity);
      assert (H8 : none is_WorkerEnd t8)
        by (eapply none_of_kind; [|apply processFiles_events];
            intros e He; destruct e; simpl in *; congruence);
      assert (H9 : count is_WorkerEnd t9 = 1)
        by (apply processImages_resolved_ends_once; apply (Hall (ProcessImages, _));
            do 8 right; left; reflexivity);
      assert (H10 : none is_WorkerEnd t10) by plain_step;
      assert (H11 : none is_WorkerEnd t11) by plain_step;
      assert (H12 : none is_WorkerEnd t12) by plain_step;
      assert (H13 : none is_WorkerEnd t13) by plain_step;
      assert (E12 : t12 = [FsRemove (manifestsDir (config app))]) by reflexivity;
      assert (E13 : t13 = [Log ""; LogAllWarnings;
                           Log ("  Done in " ++ timer w "build" ++ "s"); Log ""])
        by reflexivity
  end.
  rewrite Htrace. split; [|split].
  - rewrite !count_app, (none_count H1), (none_count H2), (none_count H3),
      (none_count H4), (none_count H5), (none_count H6), H7, (none_count H8), H9,
      (none_count H10), (none_count H11), (none_count H12), (none_count H13).
    reflexivity.
  - rewrite E12. do 11 (apply in_or_app; right). apply in_or_app. left.
    left. reflexivity.
  - rewrite E13, app_nil_r. rewrite !app_assoc. eexists. reflexivity.
Qed.

Lemma successful_build_ends_both_workers_once_witness :
  let cfg := demo_config false true true in
  let world := calm_world (seq 0 3) [] (images_queue_of 2) ["old.png"] cfg in
  outcome (build world "/site" "") = Resolved {| config := cfg |} /\
  count is_WorkerEnd (trace (build world "/site" "")) = 2.
Proof.
  intros cfg world.
  assert (Hout : outcome (build world "/site" "") = Resolved {| config := cfg |})
    by (vm_compute; reflexivity).
  split; [exact Hout|].
  exact (proj1 (proj2 (@successful_build_ends_both_workers_once nat world "/site" ""
                         _ Hout))).
Defined.

Section BuildStart.
Context {Page : Type}.
Variable w : World Page.

Lemma trace_bind_emit {B} (e : event Page) (k : unit -> Async Page B) :
  trace (bind (emit e) k) = e :: trace (k tt).
Proof. reflexivity. Qed.

Lemma trace_bind_perform {A B} (e : event Page) (r : result A) (k : A -> Async Page B) :
  trace (bind (perform e r) k)
    = e :: match r with Resolved a => trace (k a) | Rejected _ => [] end.
Proof. destruct r; reflexivity. Qed.

Lemma trace_bind_ret {A B} (a : A) (k : A -> Async Page B) :
  trace (bind (ret a) k) = trace (k a).
Proof. reflexivity. Qed.

End BuildStart.

(** One step down a chain of awaited calls, for an event of a kind the
    plain calls are not of. *)
Tactic Notation "quiet_step" hyp(H) ident(x) :=
  apply in_trace_bind in H; destruct H as [H|[x [_ H]]];
  [try (simpl in H; destruct H as [<-|[]]; reflexivity)|].

(** X22. The compiler runs at most once in a build, and when it runs,
    [createApp] and the [beforeBuild] hook have resolved and the output
    directory has been emptied if [emptyOutputDir] asks for it, in that
    order; on a terminal that is not interactive the notice comes right
    before. *)
Theorem compiler_runs_once_after_the_output_dir_is_emptied :
  forall (Page : Type) (w : World Page) (context args : string),
    In CompilerRun (trace (build w context args)) ->
    exists app rest,
      createApp_oracle w context args = Resolved app /\
      plugins_run w "beforeBuild" = Resolved tt /\
      trace (build w context args)
        = [SetEnv "NODE_ENV" "production"; SetEnv "GRIDSOME_MODE" "static";
           CreateApp context args; PluginsRun "beforeBuild"]
          ++ (if emptyOutputDir (config app)
              then [FsEmptyDir (outputDir (config app))] else [])
          ++ (if stdout_isTTY w then [] else [Log "Compiling assets..."])
          ++ CompilerRun :: rest /\
      none is_CompilerRun rest.
Proof.
  intros Page w context args H. unfold build in H |- *.
  rewrite !trace_bind_emit, trace_bind_perform in H |- *.
  destruct (createApp_oracle w context args) as [app|err];
    [|simpl in H; intuition discriminate].
  cbv beta zeta in H |- *. exists app.
  rewrite trace_bind_perform in H |- *.
  destruct (plugins_run w "beforeBuild") as [[]|err];
    [|simpl in H; intuition discriminate].
  assert (Hrest : forall stats,
    none is_CompilerRun
      (trace
         (queue <- perform CreateRenderQueue (createRenderQueue_oracle w) ;;
          redirects <- perform RedirectsCall (redirects_call w) ;;
          queue0 <- perform (ExecuteQueries (hashString_of app stats))
                      (executeQueries_oracle w queue (hashString_of app stats)) ;;
          renderHTML w queue0 app (hashString_of app stats) ;;
          processFiles w (assets_files w) ;;
          processImages w (assets_images w) (config app) ;;
          exists_ <- perform (FsExistsSync (staticDir (config app)))
                       (Resolved (fs_existsSync w (staticDir (config app)))) ;;
          when exists_
            (perform (FsCopy (staticDir (config app)) (outputDir (config app)) true)
               (fs_copy w (staticDir (config app)) (outputDir (config app)))) ;;
          perform (PluginsRun "afterBuild") (plugins_run w "afterBuild") ;;
          perform (FsRemove (manifestsDir (config app)))
            (fs_remove w (manifestsDir (config app))) ;;
          emit (Log "") ;;
          emit LogAllWarnings ;;
          emit (Log ("  Done in " ++ timer w "build" ++ "s")) ;;
          emit (Log "") ;;
          ret app))).
  { intros stats. apply Forall_forall. intros e He.
    quiet_step He queue. quiet_step He redirects. quiet_step He queue'.
    quiet_step He u5.
    { apply (proj1 (Forall_forall _ _) (renderHTML_events w _ _ _)) in He.
      destruct e; simpl in *; congruence. }
    quiet_step He u6.
    { apply (proj1 (Forall_forall _ _) (processFiles_events w _)) in He.
      destruct e; simpl in *; congruence. }
    quiet_step He u7.
    { apply (proj1 (Forall_forall _ _) (processImages_events w _ _)) in He.
      destruct e; simpl in *; congruence. }
    quiet_step He exists_.
    quiet_step He u8.
    { unfold when in He. destruct exists_; simpl in He;
        [destruct He as [<-|[]]; reflexivity|contradiction]. }
    quiet_step He u9. quiet_step He u10. quiet_step He u11. quiet_step He u12.
    quiet_step He u13. quiet_step He u14.
    simpl in He. contradiction. }
  assert (Hcompile : forall (k : Stats -> Async Page App),
    (forall stats, compiler_run w = Resolved stats -> none is_CompilerRun (trace (k stats))) ->
    exists rest,
      trace (bind (runWebpack w) k)
        = (if stdout_isTTY w then [] else [Log "Compiling assets..."])
          ++ CompilerRun :: rest /\
      none is_CompilerRun rest).
  { intros k Hk. rewrite trace_bind, runWebpack_outcome, runWebpack_trace.
    destruct (compiler_run w) as [stats|err].
    - eexists. split; [rewrite <- app_assoc; reflexivity|].
      constructor; [reflexivity|]. apply Hk. reflexivity.
    - eexists. split; [reflexivity|constructor]. }
  destruct (emptyOutputDir (config app)); unfold when in H |- *.
  - rewrite trace_bind_perform in H |- *.
    destruct (fs_emptyDir w (outputDir (config app))) as [[]|err];
      [|simpl in H; intuition discriminate].
    match goal with |- context [trace (bind (runWebpack w) ?k)] =>
      destruct (Hcompile k) as [rest [E Hnone]]; [intros stats _; apply Hrest|] end.
    exists rest. split; [reflexivity|]. split; [reflexivity|].
    split; [|exact Hnone]. rewrite E. reflexivity.
  - rewrite trace_bind_ret in H |- *.
    match goal with |- context [trace (bind (runWebpack w) ?k)] =>
      destruct (Hcompile k) as [rest [E Hnone]]; [intros stats _; apply Hrest|] end.
    exists rest. split; [reflexivity|]. split; [reflexivity|].
    split; [|exact Hnone]. rewrite E. reflexivity.
Qed.

Lemma compiler_runs_once_after_the_output_dir_is_emptied_witness :
  let cfg := demo_config true true true in
  let world := calm_world (seq 0 3) [] [] [] cfg in
  In CompilerRun (trace (build world "/site" "")) /\
  exists rest,
    trace (build world "/site" "")
      = [SetEnv "NODE_ENV" "production"; SetEnv "GRIDSOME_MODE" "static";
         CreateApp "/site" ""; PluginsRun "beforeBuild"; FsEmptyDir "/site/dist"]
        ++ CompilerRun :: rest /\
    none is_CompilerRun rest.
Proof.
  intros cfg world.
  assert (Hin : In CompilerRun (trace (build world "/site" "")))
    by (vm_compute; do 5 right; left; reflexivity).
  split; [exact Hin|].
  destruct (@compiler_runs_once_after_the_output_dir_is_emptied nat world "/site" "" Hin)
    as [app [rest [Happ [_ [Htrace Hnone]]]]].
  injection Happ as <-. exists rest. split; [exact Htrace|exact Hnone].
Defined.

Lemma image_chunks_are_processed_in_order_witness :
  let cfg := demo_config true true false in
  let queue := images_queue_of 60 in
  let world := calm_world [] [] queue [] cfg in
  outcome (processImages world queue cfg) = Resolved tt /\
  filter is_WorkerProcess (trace (processImages world queue cfg))
    = map (process_call cfg (Lodash.chunk queue 25)) (seq 0 3).
Proof.
  intros cfg queue world.
  assert (Hout : outcome (processImages world queue cfg) = Resolved tt)
    by (vm_compute; reflexivity).
  split; [exact Hout|].
  destruct (@image_chunks_are_processed_in_order nat world queue cfg)
    as [m [_ [Hcalls Hall]]].
  rewrite Hcalls, (Hall Hout). reflexivity.
Defined.

Lemma render_worker_is_ended_once_per_rejection_witness :
  let cfg := demo_config false true true in
  let world := flaky_world [0; 2] [] [] [] [] cfg in
  let run := renderHTML world (seq 0 720) {| config := cfg |} "0f3a9c" in
  In (WorkerEnd html_writer) (trace run) /\
  count is_WorkerEnd (trace run) = 2.
Proof.
  intros cfg world run.
  assert (Hin : In (WorkerEnd html_writer) (trace run))
    by (vm_compute; do 5 right; left; reflexivity).
  split; [exact Hin|].
  destruct (@render_worker_is_ended_once_per_rejection nat world (seq 0 720)
              {| config := cfg |} "0f3a9c") as [Hcount Hown].
  pose proof (Hown html_writer Hin) as _.
  subst run. rewrite Hcount. vm_compute. reflexivity.
Defined.
